(** * Qcover: QUBO / Ising helpers, the Max-Cut wrapper and the tensor-network
      circuit evaluator, embedded shallowly.

    Sources embedded here:
    - [Qcover/applications/common.py]   ([Common])
    - [Qcover/applications/max_cut.py]  ([MaxCutApp])
    - [Qcover/backends/circuitbytensor.py] ([Backend])

    Numbers.  A number is the rational it stands for ([Q]): every finite
    float64, every int64 and every Python int is one.  Literals of the code
    are the float64 they denote ([eps]).  The modules [Common], [MaxCutApp]
    and [Backend] compute with exact operations, kept in the order in which
    the code performs them; [Machine] computes get_Qmatrix and
    get_most_small_ising with the operations of the element type, which
    round in float64 and wrap in int64.  Equality of computed numbers is
    [Qeq] ([==]) where algebra is involved and Leibniz equality where the
    code merely moves or stores a value.

    Failure.  A Python exception is a value of [exn]; a computation that may
    raise has type [result A]. *)

From Stdlib Require Import String Ascii DecimalString.
From Stdlib Require Import List Arith ZArith QArith Qabs Lia Lqa Bool.
From Stdlib Require Import Setoid Morphisms.
From Stdlib Require Floats.
Import ListNotations.

Set Implicit Arguments.

(* ================================================================== *)
(** * Python runtime: exceptions, loops, indexing *)
(* ================================================================== *)

Inductive exn : Type :=
| IndexError
| KeyError
| TypeError
| ValueError
| AttributeError
| AssertionError
| NetworkXError
| UnboundLocalError.

Inductive result (A : Type) : Type :=
| Ok (a : A)
| Raise (e : exn).

Arguments Ok {A} a.
Arguments Raise {A} e.

Definition bind {A B} (m : result A) (k : A -> result B) : result B :=
  match m with
  | Ok a => k a
  | Raise e => Raise e
  end.

Declare Scope py_scope.
Delimit Scope py_scope with py.
Notation "x <- m ;; k" := (bind m (fun x => k))
  (at level 61, m at next level, right associativity) : py_scope.
Notation "' p <- m ;; k" := (bind m (fun p => k))
  (at level 61, p pattern, m at next level, right associativity) : py_scope.
Open Scope py_scope.

(** [for a in l: s = body a s], stopping at the first exception. *)
Fixpoint for_ {A S} (l : list A) (body : A -> S -> result S) (s : S)
  : result S :=
  match l with
  | [] => Ok s
  | a :: l' => s' <- body a s ;; for_ l' body s'
  end.

(** [range(n)] *)
Definition range (n : nat) : list nat := seq 0 n.

(** [l[i]] for a list and a non-negative index. *)
Definition getitem {A} (l : list A) (i : nat) : result A :=
  match nth_error l i with
  | Some a => Ok a
  | None => Raise IndexError
  end.

(** [l[i] = v] *)
Fixpoint setitem {A} (l : list A) (i : nat) (v : A) : result (list A) :=
  match l, i with
  | [], _ => Raise IndexError
  | _ :: t, O => Ok (v :: t)
  | h :: t, S i' => t' <- setitem t i' v ;; Ok (h :: t')
  end.

(** A field that is still [None] cannot be subscripted or counted up to. *)
Definition unwrap {A} (o : option A) : result A :=
  match o with
  | Some a => Ok a
  | None => Raise TypeError
  end.

(** Nor does [None] have the methods of a dictionary. *)
Definition method_of {A} (o : option A) : result A :=
  match o with
  | Some a => Ok a
  | None => Raise AttributeError
  end.

(** A doubly nested loop over [range n] x [range n] visits the cells in
    row-major order. *)
Definition cells (n : nat) : list (nat * nat) :=
  flat_map (fun i => map (pair i) (range n)) (range n).

(** The list [l] with position [i] overwritten; nothing happens out of
    range (the Python assignment raises there, see [setitem]). *)
Fixpoint upd {A} (l : list A) (i : nat) (v : A) : list A :=
  match l, i with
  | [], _ => []
  | _ :: t, O => v :: t
  | h :: t, S i' => h :: upd t i' v
  end.

(* ================================================================== *)
(** * Python dictionaries *)
(* ================================================================== *)

(** Keys of a dictionary are compared with [==]. *)
Class Hashable (K : Type) := key_eq_dec : forall x y : K, {x = y} + {x <> y}.

#[global] Instance nat_hashable : Hashable nat := Nat.eq_dec.
#[global] Instance string_hashable : Hashable string := string_dec.
#[global] Instance pair_hashable {A B} `{Hashable A} `{Hashable B}
  : Hashable (A * B).
Proof.
  intros [a b] [a' b'].
  destruct (key_eq_dec a a') as [Ea | Na]; [|right; congruence].
  destruct (key_eq_dec b b') as [Eb | Nb]; [left | right]; congruence.
Defined.

(** A [dict] keeps its items in insertion order; assigning to a key that is
    present replaces the value in place, assigning to a new key appends. *)
Module PyDict.

Definition dict (K V : Type) : Type := list (K * V).

Section Dict.
Context {K V : Type} `{Hashable K}.

Definition empty : dict K V := [].

(** [d.get(k)] *)
Fixpoint get (d : dict K V) (k : K) : option V :=
  match d with
  | [] => None
  | (k', v) :: t => if key_eq_dec k k' then Some v else get t k
  end.

(** [d[k]] *)
Definition lookup (d : dict K V) (k : K) : result V :=
  match get d k with
  | Some v => Ok v
  | None => Raise KeyError
  end.

(** [d[k] = v] *)
Fixpoint set (d : dict K V) (k : K) (v : V) : dict K V :=
  match d with
  | [] => [(k, v)]
  | (k', v') :: t =>
      if key_eq_dec k k' then (k', v) :: t else (k', v') :: set t k v
  end.

(** [k in d] *)
Definition mem (d : dict K V) (k : K) : bool :=
  match get d k with Some _ => true | None => false end.

Definition keys (d : dict K V) : list K := map fst d.
Definition items (d : dict K V) : list (K * V) := d.

End Dict.

End PyDict.

(* ================================================================== *)
(** * numpy arrays *)
(* ================================================================== *)

Module Np.

(** A two-dimensional array is the list of its rows.  The rows of an array
    have one length; a list whose rows differ in length stands for no
    array, and the theorems are stated for square or rectangular ones. *)
Definition matrix : Type := list (list Q).

(** [n] rows of [n] entries each. *)
Definition square (n : nat) (m : matrix) : Prop :=
  length m = n /\ Forall (fun row => length row = n) m.

Definition squareb (n : nat) (m : matrix) : bool :=
  (length m =? n)%nat && forallb (fun row => (length row =? n)%nat) m.

(** [np.size(m, 0)] *)
Definition size0 (m : matrix) : nat := length m.

(** [np.zeros_like(m, dtype='float')] *)
Definition zeros_like (m : matrix) : matrix := map (map (fun _ => 0)) m.

(** [np.sum(v)] of a one-dimensional array *)
Definition sum (v : list Q) : Q := fold_left Qplus v 0.


(** [m[i][j]] *)
Definition getitem2 (m : matrix) (i j : nat) : result Q :=
  row <- getitem m i ;; getitem row j.

(** [m[i][j] = v]: the row [m[i]] is a view that is written in place. *)
Definition setitem2 (m : matrix) (i j : nat) (v : Q) : result matrix :=
  row <- getitem m i ;;
  row' <- setitem row j v ;;
  setitem m i row'.





(** Total readers and writers, used to state results. *)
Definition mget (m : matrix) (i j : nat) : Q := nth j (nth i m []) 0.
Definition mrow (m : matrix) (i : nat) : list Q := nth i m [].
Definition mset (m : matrix) (i j : nat) (v : Q) : matrix :=
  upd m i (upd (nth i m []) j v).

End Np.

(* ================================================================== *)
(** * networkx graphs *)
(* ================================================================== *)

(** [nx.Graph] keeps a dictionary of nodes and, per node, a dictionary of
    neighbours; both directions of an undirected edge share one attribute
    dictionary.  The only attribute this program reads or writes is
    ['weight'], so an attribute dictionary is [Some w] or, without the key,
    [None].  Node labels are natural numbers. *)
Module Nx.

Definition attrs : Type := option Q.

(** [attr_dict.update(attr)] *)
Definition update (old new : attrs) : attrs :=
  match new with
  | Some w => Some w
  | None => old
  end.

Record Graph : Type := mkGraph {
  _node : PyDict.dict nat attrs;
  _adj : PyDict.dict nat (PyDict.dict nat attrs)
}.

(** [nx.Graph()] *)
Definition empty_graph : Graph := mkGraph PyDict.empty PyDict.empty.

(** [G._adj[u]]; every node of a graph has an entry. *)
Definition nbrs (g : Graph) (u : nat) : PyDict.dict nat attrs :=
  match PyDict.get (_adj g) u with
  | Some d => d
  | None => PyDict.empty
  end.

(** The first half of [add_edge]: an endpoint that is not yet a node becomes
    one, without attributes. *)
Definition touch (g : Graph) (u : nat) : Graph :=
  if PyDict.mem (_node g) u then g
  else mkGraph (PyDict.set (_node g) u None) (PyDict.set (_adj g) u PyDict.empty).

(** [G.add_node(n, weight=w)] or [G.add_node(n)] *)
Definition add_node (g : Graph) (n : nat) (attr : attrs) : Graph :=
  match PyDict.get (_node g) n with
  | None =>
      mkGraph (PyDict.set (_node g) n (update None attr))
              (PyDict.set (_adj g) n PyDict.empty)
  | Some old => mkGraph (PyDict.set (_node g) n (update old attr)) (_adj g)
  end.

(** [G.add_edge(u, v, weight=w)] or [G.add_edge(u, v)] *)
Definition add_edge (g : Graph) (u v : nat) (attr : attrs) : Graph :=
  let g := touch (touch g u) v in
  let datadict :=
    update (match PyDict.get (nbrs g u) v with Some a => a | None => None end)
           attr in
  let adj1 := PyDict.set (_adj g) u (PyDict.set (nbrs g u) v datadict) in
  let g1 := mkGraph (_node g) adj1 in
  let adj2 := PyDict.set adj1 v (PyDict.set (nbrs g1 v) u datadict) in
  mkGraph (_node g) adj2.

(** [G.nodes] / [list(G)] *)
Definition nodes (g : Graph) : list nat := PyDict.keys (_node g).

(** [n in G] *)
Definition has_node (g : Graph) (n : nat) : bool := PyDict.mem (_node g) n.

(** [G.nodes[n].get('weight')] *)
Definition node_weight (g : Graph) (n : nat) : option Q :=
  match PyDict.get (_node g) n with
  | Some a => a
  | None => None
  end.

(** [G.get_edge_data(u, v)]: [None] when there is no such edge. *)
Definition get_edge_data (g : Graph) (u v : nat) : option attrs :=
  PyDict.get (nbrs g u) v.

(** [G.has_edge(u, v)] *)
Definition has_edge (g : Graph) (u v : nat) : bool :=
  match get_edge_data g u v with Some _ => true | None => false end.

(** [G.edges(data=True)]: each edge is reported once, from the endpoint that
    comes first in the adjacency dictionary. *)
Fixpoint edges_from (adj : list (nat * PyDict.dict nat attrs)) (seen : list nat)
  : list (nat * nat * attrs) :=
  match adj with
  | [] => []
  | (n, nb) :: rest =>
      map (fun '(nbr, dd) => (n, nbr, dd))
          (filter (fun '(nbr, _) => negb (existsb (Nat.eqb nbr) seen))
                  (PyDict.items nb))
      ++ edges_from rest (n :: seen)
  end.

Definition edges_data (g : Graph) : list (nat * nat * attrs) :=
  edges_from (PyDict.items (_adj g)) [].

(** [G.edges] *)
Definition edges (g : Graph) : list (nat * nat) :=
  map (fun '(u, v, _) => (u, v)) (edges_data g).

(** [nx.get_node_attributes(G, 'weight')] *)
Definition get_node_attributes (g : Graph) : PyDict.dict nat Q :=
  flat_map (fun '(n, a) => match a with Some w => [(n, w)] | None => [] end)
           (PyDict.items (_node g)).

(** [nx.get_edge_attributes(G, 'weight')] *)
Definition get_edge_attributes (g : Graph) : PyDict.dict (nat * nat) Q :=
  flat_map (fun '(u, v, a) =>
              match a with Some w => [((u, v), w)] | None => [] end)
           (edges_data g).

(** [nx.adjacency_matrix(G).A]: rows and columns follow [list(G)]; an edge
    without a weight counts 1, a missing edge 0, a self-loop sits on the
    diagonal once.  networkx refuses a graph without nodes. *)
Definition adjacency_entry (g : Graph) (u v : nat) : Q :=
  match get_edge_data g u v with
  | Some (Some w) => w
  | Some None => 1
  | None => 0
  end.

Definition adjacency_matrix (g : Graph) : result Np.matrix :=
  match nodes g with
  | [] => Raise NetworkXError
  | nodelist =>
      Ok (map (fun u => map (fun v => adjacency_entry g u v) nodelist) nodelist)
  end.

End Nx.

(* ================================================================== *)
(** * Qcover/applications/common.py *)
(* ================================================================== *)

Module Common.
Import Np Nx.

(** [get_ising_matrix(qubo_mat)] *)
Definition get_ising_matrix (qubo_mat : matrix) : result matrix :=
  let ising_mat := zeros_like qubo_mat in
  let mat_len := size0 qubo_mat in
  for_ (range mat_len) (fun i ising_mat =>
    for_ (range mat_len) (fun j ising_mat =>
      if (i =? j)%nat then
        qii <- getitem2 qubo_mat i i ;;
        row <- getitem qubo_mat i ;;
        qii' <- getitem2 qubo_mat i i ;;
        setitem2 ising_mat i i (1 * (qii / 2) + Np.sum row - qii')
      else
        qij <- getitem2 qubo_mat i j ;;
        setitem2 ising_mat i j (1 * (qij / 4)))
      ising_mat)
    ising_mat.

(** [node_map[i]] of a [defaultdict(int)]: a missing key reads as 0.  (The
    read also stores the 0 under that key, which no later read can tell
    apart from the default.) *)
Definition node_map_get (node_map : PyDict.dict nat nat) (i : nat) : nat :=
  match PyDict.get node_map i with
  | Some v => v
  | None => 0%nat
  end.

(** The threshold [1e-8] below which an off-diagonal entry makes no edge:
    the float64 this literal denotes, 3022314549036573 / 2^78, which is a
    little more than 1/10^8.  The comparison itself is exact: subtracting
    [0.] and taking the absolute value do not round. *)
Definition eps : Q := 3022314549036573 # 302231454903657293676544.

(** [get_weights_graph(ising_mat, graph)] *)
Definition get_weights_graph (ising_mat : matrix) (graph : option Graph)
  : result Graph :=
  let cnt := size0 ising_mat in
  let node_map : PyDict.dict nat nat :=
    match graph with
    | Some g =>
        let node_list := nodes g in
        fold_left (fun nm i => PyDict.set nm i (nth i node_list 0%nat))
                  (range (length node_list)) PyDict.empty
    | None =>
        fold_left (fun nm i => PyDict.set nm i i) (range cnt) PyDict.empty
    end in
  for_ (range cnt) (fun i graph =>
    for_ (range cnt) (fun j graph =>
      if (i =? j)%nat then
        mii <- getitem2 ising_mat i i ;;
        Ok (add_node graph (node_map_get node_map i) (Some mii))
      else
        mij <- getitem2 ising_mat i j ;;
        if Qle_bool (Qabs (mij - 0)) eps then Ok graph
        else
          w <- getitem2 ising_mat i j ;;
          Ok (add_edge graph (node_map_get node_map i)
                       (node_map_get node_map j) (Some w)))
      graph)
    empty_graph.

(** [-1] for the character ['0'], [1] for any other. *)
Definition spin_of_char (c : ascii) : Z :=
  if Ascii.eqb c "0"%char then (-1)%Z else 1%Z.

(** [int(c)] for a one-character string. *)
Definition int_of_char (c : ascii) : result Z :=
  let n := nat_of_ascii c in
  if ((48 <=? n) && (n <=? 57))%nat then Ok (Z.of_nat (n - 48))
  else Raise ValueError.

(** [[f(a) for a in l]] *)
Fixpoint comprehension {A B} (f : A -> result B) (l : list A)
  : result (list B) :=
  match l with
  | [] => Ok []
  | a :: t => b <- f a ;; bs <- comprehension f t ;; Ok (b :: bs)
  end.

(** [a > b] on numbers *)
Definition Qgt_bool (a b : Q) : bool := negb (Qle_bool a b).

(** The body of the loop over the measured states: the energy of [key] on
    the graph, as the code accumulates it, with exact operations
    ([Machine.key_energy] takes those of the weights' type). *)
Definition key_energy (nodew : PyDict.dict nat Q)
           (edw : PyDict.dict (nat * nat) Q) (key : string) : result Q :=
  let tmp_h := 0 in
  let tw := map spin_of_char (list_ascii_of_string key) in
  tmp_h <- for_ (PyDict.keys nodew) (fun nd tmp_h =>
             w <- PyDict.lookup nodew nd ;;
             t <- getitem tw nd ;;
             Ok (tmp_h + w * inject_Z t)) tmp_h ;;
  for_ (PyDict.keys edw) (fun ed tmp_h =>
    if (fst ed =? snd ed)%nat then Ok tmp_h
    else
      w <- PyDict.lookup edw ed ;;
      t0 <- getitem tw (fst ed) ;;
      t1 <- getitem tw (snd ed) ;;
      Ok (tmp_h + w * inject_Z t0 * inject_Z t1)) tmp_h.

(** [get_most_small_ising(state_count, ising_g)].  The loop state is the
    pair of [min_h] and [res_state]; the latter is unbound until the first
    assignment.  The energies are those of [key_energy]. *)
Definition get_most_small_ising {V} (state_count : PyDict.dict string V)
           (ising_g : Graph) : result (list Z) :=
  let nodew := get_node_attributes ising_g in
  let edw := get_edge_attributes ising_g in
  let min_h : Q := 999999 in
  st <- for_ (PyDict.items state_count) (fun kv st =>
          let key := fst kv in
          let '(min_h, res_state) := st in
          tmp_h <- key_energy nodew edw key ;;
          if Qgt_bool min_h tmp_h then
            res <- comprehension int_of_char (list_ascii_of_string key) ;;
            Ok (tmp_h, Some res)
          else Ok (min_h, res_state))
        (min_h, None) ;;
  match snd st with
  | Some res_state => Ok res_state
  | None => Raise UnboundLocalError
  end.

End Common.

(* ================================================================== *)
(** * Qcover/applications/max_cut.py *)
(* ================================================================== *)

Module MaxCutApp.
Import Np Nx Common.

Record MaxCut : Type := mkMaxCut {
  _node_num : nat;
  _graph : Graph;
  _qmatrix : option matrix
}.

(** [MaxCut(graph=graph)] *)
Definition init_graph (graph : Graph) : MaxCut :=
  mkMaxCut (length (nodes graph)) graph None.

(** [MaxCut(node_num=..., node_degree=..., weight_range=..., seed=...)].
    [generated] is what this call of [random_regular_graph] returns: the
    graph drawn by the random number generators, or the failure of one of
    its assertions. *)
Definition init_random (node_num : nat) (generated : result Graph)
  : result MaxCut :=
  g <- generated ;; Ok (mkMaxCut node_num g None).

(** [self.update_random_graph(node_num, node_degree, weight_range, seed)],
    with [generated] as in [init_random].  The method returns nothing; the
    result is the outcome paired with the object afterwards. *)
Definition update_random_graph (self : MaxCut) (node_num : nat)
           (generated : result Graph) : result unit * MaxCut :=
  let self := mkMaxCut node_num (_graph self) (_qmatrix self) in
  match generated with
  | Ok g => (Ok tt, mkMaxCut (_node_num self) g (_qmatrix self))
  | Raise e => (Raise e, self)
  end.

(** [self.get_Qmatrix()], with exact operations ([Machine.get_Qmatrix]
    takes those of the element type). *)
Definition get_Qmatrix (self : MaxCut) : result matrix :=
  adj_mat <- adjacency_matrix (_graph self) ;;
  let qubo_mat := adj_mat in
  for_ (range (_node_num self)) (fun i qubo_mat =>
    row <- getitem adj_mat i ;;
    aii <- getitem2 adj_mat i i ;;
    setitem2 qubo_mat i i (- (Np.sum row - aii)))
    qubo_mat.


(** What [run] computes from a Q matrix: the last three lines of the
    method. *)
Definition graph_of_qmatrix (q : matrix) : result Graph :=
  ising_mat <- get_ising_matrix q ;; get_weights_graph ising_mat None.

(** [self.run()]: the outcome paired with the object afterwards. *)
Definition run (self : MaxCut) : result Graph * MaxCut :=
  let filled : result MaxCut :=
    match _qmatrix self with
    | None =>
        q <- get_Qmatrix self ;;
        Ok (mkMaxCut (_node_num self) (_graph self) (Some q))
    | Some _ => Ok self
    end in
  match filled with
  | Raise e => (Raise e, self)
  | Ok self =>
      (qubo_mat <- unwrap (_qmatrix self) ;;
       ising_mat <- get_ising_matrix qubo_mat ;;
       get_weights_graph ising_mat None,
       self)
  end.

End MaxCutApp.

(* ================================================================== *)
(** * quimb circuits *)
(* ================================================================== *)

(** What the evaluator uses of [quimb.tensor.Circuit]: a circuit is a number
    of qubits and the gates applied so far, in order. *)
Module Quimb.

Record Gate : Type := mkGate {
  gate_id : string;
  params : list Q;
  qubits : list nat
}.

Record Circuit : Type := mkCircuit {
  N : nat;
  gates : list Gate
}.

(** [qu.tensor.Circuit(n)] *)
Definition new_circuit (n : nat) : Circuit := mkCircuit n [].

(** [circ.apply_gate(gate_id, *params, *qubits)] *)
Definition apply_gate (circ : Circuit) (id : string) (ps : list Q)
           (qs : list nat) : Circuit :=
  mkCircuit (N circ) (gates circ ++ [mkGate id ps qs]).

(** [qu.pauli(s)] and [a & b] (Kronecker product) *)
Inductive operator : Type :=
| pauli (s : string)
| kron (a b : operator).

Record complex : Type := mkComplex {
  real : Q;
  imag : Q
}.

(** Two gates that share no qubit. *)
Definition disjoint (g h : Gate) : Prop :=
  forall q, In q (qubits g) -> ~ In q (qubits h).

(** Gate sequences that differ only in the order of neighbouring gates on
    different qubits describe one circuit. *)
Inductive same_circuit : list Gate -> list Gate -> Prop :=
| sc_nil : same_circuit [] []
| sc_skip g l l' : same_circuit l l' -> same_circuit (g :: l) (g :: l')
| sc_swap g h l : disjoint g h -> same_circuit (g :: h :: l) (h :: g :: l)
| sc_trans l1 l2 l3 :
    same_circuit l1 l2 -> same_circuit l2 l3 -> same_circuit l1 l3.

End Quimb.

(* ================================================================== *)
(** * Qcover/backends/circuitbytensor.py *)
(* ================================================================== *)

Module Backend.
Import Nx Quimb.

(** A key of [_element_to_graph]: a node ([int]) or an edge (a pair). *)
Inductive element : Type :=
| ENode (n : nat)
| EEdge (u v : nat).

#[global] Instance element_hashable : Hashable element.
Proof.
  intros [n | u v] [n' | u' v']; try (right; congruence).
  - destruct (Nat.eq_dec n n'); [left | right]; congruence.
  - destruct (Nat.eq_dec u u'); [|right; congruence].
    destruct (Nat.eq_dec v v'); [left | right]; congruence.
Defined.

Record CircuitByTensor : Type := mkCircuitByTensor {
  _p : option nat;
  _nodes_weight : option (PyDict.dict nat Q);
  _edges_weight : option (PyDict.dict (nat * nat) Q);
  _is_parallel : bool;
  _opt : string;
  _element_to_graph : option (PyDict.dict element Graph);
  _pargs : option (list Q);
  _expectation_path : list Q
}.

(** [CircuitByTensor(nodes_weight, edges_weight, contract_opt, is_parallel)] *)
Definition init (nodes_weight : option (PyDict.dict nat Q))
           (edges_weight : option (PyDict.dict (nat * nat) Q))
           (contract_opt : string) (is_parallel : option bool)
  : CircuitByTensor :=
  mkCircuitByTensor None nodes_weight edges_weight
    (match is_parallel with None => false | Some b => b end)
    contract_opt None None [].

Definition default_init : CircuitByTensor := init None None "greedy" None.

(** What the methods touch outside the object: the process environment and
    the standard output (a printed line is its text and the number after
    it). *)
Record Process : Type := mkProcess {
  environ : PyDict.dict string string;
  stdout : list (string * Q)
}.

(** [str(n)] *)
Definition str (n : nat) : string := NilEmpty.string_of_uint (Nat.to_uint n).

(** The five assignments to [os.environ] that open both evaluation methods. *)
Definition set_threads (proc : Process) (cpu_num : nat) : Process :=
  let e := environ proc in
  let e := PyDict.set e "OMP_NUM_THREADS"%string (str cpu_num) in
  let e := PyDict.set e "OPENBLAS_NUM_THREADS"%string (str cpu_num) in
  let e := PyDict.set e "MKL_NUM_THREADS"%string (str cpu_num) in
  let e := PyDict.set e "VECLIB_MAXIMUM_THREADS"%string (str cpu_num) in
  let e := PyDict.set e "NUMEXPR_NUM_THREADS"%string (str cpu_num) in
  mkProcess e (stdout proc).

(** [print("Total expectation of original graph is: ", res)] *)
Definition print_total (proc : Process) (res : Q) : Process :=
  mkProcess (environ proc)
            (stdout proc ++ [("Total expectation of original graph is: "%string, res)]).

(** [node_to_qubit[nd]] of a [defaultdict(int)]; see [Common.node_map_get]. *)
Definition qubit_of (node_to_qubit : PyDict.dict nat nat) (nd : nat) : nat :=
  match PyDict.get node_to_qubit nd with
  | Some q => q
  | None => 0%nat
  end.

(** The first loop of [get_expectation]. *)
Definition build_node_to_qubit (node_list : list nat) : PyDict.dict nat nat :=
  fold_left (fun m i => PyDict.set m (nth i node_list 0%nat) i)
            (range (length node_list)) PyDict.empty.

Section Evaluator.

(** [circ.local_expectation(G, where, optimize=opt)] of the tensor-network
    library: the contraction itself is not part of this program. *)
Variable local_expectation :
  Circuit -> operator -> list nat -> string -> complex.

(** [multiprocessing.cpu_count()] *)
Variable cpu_count : nat.

(** The loop over the layers [k] of [get_expectation]. *)
Definition build_circuit (self : CircuitByTensor) (graph : Graph)
           (node_to_qubit : PyDict.dict nat nat) (gamma_list beta_list : list Q)
           (p : nat) (circ : Circuit) : result Circuit :=
  for_ (range p) (fun k circ =>
    circ <- for_ (nodes graph) (fun nd circ =>
      let u := qubit_of node_to_qubit nd in
      let circ := if (k =? 0)%nat then apply_gate circ "H" [] [u] else circ in
      gk <- getitem gamma_list k ;;
      nw <- unwrap (_nodes_weight self) ;;
      w <- PyDict.lookup nw nd ;;
      Ok (apply_gate circ "rz" [2 * gk * w] [u])) circ ;;
    circ <- for_ (edges graph) (fun edge circ =>
      let u := qubit_of node_to_qubit (fst edge) in
      let v := qubit_of node_to_qubit (snd edge) in
      if (u =? v)%nat then Ok circ
      else
        gk <- getitem gamma_list k ;;
        ew <- unwrap (_edges_weight self) ;;
        w <- PyDict.lookup ew (fst edge, snd edge) ;;
        Ok (apply_gate circ "RZZ" [- gk * w] [u; v])) circ ;;
    for_ (nodes graph) (fun nd circ =>
      bk <- getitem beta_list k ;;
      Ok (apply_gate circ "rx" [2 * bk] [qubit_of node_to_qubit nd])) circ)
    circ.

(** [self.get_expectation(element_graph)] *)
Definition get_expectation (self : CircuitByTensor)
           (element_graph : element * Graph) : result Q :=
  let '(original_e, graph) := element_graph in
  let node_list := nodes graph in
  let node_to_qubit := build_node_to_qubit node_list in
  pargs <- unwrap (_pargs self) ;;
  let gamma_list := firstn (match _p self with Some p => p | None => length pargs end) pargs in
  let beta_list := skipn (match _p self with Some p => p | None => 0%nat end) pargs in
  let circ := new_circuit (length (nodes graph)) in
  p <- unwrap (_p self) ;;
  circ <- build_circuit self graph node_to_qubit gamma_list beta_list p circ ;;
  match original_e with
  | ENode n =>
      nw <- unwrap (_nodes_weight self) ;;
      weight <- PyDict.lookup nw n ;;
      let where_ := [qubit_of node_to_qubit n] in
      let exp_res := local_expectation circ (pauli "Z") where_ (_opt self) in
      Ok (real exp_res * weight)
  | EEdge a b =>
      ew <- unwrap (_edges_weight self) ;;
      weight <- PyDict.lookup ew (a, b) ;;
      let ZZ := kron (pauli "Z") (pauli "Z") in
      let where_ := [qubit_of node_to_qubit a; qubit_of node_to_qubit b] in
      let exp_res := local_expectation circ ZZ where_ (_opt self) in
      Ok (real exp_res * weight)
  end.

(** [self._expectation_path.append(res)] *)
Definition append_path (self : CircuitByTensor) (res : Q) : CircuitByTensor :=
  mkCircuitByTensor (_p self) (_nodes_weight self) (_edges_weight self)
    (_is_parallel self) (_opt self) (_element_to_graph self) (_pargs self)
    (_expectation_path self ++ [res]).

(** [self.expectation_calculation_serial()]: the outcome, paired with the
    process and the object afterwards. *)
Definition expectation_calculation_serial (proc : Process)
           (self : CircuitByTensor)
  : result Q * (Process * CircuitByTensor) :=
  let cpu_num := cpu_count in
  let proc := set_threads proc cpu_num in
  let res := 0 in
  let looped :=
    e2g <- method_of (_element_to_graph self) ;;
    for_ (PyDict.items e2g) (fun item res =>
      e <- get_expectation self item ;; Ok (res + e)) res in
  match looped with
  | Raise e => (Raise e, (proc, self))
  | Ok res => (Ok res, (print_total proc res, append_path self res))
  end.

(** [pool.map(f, l, chunksize=1)]: the results in the order of [l].  When
    some call raises, the map raises; which of several failures is reported
    depends on the workers, and the model reports the first in list order. *)
Definition pool_map {A B} (f : A -> result B) (l : list A) : result (list B) :=
  Common.comprehension f l.

(** [sum(l)] *)
Definition py_sum (l : list Q) : Q := fold_left Qplus l 0.

(** [self.expectation_calculation_parallel()] *)
Definition expectation_calculation_parallel (proc : Process)
           (self : CircuitByTensor)
  : result Q * (Process * CircuitByTensor) :=
  let cpu_num := 1%nat in
  let proc := set_threads proc cpu_num in
  let mapped :=
    e2g <- method_of (_element_to_graph self) ;;
    pool_map (get_expectation self) (PyDict.items e2g) in
  match mapped with
  | Raise e => (Raise e, (proc, self))
  | Ok circ_res0 =>
      let res := py_sum circ_res0 in
      (Ok res, (print_total proc res, append_path self res))
  end.

(** [self.expectation_calculation()] *)
Definition expectation_calculation (proc : Process) (self : CircuitByTensor)
  : result Q * (Process * CircuitByTensor) :=
  if _is_parallel self then expectation_calculation_parallel proc self
  else expectation_calculation_serial proc self.

End Evaluator.

End Backend.

(* ================================================================== *)
(** * Energies and cuts, as the specification words them *)
(* ================================================================== *)

Module Energy.
Import Np.

(** The sum of [f 0], ..., [f (n-1)]. *)
Fixpoint sum_upto (n : nat) (f : nat -> Q) : Q :=
  match n with
  | O => 0
  | S k => sum_upto k f + f k
  end.

(** The sum of [f i j] over the pairs [i < j < n]. *)
Fixpoint sum_pairs (n : nat) (f : nat -> nat -> Q) : Q :=
  match n with
  | O => 0
  | S k => sum_pairs k f + sum_upto k (fun i => f i k)
  end.

(** A 0/1 vector. *)
Definition binary (x : list Q) : Prop := Forall (fun xi => xi = 0 \/ xi = 1) x.

(** [s_i = 2 x_i - 1] *)
Definition spins (x : list Q) : list Q := map (fun xi => 2 * xi - 1) x.

Definition at_ (v : list Q) (i : nat) : Q := nth i v 0.

(** The QUBO energy [x^T Q x]. *)
Definition qubo_energy (Qm : matrix) (x : list Q) : Q :=
  let n := length x in
  sum_upto n (fun i => sum_upto n (fun j => at_ x i * mget Qm i j * at_ x j)).

(** The Ising energy with fields [h_i = M[i][i]] and couplings
    [J_ij = M[i][j]], the couplings summed over the ordered pairs [i <> j]. *)
Definition ising_energy (M : matrix) (s : list Q) : Q :=
  let n := length s in
  sum_upto n (fun i => mget M i i * at_ s i)
  + sum_upto n (fun i => sum_upto n (fun j =>
      if (i =? j)%nat then 0 else mget M i j * at_ s i * at_ s j)).

(** The same with every coupling counted once, over the pairs [i < j], as
    the edges of the graph made from [M] count it. *)
Definition ising_energy_edges (M : matrix) (s : list Q) : Q :=
  let n := length s in
  sum_upto n (fun i => mget M i i * at_ s i)
  + sum_pairs n (fun i j => mget M i j * at_ s i * at_ s j).

(** The sum of the off-diagonal entries of row [i] of an [n] by [n]
    matrix. *)
Definition off_diagonal_sum (n : nat) (M : matrix) (i : nat) : Q :=
  sum_upto n (fun j => if (i =? j)%nat then 0 else mget M i j).

(** [M[i][j] == M[j][i]] everywhere. *)
Definition symmetric (M : matrix) : Prop := forall i j, mget M i j == mget M j i.

(** The same, checked entry by entry on an [n] by [n] matrix. *)
Definition symmetricb (n : nat) (M : matrix) : bool :=
  forallb (fun c => Qeq_bool (mget M (fst c) (snd c)) (mget M (snd c) (fst c)))
          (cells n).

End Energy.

Module Cut.
Import Np Energy.



End Cut.

Module StateEnergy.
Import Nx Common.

(** The sum of a list of numbers. *)
Definition total (l : list Q) : Q := fold_right Qplus 0 l.

(** The spin the character at position [i] of [key] stands for: -1 for
    ['0'], +1 otherwise. *)
Definition spin (key : string) (i : nat) : Q :=
  inject_Z (nth i (map spin_of_char (list_ascii_of_string key)) 0%Z).

(** The Ising energy of the state [key] on the graph: node weights times
    spin, plus, over the edges that are not self-loops, edge weights times
    the product of the spins of the endpoints. *)
Definition state_energy (g : Graph) (key : string) : Q :=
  total (map (fun '(nd, w) => w * spin key nd) (get_node_attributes g))
  + total (map (fun '(u, v, w) =>
                  if (u =? v)%nat then 0 else w * spin key u * spin key v)
               (get_edge_attributes g)).

(** Every character is ['0'] or ['1']. *)
Definition bitstring (key : string) : Prop :=
  Forall (fun c => c = "0"%char \/ c = "1"%char) (list_ascii_of_string key).

(** The characters of a bitstring as integers. *)
Definition key_bits (key : string) : list Z :=
  map (fun c => if Ascii.eqb c "1"%char then 1%Z else 0%Z)
      (list_ascii_of_string key).

(** [key] has a character for every node of the graph and for both
    endpoints of every edge. *)
Definition indexes (key : string) (g : Graph) : Prop :=
  (forall nd, In nd (nodes g) -> (nd < String.length key)%nat)
  /\ (forall u v, In (u, v) (edges g) ->
        (u < String.length key)%nat /\ (v < String.length key)%nat).

(** The initial value of [min_h]. *)
Definition min_h0 : Q := 999999.

End StateEnergy.

(* ================================================================== *)
(** * The circuit of one element, layer by layer *)
(* ================================================================== *)

Module Layers.
Import Quimb.

Section Layers.
(** The angles and weights of the circuit, the qubit of each node, and the
    nodes and edges of the element graph. *)
Variables gamma beta : nat -> Q.
Variable nodes_weight : nat -> Q.
Variable edges_weight : nat * nat -> Q.
Variable qubit : nat -> nat.
Variable nodes : list nat.
Variable edges : list (nat * nat).

Definition H_on (nd : nat) : Gate := mkGate "H" [] [qubit nd].
Definition rz_on (k nd : nat) : Gate :=
  mkGate "rz" [2 * gamma k * nodes_weight nd] [qubit nd].
Definition RZZ_on (k : nat) (edge : nat * nat) : Gate :=
  mkGate "RZZ" [- gamma k * edges_weight (fst edge, snd edge)]
         [qubit (fst edge); qubit (snd edge)].
Definition rx_on (k nd : nat) : Gate := mkGate "rx" [2 * beta k] [qubit nd].

(** The edges whose endpoints sit on different qubits. *)
Definition proper_edges : list (nat * nat) :=
  filter (fun edge => negb (qubit (fst edge) =? qubit (snd edge))%nat) edges.

(** Layer [k] as the specification describes it: H on every qubit when
    [k = 0], then rz on every node's qubit, then RZZ on every edge between
    different qubits, then rx on every node's qubit. *)
Definition layer (k : nat) : list Gate :=
  (if (k =? 0)%nat then map H_on nodes else [])
  ++ map (rz_on k) nodes
  ++ map (RZZ_on k) proper_edges
  ++ map (rx_on k) nodes.

Definition layered_circuit (p : nat) : list Gate := flat_map layer (range p).

(** Layer [k] in the order in which the code applies the gates: the first
    loop over the nodes applies, node by node, H (when [k = 0]) and then
    rz. *)
Definition applied_layer (k : nat) : list Gate :=
  flat_map (fun nd => (if (k =? 0)%nat then [H_on nd] else []) ++ [rz_on k nd])
           nodes
  ++ map (RZZ_on k) proper_edges
  ++ map (rx_on k) nodes.

Definition applied_circuit (p : nat) : list Gate :=
  flat_map applied_layer (range p).

End Layers.

End Layers.

(** The quantities [get_expectation] reads while it builds the circuit. *)
Module Readings.
Import Nx Backend.

(** [gamma_list[k]] and [beta_list[k]] *)
Definition gamma (pargs : list Q) (p k : nat) : Q := nth k (firstn p pargs) 0.
Definition beta (pargs : list Q) (p k : nat) : Q := nth k (skipn p pargs) 0.

(** [self._nodes_weight[nd]] and [self._edges_weight[u, v]] *)
Definition weight_of_node (nw : PyDict.dict nat Q) (nd : nat) : Q :=
  match PyDict.get nw nd with Some w => w | None => 0 end.
Definition weight_of_edge (ew : PyDict.dict (nat * nat) Q) (edge : nat * nat)
  : Q :=
  match PyDict.get ew edge with Some w => w | None => 0 end.

(** [node_to_qubit[nd]] *)
Definition qubit (graph : Graph) : nat -> nat :=
  qubit_of (build_node_to_qubit (nodes graph)).

End Readings.

(* ================================================================== *)
(** * Loop bodies and invariants *)
(* ================================================================== *)

(** What one iteration of each loop does, as a function on the loop state,
    and the invariants the loops keep. *)
Module LoopBodies.
Import Np Nx Common StateEnergy.

(** The entry the loop body of [get_ising_matrix] writes at [(i, j)]. *)
Definition ising_entry (qubo_mat : matrix) (i j : nat) : Q :=
  if (i =? j)%nat
  then 1 * (mget qubo_mat i i / 2) + Np.sum (mrow qubo_mat i) - mget qubo_mat i i
  else 1 * (mget qubo_mat i j / 4).

(** The diagonal entry the loop of [get_Qmatrix] writes in row [i]. *)
Definition qubo_diag (adj_mat : matrix) (i : nat) : Q :=
  - (Np.sum (mrow adj_mat i) - mget adj_mat i i).

(** Every key of the adjacency dictionary of a graph is a node. *)
Definition wf (g : Graph) : Prop :=
  forall n, PyDict.get (_node g) n = None -> PyDict.get (_adj g) n = None.

(** An entry is large enough to make an edge. *)
Definition makes_edge (m : Q) : Prop := eps < Qabs m.

(** One iteration of the double loop of [get_weights_graph] with the
    identity node map. *)
Definition visit (ising_mat : matrix) (g : Graph) (c : nat * nat) : Graph :=
  let '(i, j) := c in
  if (i =? j)%nat then add_node g i (Some (mget ising_mat i i))
  else if Qle_bool (Qabs (mget ising_mat i j - 0)) eps then g
       else add_edge g i j (Some (mget ising_mat i j)).

(** One iteration of the loop of [get_most_small_ising] over the measured
    states, for keys whose energy is [e key]. *)
Definition keep_smaller {V} (e : string -> Q) (st : Q * option (list Z))
           (kv : string * V) : Q * option (list Z) :=
  if Qgt_bool (fst st) (e (fst kv))
  then (e (fst kv), Some (key_bits (fst kv)))
  else st.

End LoopBodies.

(* ================================================================== *)
(** * Small concrete inputs *)
(* ================================================================== *)

Module Examples.
Import Np Nx Quimb Common MaxCutApp Backend.

(** One edge of weight 1 between nodes 0 and 1. *)
Definition one_edge : Graph := add_edge empty_graph 0 1 (Some 1).

(** The path 0 - 1 - 2 with weights 2 and 3. *)
Definition path3 : Graph :=
  add_edge (add_edge empty_graph 0 1 (Some 2)) 1 2 (Some 3).

Definition path3_adjacency : matrix := [[0; 2; 0]; [2; 0; 3]; [0; 3; 0]].

(** A symmetric matrix with one large and one vanishing coupling. *)
Definition small_ising : matrix :=
  [[1; 1 # 2; 0]; [1 # 2; 2; 1 # 1000000000]; [0; 1 # 1000000000; 3]].

(** Two weighted nodes joined by an edge of weight 2. *)
Definition weighted_pair : Graph :=
  add_edge (add_node (add_node empty_graph 0 (Some 1)) 1 (Some (-1)))
           0 1 (Some 2).

Definition counts : PyDict.dict string nat :=
  [("00"%string, 3%nat); ("01"%string, 5%nat); ("11"%string, 2%nat)].

(** Counts whose states all have energy 1000000 on [heavy_node]. *)
Definition heavy_node : Graph := add_node empty_graph 0 (Some 1000000).
Definition heavy_counts : PyDict.dict string nat := [("1"%string, 7%nat)].

(** A stand-in for the contraction: the number of gates as the real part. *)
Definition count_gates (circ : Circuit) (G : operator) (where_ : list nat)
           (opt : string) : complex :=
  mkComplex (inject_Z (Z.of_nat (length (gates circ)))) 0.

(** An evaluator for [one_edge] with one layer. *)
Definition evaluator (is_parallel : bool) : CircuitByTensor :=
  mkCircuitByTensor (Some 1%nat)
    (Some [(0%nat, 1); (1%nat, 3)])
    (Some [((0%nat, 1%nat), 2)])
    is_parallel "greedy"
    (Some [(ENode 0, one_edge); (ENode 1, one_edge); (EEdge 0 1, one_edge)])
    (Some [1 # 2; 1 # 3])
    [].

Definition idle : Process := mkProcess [] [].

End Examples.

(* ================================================================== *)
(** * Further readings of the code *)
(* ================================================================== *)

Module Further.
Import Np Nx Common MaxCutApp Backend.

(** One iteration of the double loop of [get_weights_graph] under a node
    map [label]. *)
Definition visit_as (label : nat -> nat) (ising_mat : matrix) (g : Graph)
           (c : nat * nat) : Graph :=
  let '(i, j) := c in
  if (i =? j)%nat then add_node g (label i) (Some (mget ising_mat i i))
  else if Qle_bool (Qabs (mget ising_mat i j - 0)) eps then g
       else add_edge g (label i) (label j) (Some (mget ising_mat i j)).

(** The five environment variables both evaluation methods assign. *)
Definition thread_variables : list string :=
  ["OMP_NUM_THREADS"; "OPENBLAS_NUM_THREADS"; "MKL_NUM_THREADS";
   "VECLIB_MAXIMUM_THREADS"; "NUMEXPR_NUM_THREADS"]%string.

End Further.

(* ================================================================== *)
(** * common.py: random_regular_graph *)
(* ================================================================== *)

Module RandomGraph.
Import Nx MaxCutApp.

(** What the random number generators return, numbered in the order the
    function asks: [uniform k] is the value of the [k]-th call of
    [random.uniform(1, weight_range)] and [coin k] that of the [k]-th call
    of [np.random.random()].  Every iteration of either loop makes one call
    of each. *)
Record Draws : Type := mkDraws {
  uniform : nat -> Q;
  coin : nat -> Q
}.

(** The weight of the [k]-th iteration:
    [w = random.uniform(1, weight_range)], then [w *= -1] when
    [np.random.random() >= 0.5 and negative_weight]. *)
Definition weight_at (rnd : Draws) (negative_weight : bool) (k : nat) : Q :=
  let w := uniform rnd k in
  if Qle_bool (1 # 2) (coin rnd k) && negative_weight then w * (-1) else w.

(** A list with the number of the iteration that visits each element. *)
Definition enumerate {A} (l : list A) : list (nat * A) :=
  combine (seq 0 (length l)) l.

(** [random_regular_graph(node_num, degree, weight_range, negative_weight,
    seed)].  [generated] is what [nx.random_regular_graph(d=degree,
    n=node_num, seed=seed)] returns or raises.  Both loops walk a view of the
    graph they write to; the writes change attributes of nodes and edges that
    are there, and the second one adds a self-loop, which is not a node, so
    the walks are those over the lists at loop entry. *)
Definition random_regular_graph (node_num degree : Z) (weight_range : Q)
           (negative_weight : bool) (generated : result Graph) (rnd : Draws)
  : result Graph :=
  if negb ((node_num * degree) mod 2 =? 0)%Z then Raise AssertionError
  else if negb (Qle_bool 0 weight_range) then Raise AssertionError
  else
    random_g <- generated ;;
    let edge_list := edges random_g in
    let random_g :=
      fold_left (fun g '(k, e) =>
                   let w := weight_at rnd negative_weight k in
                   add_edge g (fst e) (snd e) (Some w))
                (enumerate edge_list) random_g in
    let random_g :=
      fold_left (fun g '(k, e) =>
                   let w := weight_at rnd negative_weight
                                      (length edge_list + k) in
                   add_edge (add_node g e (Some w)) e e (Some w))
                (enumerate (nodes random_g)) random_g in
    Ok random_g.

(** [MaxCut(node_num=node_num, node_degree=node_degree,
    weight_range=weight_range, seed=seed)]: the constructor calls
    [random_regular_graph] without [negative_weight]. *)
Definition init_generated (node_num : nat) (node_degree : Z) (weight_range : Q)
           (generated : result Graph) (rnd : Draws) : result MaxCut :=
  init_random node_num
    (random_regular_graph (Z.of_nat node_num) node_degree weight_range false
                          generated rnd).

(** A graph as networkx keeps it: every listed edge joins two nodes and is
    recorded from both ends. *)
Definition consistent (g : Graph) : Prop :=
  forall u v, In (u, v) (edges g) ->
    has_node g u = true /\ has_node g v = true
    /\ has_edge g u v = true /\ has_edge g v u = true.

End RandomGraph.

(* ================================================================== *)
(** * The arithmetic of the element type *)
(* ================================================================== *)

Module Machine.
Import Np Nx Common MaxCutApp StateEnergy.

(** The scalar operations of the numbers of one run.  They take and return
    the rationals the machine numbers stand for; each returns the number the
    machine keeps, which need not be the exact result. *)
Record arith : Type := mkArith {
  add : Q -> Q -> Q;
  sub : Q -> Q -> Q;
  mul : Q -> Q -> Q;
  neg : Q -> Q
}.

(** Python's [int], and any element type as long as no operation rounds or
    wraps. *)
Definition exact : arith := mkArith Qplus Qminus Qmult Qopp.

(** ** int64 *)

(** The integer in [-2^63, 2^63) congruent to [z] modulo [2^64]. *)
Definition wrap (z : Z) : Z := ((z + 2 ^ 63) mod 2 ^ 64 - 2 ^ 63)%Z.

Definition int_of (q : Q) : Z := (Qnum q / Z.pos (Qden q))%Z.

Definition int64_op (f : Z -> Z -> Z) (x y : Q) : Q :=
  inject_Z (wrap (f (int_of x) (int_of y))).

Definition int64 : arith :=
  mkArith (int64_op Z.add) (int64_op Z.sub) (int64_op Z.mul)
          (fun x => inject_Z (wrap (- int_of x))).

(** [np.sum] of a row of int64: the wrapped total, whatever the order. *)
Definition int64_sum (row : list Q) : Q :=
  inject_Z (wrap (fold_left Z.add (map int_of row) 0%Z)).

(** ** float64 *)

(** [p] as an odd number times a power of two. *)
Fixpoint odd_part (p : positive) : positive * Z :=
  match p with
  | xO p' => let '(m, s) := odd_part p' in (m, (s + 1)%Z)
  | _ => (p, 0%Z)
  end.

(** The float64 nearest to [m * 2^e], ties to even. *)
Definition nearest (m e : Z) : PrimFloat.float :=
  FloatOps.SF2Prim
    (SpecFloat.binary_normalize FloatOps.prec FloatOps.emax m e false).

(** The float64 a number is kept as.  An integer over a power of two goes to
    the nearest float64, which is the number itself when it is a float64.
    Any other number is not a float64; it goes to the quotient of the
    float64 of its numerator and of its denominator, as a decimal literal
    does. *)
Definition to_float (q : Q) : PrimFloat.float :=
  let q := Qred q in
  let '(d, k) := odd_part (Qden q) in
  match d with
  | xH => nearest (Qnum q) (- k)
  | _ => PrimFloat.div (nearest (Qnum q) 0) (nearest (Z.pos (Qden q)) 0)
  end.

(** The number a finite float64 stands for.  Infinities and NaN are not
    numbers of the model; they read as 0. *)
Definition of_float (f : PrimFloat.float) : Q :=
  match FloatOps.Prim2SF f with
  | SpecFloat.S754_finite s m e =>
      let n := if s then Z.neg m else Z.pos m in
      match e with
      | Z.neg k => Qred (n # Pos.pow 2 k)
      | _ => inject_Z (n * 2 ^ e)
      end
  | _ => 0
  end.

Definition float64_op (f : PrimFloat.float -> PrimFloat.float -> PrimFloat.float)
           (x y : Q) : Q :=
  of_float (f (to_float x) (to_float y)).

Definition float64 : arith :=
  mkArith (float64_op PrimFloat.add) (float64_op PrimFloat.sub)
          (float64_op PrimFloat.mul)
          (fun x => of_float (PrimFloat.opp (to_float x))).

(** ** max_cut.py: get_Qmatrix *)

(** [self.get_Qmatrix()] with the subtraction and the negation of the
    element type of the adjacency matrix; [np_sum] is [np.sum] on a row of
    that type. *)
Definition get_Qmatrix (ar : arith) (np_sum : list Q -> Q) (self : MaxCut)
  : result matrix :=
  adj_mat <- adjacency_matrix (_graph self) ;;
  let qubo_mat := adj_mat in
  for_ (range (_node_num self)) (fun i qubo_mat =>
    row <- getitem adj_mat i ;;
    aii <- getitem2 adj_mat i i ;;
    setitem2 qubo_mat i i (neg ar (sub ar (np_sum row) aii)))
    qubo_mat.

(** ** common.py: get_most_small_ising *)

(** The body of the loop over the measured states, with the addition and
    the multiplication of the weights' type. *)
Definition key_energy (ar : arith) (nodew : PyDict.dict nat Q)
           (edw : PyDict.dict (nat * nat) Q) (key : string) : result Q :=
  let tmp_h := 0 in
  let tw := map spin_of_char (list_ascii_of_string key) in
  tmp_h <- for_ (PyDict.keys nodew) (fun nd tmp_h =>
             w <- PyDict.lookup nodew nd ;;
             t <- getitem tw nd ;;
             Ok (add ar tmp_h (mul ar w (inject_Z t)))) tmp_h ;;
  for_ (PyDict.keys edw) (fun ed tmp_h =>
    if (fst ed =? snd ed)%nat then Ok tmp_h
    else
      w <- PyDict.lookup edw ed ;;
      t0 <- getitem tw (fst ed) ;;
      t1 <- getitem tw (snd ed) ;;
      Ok (add ar tmp_h (mul ar (mul ar w (inject_Z t0)) (inject_Z t1))))
    tmp_h.

(** [get_most_small_ising(state_count, ising_g)].  The comparison
    [min_h > tmp_h] is exact. *)
Definition get_most_small_ising {V} (ar : arith)
           (state_count : PyDict.dict string V) (ising_g : Graph)
  : result (list Z) :=
  let nodew := get_node_attributes ising_g in
  let edw := get_edge_attributes ising_g in
  let min_h : Q := 999999 in
  st <- for_ (PyDict.items state_count) (fun kv st =>
          let key := fst kv in
          let '(min_h, res_state) := st in
          tmp_h <- key_energy ar nodew edw key ;;
          if Qgt_bool min_h tmp_h then
            res <- comprehension int_of_char (list_ascii_of_string key) ;;
            Ok (tmp_h, Some res)
          else Ok (min_h, res_state))
        (min_h, None) ;;
  match snd st with
  | Some res_state => Ok res_state
  | None => Raise UnboundLocalError
  end.

(** ** The energy of a state, as the specification words it *)

(** Node weights times spin, in the order of the nodes. *)
Definition node_terms (ar : arith) (g : Graph) (key : string) : list Q :=
  map (fun '(nd, w) => mul ar w (spin key nd)) (get_node_attributes g).

(** Over the edges that are not self-loops, in their order: the weight times
    the spin of one endpoint, times the spin of the other. *)
Definition edge_terms (ar : arith) (g : Graph) (key : string) : list Q :=
  map (fun '(u, v, w) => mul ar (mul ar w (spin key u)) (spin key v))
      (filter (fun '(u, v, _) => negb (u =? v)%nat) (get_edge_attributes g)).

(** The Ising energy of the state [key]: the node terms and then the edge
    terms, added one after the other to 0. *)
Definition state_energy (ar : arith) (g : Graph) (key : string) : Q :=
  fold_left (add ar) (node_terms ar g key ++ edge_terms ar g key) 0.

End Machine.

(* ================================================================== *)
(** * Further concrete inputs *)
(* ================================================================== *)

Module MoreExamples.
Import Np Nx Quimb Common MaxCutApp Backend RandomGraph Examples.

(** Three isolated nodes labelled 5, 7 and 9. *)
Definition labelled : Graph :=
  add_node (add_node (add_node empty_graph 5 None) 7 None) 9 None.

(** The 1-regular graph on two nodes as networkx draws it: one edge, no
    weights. *)
Definition drawn_pair : Graph := add_edge empty_graph 0 1 None.

(** Draws 2, 3, 4, ... for the weights, 3/4 for every coin. *)
Definition fixed_draws : Draws :=
  mkDraws (fun k => inject_Z (Z.of_nat k) + 2) (fun _ => 3 # 4).

(** The keys of [counts] with other values. *)
Definition flags : PyDict.dict string bool :=
  [("00"%string, true); ("01"%string, false); ("11"%string, true)].

(** A measured state of one bit among states of two. *)
Definition short_counts : PyDict.dict string nat :=
  [("01"%string, 1%nat); ("0"%string, 2%nat)].

(** A matrix that is not symmetric: 5 above the diagonal, 7 below. *)
Definition lopsided : matrix := [[0; 5]; [7; 0]].


(** Two rows of one column. *)
Definition tall : matrix := [[1]; [2]].

(** The float64 numbers the literals 0.1 and 0.2 denote. *)
Definition tenth : Q := 3602879701896397 # 36028797018963968.
Definition fifth : Q := 3602879701896397 # 18014398509481984.

(** Two nodes of weights 0.1 and 0.2 joined by an edge of weight 0.1, with
    float64 weights. *)
Definition tied_pair : Graph :=
  add_edge (add_node (add_node empty_graph 0 (Some tenth)) 1 (Some fifth))
           0 1 (Some tenth).

(** The states "10" and "00", whose energies on [tied_pair] are equal
    as real numbers. *)
Definition tied_counts : PyDict.dict string nat :=
  [("10"%string, 1%nat); ("00"%string, 1%nat)].

(** The star with centre 0 and three edges of weight 2^62. *)
Definition star : Graph :=
  add_edge (add_edge (add_edge empty_graph 0 1 (Some 4611686018427387904))
                     0 2 (Some 4611686018427387904))
           0 3 (Some 4611686018427387904).

Definition star_adjacency : matrix :=
  [[0; 4611686018427387904; 4611686018427387904; 4611686018427387904];
   [4611686018427387904; 0; 0; 0];
   [4611686018427387904; 0; 0; 0];
   [4611686018427387904; 0; 0; 0]].

End MoreExamples.
(* ================================================================== *)
(** * Facts about the runtime model *)
(* ================================================================== *)

(** ** Loops that cannot fail are folds *)

Lemma for_fold {A S} (l : list A) (body : A -> S -> result S)
      (step : S -> A -> S) :
  (forall a s, In a l -> body a s = Ok (step s a)) ->
  forall s, for_ l body s = Ok (fold_left step l s).
Proof.
  induction l as [|a l IH]; intros Hb s; simpl.
  - reflexivity.
  - rewrite Hb by (left; reflexivity). simpl.
    apply IH. intros a' s' Hin. apply Hb. right; exact Hin.
Qed.

(** A conditional version: the body is only known to succeed on states that
    satisfy an invariant. *)
Lemma for_fold_inv {A S} (I : S -> Prop) (l : list A)
      (body : A -> S -> result S) (step : S -> A -> S) :
  (forall a s, In a l -> I s -> body a s = Ok (step s a) /\ I (step s a)) ->
  forall s, I s -> for_ l body s = Ok (fold_left step l s) /\ I (fold_left step l s).
Proof.
  induction l as [|a l IH]; intros Hb s Hs; simpl.
  - split; [reflexivity | exact Hs].
  - destruct (Hb a s (or_introl eq_refl) Hs) as [E Hs'].
    rewrite E. simpl. apply IH; [|exact Hs'].
    intros a' s' Hin. apply Hb. right; exact Hin.
Qed.

(** ** Generic facts about folds used as loop invariants *)

Lemma fold_invariant {A S} (I : S -> Prop) (step : S -> A -> S) (l : list A) :
  (forall s a, In a l -> I s -> I (step s a)) ->
  forall s, I s -> I (fold_left step l s).
Proof.
  induction l as [|a l IH]; intros Hstep s Hs; simpl.
  - exact Hs.
  - apply IH.
    + intros s' a' Hin. apply Hstep. right; exact Hin.
    + apply Hstep; [left; reflexivity | exact Hs].
Qed.

(** If some iteration [c] establishes [P] and every iteration keeps it, then
    [P] holds at loop exit.  [I] is an auxiliary invariant. *)
Lemma fold_establish {A S} (I P : S -> Prop) (step : S -> A -> S)
      (c : A) (l : list A) :
  (forall s a, In a l -> I s -> I (step s a)) ->
  (forall s, I s -> P (step s c)) ->
  (forall s a, In a l -> I s -> P s -> P (step s a)) ->
  In c l ->
  forall s, I s -> P (fold_left step l s).
Proof.
  intros HI Hest Hkeep.
  induction l as [|a l IH]; intros Hin s Hs; simpl.
  - destruct Hin.
  - assert (HIl : forall s a0, In a0 l -> I s -> I (step s a0))
      by (intros; apply HI; [right|]; assumption).
    assert (Hkl : forall s a0, In a0 l -> I s -> P s -> P (step s a0))
      by (intros; apply Hkeep; [right| |]; assumption).
    assert (Hsa : I (step s a)) by (apply HI; [left; reflexivity | exact Hs]).
    destruct Hin as [-> | Hin].
    + apply (fold_invariant (fun s => I s /\ P s)).
      * intros s' a' Hin' [Hi Hp]. split; [apply HIl | apply Hkl]; assumption.
      * split; [exact Hsa | apply Hest; exact Hs].
    + apply IH; assumption.
Qed.

Lemma in_cells n i j : In (i, j) (cells n) <-> (i < n /\ j < n)%nat.
Proof.
  unfold cells, range. rewrite in_flat_map. split.
  - intros [i0 [Hi Hj]]. apply in_map_iff in Hj. destruct Hj as [j0 [E Hj]].
    inversion E; subst. apply in_seq in Hi. apply in_seq in Hj. lia.
  - intros [Hi Hj]. exists i. split.
    + apply in_seq. lia.
    + apply in_map_iff. exists j. split; [reflexivity | apply in_seq; lia].
Qed.

Lemma fold_nested_gen {S} (step : S -> nat * nat -> S) (rows cols : list nat)
      (s : S) :
  fold_left (fun s i => fold_left (fun s j => step s (i, j)) cols s) rows s
  = fold_left step (flat_map (fun i => map (pair i) cols) rows) s.
Proof.
  revert s. induction rows as [|i rows IH]; intros s; simpl.
  - reflexivity.
  - rewrite fold_left_app, IH. f_equal.
    clear IH. revert s.
    induction cols as [|j cols IHc]; intros s; simpl; [reflexivity|].
    apply IHc.
Qed.

Lemma fold_nested {S} (step : S -> nat * nat -> S) (n : nat) (s : S) :
  fold_left (fun s i => fold_left (fun s j => step s (i, j)) (range n) s)
            (range n) s
  = fold_left step (cells n) s.
Proof. apply fold_nested_gen. Qed.

Lemma getitem_nth {A} (l : list A) (i : nat) (d : A) :
  (i < length l)%nat -> getitem l i = Ok (nth i l d).
Proof.
  intros Hi. unfold getitem.
  rewrite (nth_error_nth' l d Hi). reflexivity.
Qed.

Lemma setitem_upd {A} (l : list A) (i : nat) (v : A) :
  (i < length l)%nat -> setitem l i v = Ok (upd l i v).
Proof.
  revert i. induction l as [|h t IH]; intros [|i] Hi; simpl in *; try lia.
  - reflexivity.
  - rewrite IH by lia. reflexivity.
Qed.

Lemma length_upd {A} (l : list A) i v : length (upd l i v) = length l.
Proof.
  revert i. induction l as [|h t IH]; intros [|i]; simpl; auto.
Qed.

Lemma nth_upd_same {A} (l : list A) i v d :
  (i < length l)%nat -> nth i (upd l i v) d = v.
Proof.
  revert i. induction l as [|h t IH]; intros [|i] Hi; simpl in *; try lia.
  - reflexivity.
  - apply IH. lia.
Qed.

Lemma nth_upd_other {A} (l : list A) i j v d :
  i <> j -> nth j (upd l i v) d = nth j l d.
Proof.
  revert i j. induction l as [|h t IH]; intros [|i] [|j] Hij; simpl;
    try reflexivity; try congruence.
  apply IH. congruence.
Qed.

Lemma upd_overflow {A} (l : list A) i v :
  (length l <= i)%nat -> upd l i v = l.
Proof.
  revert i. induction l as [|h t IH]; intros [|i] Hi; simpl in *;
    try reflexivity; try lia.
  rewrite IH by lia. reflexivity.
Qed.

(** ** Dictionaries *)

Module PyDictFacts.
Import PyDict.

Section DictFacts.
Context {K V : Type} `{Hashable K}.

Lemma get_set_same (d : dict K V) k v : get (set d k v) k = Some v.
Proof.
  induction d as [|[k' v'] t IH]; simpl.
  - destruct (key_eq_dec k k); congruence.
  - destruct (key_eq_dec k k') as [E|N]; simpl.
    + destruct (key_eq_dec k k'); congruence.
    + destruct (key_eq_dec k k'); congruence.
Qed.

Lemma get_set_other (d : dict K V) k k0 v : k0 <> k -> get (set d k v) k0 = get d k0.
Proof.
  intros Hne. induction d as [|[k' v'] t IH]; simpl.
  - destruct (key_eq_dec k0 k); congruence.
  - destruct (key_eq_dec k k') as [E|N]; simpl.
    + subst. destruct (key_eq_dec k0 k'); congruence.
    + destruct (key_eq_dec k0 k'); congruence.
Qed.

Lemma get_set (d : dict K V) k k0 v :
  get (set d k v) k0 = if key_eq_dec k0 k then Some v else get d k0.
Proof.
  destruct (key_eq_dec k0 k) as [->|N].
  - apply get_set_same.
  - apply get_set_other; assumption.
Qed.

Lemma in_keys_get (d : dict K V) k : In k (keys d) <-> get d k <> None.
Proof.
  induction d as [|[k' v'] t IH]; simpl.
  - split; [intros [] | congruence].
  - destruct (key_eq_dec k k') as [E|N].
    + split; [congruence | intros _; left; congruence].
    + rewrite <- IH. split; [intros [E|Hin]; [congruence|assumption] | auto].
Qed.

Lemma mem_true (d : dict K V) k : mem d k = true <-> In k (keys d).
Proof.
  rewrite in_keys_get. unfold mem. destruct (get d k); split; congruence.
Qed.

Lemma keys_set (d : dict K V) k v :
  keys (set d k v) = if mem d k then keys d else keys d ++ [k].
Proof.
  unfold mem. induction d as [|[k' v'] t IH]; simpl.
  - reflexivity.
  - destruct (key_eq_dec k k') as [E|N]; simpl.
    + reflexivity.
    + rewrite IH. destruct (get t k); reflexivity.
Qed.

Lemma NoDup_keys_set (d : dict K V) k v : NoDup (keys d) -> NoDup (keys (set d k v)).
Proof.
  intros Hnd. rewrite keys_set. destruct (mem d k) eqn:Hm; [assumption|].
  assert (Hk : ~ In k (keys d)).
  { rewrite <- mem_true. congruence. }
  clear Hm. induction (keys d) as [|a l IH]; simpl.
  - constructor; [intros [] | constructor].
  - inversion Hnd; subst. constructor.
    + rewrite in_app_iff. intros [Hin | [E | []]]; [contradiction|].
      apply Hk. left. symmetry. exact E.
    + apply IH; [assumption|]. intros Hin. apply Hk. right. exact Hin.
Qed.

(** A value stored under [k] is one of the items. *)
Lemma get_in_items (d : dict K V) k v : get d k = Some v -> In (k, v) (items d).
Proof.
  induction d as [|[k' v'] t IH]; simpl; [congruence|].
  destruct (key_eq_dec k k') as [E|N].
  - intros E'. left. congruence.
  - intros Hg. right. apply IH. exact Hg.
Qed.
End DictFacts.

End PyDictFacts.

(** ** Arrays *)

Module NpFacts.
Import Np.

Lemma square_row n m i : square n m -> (i < n)%nat -> length (mrow m i) = n.
Proof.
  intros [Hl Hr] Hi. unfold mrow.
  rewrite Forall_forall in Hr. apply Hr. apply nth_In. lia.
Qed.

Lemma squareb_spec n m : squareb n m = true <-> square n m.
Proof.
  unfold squareb, square. rewrite andb_true_iff, Nat.eqb_eq, forallb_forall,
    Forall_forall.
  split; intros [H1 H2]; split; auto; intros r Hr; apply Nat.eqb_eq; auto.
Qed.

Lemma getitem2_mget n m i j :
  square n m -> (i < n)%nat -> (j < n)%nat -> getitem2 m i j = Ok (mget m i j).
Proof.
  intros Hsq Hi Hj. unfold getitem2, mget.
  rewrite (getitem_nth m []) by (destruct Hsq; lia). simpl.
  apply getitem_nth. fold (mrow m i). rewrite (square_row Hsq Hi). exact Hj.
Qed.

Lemma getitem_mrow n m i :
  square n m -> (i < n)%nat -> getitem m i = Ok (mrow m i).
Proof.
  intros [Hl _] Hi. apply getitem_nth. lia.
Qed.

Lemma setitem2_mset n m i j v :
  square n m -> (i < n)%nat -> (j < n)%nat ->
  setitem2 m i j v = Ok (mset m i j v).
Proof.
  intros Hsq Hi Hj. unfold setitem2, mset.
  rewrite (getitem_mrow Hsq Hi). simpl.
  rewrite setitem_upd by (rewrite (square_row Hsq Hi); exact Hj). simpl.
  apply setitem_upd. destruct Hsq; lia.
Qed.

Lemma square_mset n m i j v : square n m -> square n (mset m i j v).
Proof.
  intros [Hl Hr]. unfold mset. split.
  - rewrite length_upd. exact Hl.
  - rewrite Forall_forall in *. intros r Hin.
    apply In_nth with (d := []) in Hin. destruct Hin as [k [Hk Er]].
    rewrite length_upd in Hk. subst r.
    destruct (Nat.eq_dec i k) as [->|Nik].
    + rewrite nth_upd_same by exact Hk. rewrite length_upd.
      apply Hr. apply nth_In. exact Hk.
    + rewrite nth_upd_other by exact Nik. apply Hr. apply nth_In. exact Hk.
Qed.

Lemma mget_mset_same n m i j v :
  square n m -> (i < n)%nat -> (j < n)%nat -> mget (mset m i j v) i j = v.
Proof.
  intros Hsq Hi Hj. unfold mget, mset.
  rewrite nth_upd_same by (destruct Hsq; lia).
  apply nth_upd_same. fold (mrow m i). rewrite (square_row Hsq Hi). exact Hj.
Qed.

Lemma mget_mset_other m i j i' j' v :
  (i, j) <> (i', j') -> mget (mset m i j v) i' j' = mget m i' j'.
Proof.
  intros Hne. unfold mget, mset.
  destruct (Nat.eq_dec i i') as [->|Ni].
  - destruct (Nat.lt_ge_cases i' (length m)) as [Hlt|Hge].
    + rewrite nth_upd_same by exact Hlt.
      apply nth_upd_other. congruence.
    + rewrite upd_overflow by exact Hge. reflexivity.
  - rewrite nth_upd_other by exact Ni. reflexivity.
Qed.

Lemma square_zeros_like n m : square n m -> square n (zeros_like m).
Proof.
  intros [Hl Hr]. unfold zeros_like. split.
  - rewrite length_map. exact Hl.
  - rewrite Forall_forall in *. intros r Hin.
    apply in_map_iff in Hin. destruct Hin as [r0 [<- Hin]].
    rewrite length_map. apply Hr. exact Hin.
Qed.

End NpFacts.

(* ================================================================== *)
(** * common.py: get_ising_matrix *)
(* ================================================================== *)

Module IsingMatrixFacts.
Import Np NpFacts Common Energy LoopBodies.

Lemma get_ising_matrix_fold n (qubo_mat : matrix) :
  square n qubo_mat ->
  get_ising_matrix qubo_mat
  = Ok (fold_left (fun m c => mset m (fst c) (snd c)
                                   (ising_entry qubo_mat (fst c) (snd c)))
                  (cells n) (zeros_like qubo_mat)).
Proof.
  intros Hsq. unfold get_ising_matrix, size0.
  assert (Hn : length qubo_mat = n) by (destruct Hsq; assumption).
  rewrite Hn.
  rewrite <- (fold_nested (fun m c => mset m (fst c) (snd c)
                                       (ising_entry qubo_mat (fst c) (snd c)))).
  simpl fst; simpl snd.
  apply (for_fold_inv (square n)); [|apply square_zeros_like; exact Hsq].
  intros i m Hi Hm. apply in_seq in Hi.
  apply (for_fold_inv (square n)); [|exact Hm].
  intros j m' Hj Hm'. apply in_seq in Hj.
  unfold ising_entry.
  destruct (Nat.eqb_spec i j) as [<-|Nij].
  - rewrite (getitem2_mget Hsq) by lia. simpl.
    rewrite (getitem_mrow Hsq) by lia. simpl.
    rewrite (setitem2_mset _ Hm') by lia.
    split; [reflexivity | apply square_mset; exact Hm'].
  - rewrite (getitem2_mget Hsq) by lia. simpl.
    rewrite (setitem2_mset _ Hm') by lia.
    split; [reflexivity | apply square_mset; exact Hm'].
Qed.

(** On a square matrix [get_ising_matrix] returns, and the entries are the
    ones the loop body writes: [Q[i][i]/2 + sum(Q[i]) - Q[i][i]] on the
    diagonal and [Q[i][j]/4] off it. *)
Lemma get_ising_matrix_entries n (qubo_mat : matrix) :
  square n qubo_mat ->
  exists ising_mat,
    get_ising_matrix qubo_mat = Ok ising_mat
    /\ square n ising_mat
    /\ forall i j, (i < n)%nat -> (j < n)%nat ->
         mget ising_mat i j = ising_entry qubo_mat i j.
Proof.
  intros Hsq. eexists. split; [apply (get_ising_matrix_fold Hsq)|].
  split.
  - apply (fold_invariant (square n)).
    + intros m c _ Hm. apply square_mset. exact Hm.
    + apply square_zeros_like. exact Hsq.
  - intros i j Hi Hj.
    apply (fold_establish (square n)
             (fun m => mget m i j = ising_entry qubo_mat i j)
             (fun m c => mset m (fst c) (snd c)
                              (ising_entry qubo_mat (fst c) (snd c)))
             (i, j)).
    + intros m c _ Hm. apply square_mset. exact Hm.
    + intros m Hm. simpl. apply (mget_mset_same _ Hm Hi Hj).
    + intros m [i' j'] Hin Hm HP. simpl.
      apply in_cells in Hin.
      destruct (Nat.eq_dec i' i) as [->|Ni].
      * destruct (Nat.eq_dec j' j) as [->|Nj].
        -- apply (mget_mset_same _ Hm Hi Hj).
        -- rewrite mget_mset_other by congruence. exact HP.
      * rewrite mget_mset_other by congruence. exact HP.
    + apply in_cells. split; assumption.
    + apply square_zeros_like. exact Hsq.
Qed.

(** C1 (the code departs from the claim).  On the symmetric matrix
    [[0, 1], [1, 0]] the function returns the matrix with 1 on the diagonal
    and 1/4 off it, and for that matrix the difference between the Ising
    energy and the QUBO energy is -3/2 at x = (0, 0) and 1/2 at x = (1, 1):
    no constant offset relates the two energies.  Counting each coupling
    once instead of twice does not help. *)
Theorem get_ising_matrix_offset_depends_on_x :
  let qubo_mat := [[0; 1]; [1; 0]] in
  symmetric qubo_mat
  /\ exists ising_mat,
       get_ising_matrix qubo_mat = Ok ising_mat
       /\ Forall2 (Forall2 Qeq) ising_mat [[1; 1 # 4]; [1 # 4; 1]]
       /\ ising_energy ising_mat (spins [0; 0]) - qubo_energy qubo_mat [0; 0]
          == - (3 # 2)
       /\ ising_energy ising_mat (spins [1; 1]) - qubo_energy qubo_mat [1; 1]
          == 1 # 2
       /\ ~ (exists c, forall x, length x = 2%nat -> binary x ->
               ising_energy ising_mat (spins x) - qubo_energy qubo_mat x == c)
       /\ ~ (exists c, forall x, length x = 2%nat -> binary x ->
               ising_energy_edges ising_mat (spins x) - qubo_energy qubo_mat x
               == c).
Proof.
  intros qubo_mat. split.
  - intros i j. unfold qubo_mat, mget.
    destruct i as [|[|[|i]]]; destruct j as [|[|[|j]]]; simpl;
      try reflexivity; destruct j; reflexivity.
  - assert (B0 : binary [0; 0]) by (repeat constructor; left; reflexivity).
    assert (B1 : binary [1; 1]) by (repeat constructor; right; reflexivity).
    eexists. split; [vm_compute; reflexivity|].
    split; [repeat constructor|].
    split; [vm_compute; reflexivity|].
    split; [vm_compute; reflexivity|].
    split; intros [c Hc];
      assert (H0 := Hc [0; 0] eq_refl B0);
      assert (H1 := Hc [1; 1] eq_refl B1);
      rewrite <- H1 in H0; vm_compute in H0; discriminate H0.
Qed.

End IsingMatrixFacts.

(* ================================================================== *)
(** * max_cut.py: get_Qmatrix *)
(* ================================================================== *)

Module QmatrixFacts.
Import Np NpFacts Nx MaxCutApp LoopBodies.

Lemma adjacency_matrix_square g A :
  adjacency_matrix g = Ok A -> square (length (nodes g)) A.
Proof.
  intros H.
  assert (HA : A = map (fun u => map (fun v => adjacency_entry g u v) (nodes g))
                       (nodes g)).
  { unfold adjacency_matrix in H. destruct (nodes g) as [|u l]; [discriminate|].
    injection H as <-. reflexivity. }
  subst A. split.
  - rewrite length_map. reflexivity.
  - rewrite Forall_forall. intros r Hin. apply in_map_iff in Hin.
    destruct Hin as [v [<- _]]. rewrite length_map. reflexivity.
Qed.


End QmatrixFacts.

(* ================================================================== *)
(** * get_Qmatrix in the arithmetic of the element type *)
(* ================================================================== *)

Module MachineQmatrix.
Import Np NpFacts Nx MaxCutApp QmatrixFacts.

(** With exact operations and the exact row sum, the machine reading is
    [MaxCutApp.get_Qmatrix]. *)
Lemma get_Qmatrix_exact (self : MaxCut) :
  Machine.get_Qmatrix Machine.exact Np.sum self = get_Qmatrix self.
Proof. reflexivity. Qed.

Section Arith.
Variable ar : Machine.arith.
Variable np_sum : list Q -> Q.

(** The diagonal entry the loop writes in row [i]. *)
Let diag (A : matrix) (i : nat) : Q :=
  Machine.neg ar (Machine.sub ar (np_sum (mrow A i)) (mget A i i)).

Lemma machine_get_Qmatrix_fold self A :
  _node_num self = length (nodes (_graph self)) ->
  adjacency_matrix (_graph self) = Ok A ->
  Machine.get_Qmatrix ar np_sum self
  = Ok (fold_left (fun m i => mset m i i (diag A i))
                  (range (_node_num self)) A).
Proof.
  intros Hn HA. unfold Machine.get_Qmatrix. rewrite HA. simpl.
  pose proof (adjacency_matrix_square _ HA) as Hsq. rewrite <- Hn in Hsq.
  apply (for_fold_inv (square (_node_num self))); [|exact Hsq].
  intros i m Hi Hm. apply in_seq in Hi.
  rewrite (getitem_mrow Hsq) by lia. simpl.
  rewrite (getitem2_mget Hsq) by lia. simpl.
  rewrite (setitem2_mset _ Hm) by lia.
  split; [reflexivity | apply square_mset; exact Hm].
Qed.

End Arith.

(** C6.  When [_node_num] is the number of nodes of the graph and [A] is the
    graph's adjacency matrix, [get_Qmatrix] returns a matrix of the same
    size that agrees with [A] off the diagonal and has
    [-(sum of row i of A - A[i][i])] at [(i, i)], the sum, the subtraction
    and the negation being those of the element type of [A], whichever it
    is. *)
Theorem get_Qmatrix_spec (ar : Machine.arith) (np_sum : list Q -> Q)
        (self : MaxCut) (A : matrix) :
  _node_num self = length (nodes (_graph self)) ->
  adjacency_matrix (_graph self) = Ok A ->
  exists qubo_mat,
    Machine.get_Qmatrix ar np_sum self = Ok qubo_mat
    /\ square (_node_num self) qubo_mat
    /\ (forall i j, i <> j -> mget qubo_mat i j = mget A i j)
    /\ (forall i, (i < _node_num self)%nat ->
          mget qubo_mat i i
          = Machine.neg ar (Machine.sub ar (np_sum (mrow A i)) (mget A i i))).
Proof.
  intros Hn HA. eexists.
  split; [apply (machine_get_Qmatrix_fold ar np_sum _ Hn HA)|].
  pose proof (adjacency_matrix_square _ HA) as Hsq. rewrite <- Hn in Hsq.
  set (n := _node_num self) in *.
  split; [|split].
  - apply (fold_invariant (square n)); [|exact Hsq].
    intros m i _ Hm. apply square_mset. exact Hm.
  - intros i j Hij.
    apply (fold_invariant (fun m => mget m i j = mget A i j));
      [|reflexivity].
    intros m k _ Hm. rewrite mget_mset_other by congruence. exact Hm.
  - intros i Hi.
    apply (fold_establish (square n)
             (fun m => mget m i i
                       = Machine.neg ar
                           (Machine.sub ar (np_sum (mrow A i)) (mget A i i)))
             (fun m k => mset m k k
                           (Machine.neg ar
                              (Machine.sub ar (np_sum (mrow A k)) (mget A k k))))
             i).
    + intros m k _ Hm. apply square_mset. exact Hm.
    + intros m Hm. apply (mget_mset_same _ Hm Hi Hi).
    + intros m k Hk Hm HP. apply in_seq in Hk.
      destruct (Nat.eq_dec k i) as [->|Nk].
      * apply (mget_mset_same _ Hm Hi Hi).
      * rewrite mget_mset_other by congruence. exact HP.
    + apply in_seq. lia.
    + exact Hsq.
Qed.

End MachineQmatrix.

(* ================================================================== *)
(** * Finite sums *)
(* ================================================================== *)

Module SumFacts.
Import Np NpFacts Energy.

Lemma sum_upto_ext n f g :
  (forall i, (i < n)%nat -> f i == g i) -> sum_upto n f == sum_upto n g.
Proof.
  induction n as [|n IH]; intros H; simpl.
  - reflexivity.
  - rewrite IH by (intros; apply H; lia). rewrite (H n) by lia. reflexivity.
Qed.

Lemma sum_upto_plus n f g :
  sum_upto n (fun i => f i + g i) == sum_upto n f + sum_upto n g.
Proof.
  induction n as [|n IH]; simpl.
  - reflexivity.
  - rewrite IH. ring.
Qed.

Lemma sum_upto_zero n f :
  (forall i, (i < n)%nat -> f i == 0) -> sum_upto n f == 0.
Proof.
  induction n as [|n IH]; intros H; simpl.
  - reflexivity.
  - rewrite IH by (intros; apply H; lia). rewrite (H n) by lia. ring.
Qed.

Lemma sum_upto_shift n f :
  sum_upto (S n) f == f O + sum_upto n (fun i => f (S i)).
Proof.
  induction n as [|n IH].
  - simpl. ring.
  - change (sum_upto (S (S n)) f) with (sum_upto (S n) f + f (S n)).
    rewrite IH. simpl. ring.
Qed.

Lemma fold_left_Qplus l a :
  fold_left Qplus l a == a + sum_upto (length l) (fun i => nth i l 0).
Proof.
  revert a. induction l as [|h t IH]; intros a.
  - simpl. ring.
  - change (fold_left Qplus (h :: t) a) with (fold_left Qplus t (a + h)).
    rewrite IH. change (length (h :: t)) with (S (length t)).
    rewrite sum_upto_shift. simpl. ring.
Qed.

(** [np.sum] of a vector is the sum of its entries. *)
Lemma np_sum_upto v : Np.sum v == sum_upto (length v) (at_ v).
Proof.
  unfold Np.sum. rewrite fold_left_Qplus. unfold at_. ring.
Qed.



(** The sum over all ordered pairs splits into the pairs [i < j], their
    mirror images and the diagonal. *)
Lemma sum_square_triangle n (f : nat -> nat -> Q) :
  sum_upto n (fun i => sum_upto n (fun j => f i j))
  == sum_pairs n (fun i j => f i j + f j i) + sum_upto n (fun i => f i i).
Proof.
  induction n as [|n IH].
  - simpl. ring.
  - change (sum_upto (S n) (fun i => sum_upto (S n) (fun j => f i j)))
      with (sum_upto n (fun i => sum_upto n (fun j => f i j) + f i n)
            + (sum_upto n (fun j => f n j) + f n n)).
    rewrite sum_upto_plus, IH.
    change (sum_pairs (S n) (fun i j => f i j + f j i))
      with (sum_pairs n (fun i j => f i j + f j i)
            + sum_upto n (fun i => f i n + f n i)).
    rewrite sum_upto_plus. simpl.
    change (sum_upto n (f n)) with (sum_upto n (fun j => f n j)). ring.
Qed.

Lemma sum_pairs_ext n f g :
  (forall i j, (i < j)%nat -> (j < n)%nat -> f i j == g i j) ->
  sum_pairs n f == sum_pairs n g.
Proof.
  induction n as [|n IH]; intros H; simpl.
  - reflexivity.
  - rewrite IH by (intros; apply H; lia).
    rewrite (@sum_upto_ext n (fun i => f i n) (fun i => g i n))
      by (intros; apply H; lia).
    reflexivity.
Qed.

End SumFacts.

(* ================================================================== *)
(** * max_cut.py: max_cut_value *)
(* ================================================================== *)

Module CutFacts.
Import Np NpFacts Energy SumFacts Cut MaxCutApp.

Lemma nth_map_in {A B} (f : A -> B) (l : list A) i dA dB :
  (i < length l)%nat -> nth i (map f l) dB = f (nth i l dA).
Proof.
  intros Hi. rewrite (nth_indep _ dB (f dA)) by (rewrite length_map; exact Hi).
  apply map_nth.
Qed.







Lemma binary_at x i : binary x -> at_ x i = 0 \/ at_ x i = 1.
Proof.
  intros Hb. unfold at_.
  destruct (Nat.lt_ge_cases i (length x)) as [Hi|Hi].
  - unfold binary in Hb. rewrite Forall_forall in Hb. apply Hb.
    apply nth_In. exact Hi.
  - left. apply nth_overflow. exact Hi.
Qed.


End CutFacts.

(* ================================================================== *)
(** * common.py: how far get_ising_matrix is from the QUBO energy *)
(* ================================================================== *)

Module IsingOffsetFacts.
Import Np NpFacts Common Energy SumFacts LoopBodies IsingMatrixFacts.

Lemma sum_upto_scal n c f :
  sum_upto n (fun i => c * f i) == c * sum_upto n f.
Proof.
  induction n as [|n IH]; simpl.
  - ring.
  - rewrite IH. ring.
Qed.

Lemma sum_upto_delta n i (c : Q) :
  (i < n)%nat -> sum_upto n (fun j => if (i =? j)%nat then c else 0) == c.
Proof.
  induction n as [|n IH]; intros Hi; [lia|]. simpl.
  destruct (Nat.eqb_spec i n) as [->|Nin].
  - rewrite (@sum_upto_zero n).
    + ring.
    + intros j Hj. destruct (Nat.eqb_spec n j); [lia | reflexivity].
  - rewrite IH by lia. ring.
Qed.

Lemma sum_upto_swap n (f : nat -> nat -> Q) :
  sum_upto n (fun i => sum_upto n (fun j => f i j))
  == sum_upto n (fun j => sum_upto n (fun i => f i j)).
Proof.
  rewrite !sum_square_triangle.
  rewrite (@sum_pairs_ext n (fun i j => f i j + f j i) (fun i j => f j i + f i j)).
  - reflexivity.
  - intros i j _ _. ring.
Qed.

Lemma sum_upto_double_ext n (f g : nat -> nat -> Q) :
  (forall i j, (i < n)%nat -> (j < n)%nat -> f i j == g i j) ->
  sum_upto n (fun i => sum_upto n (fun j => f i j))
  == sum_upto n (fun i => sum_upto n (fun j => g i j)).
Proof.
  intros H. apply sum_upto_ext. intros i Hi.
  apply sum_upto_ext. intros j Hj. apply H; assumption.
Qed.

Lemma sum_upto_double_plus n (f g : nat -> nat -> Q) :
  sum_upto n (fun i => sum_upto n (fun j => f i j + g i j))
  == sum_upto n (fun i => sum_upto n (fun j => f i j))
     + sum_upto n (fun i => sum_upto n (fun j => g i j)).
Proof.
  rewrite <- sum_upto_plus. apply sum_upto_ext. intros i _.
  apply sum_upto_plus.
Qed.

Lemma at_spins x i :
  (i < length x)%nat -> at_ (spins x) i = 2 * at_ x i - 1.
Proof.
  intros Hi. unfold at_, spins.
  apply (CutFacts.nth_map_in (fun xi => 2 * xi - 1) x 0 0 Hi).
Qed.

(** For every symmetric square [Q] and every 0/1 vector [x], the Ising
    energy of the matrix the function returns, minus the QUBO energy, is a
    constant of [Q] plus half of each row's off-diagonal sum times the spin:
    the difference is independent of [x] only when those sums vanish. *)
Lemma get_ising_matrix_offset n (qubo_mat ising_mat : matrix) (x : list Q) :
  square n qubo_mat ->
  symmetric qubo_mat ->
  length x = n ->
  binary x ->
  get_ising_matrix qubo_mat = Ok ising_mat ->
  ising_energy ising_mat (spins x) - qubo_energy qubo_mat x
  == - (sum_upto n (fun i => mget qubo_mat i i / 2)
        + sum_upto n (fun i => off_diagonal_sum n qubo_mat i / 4))
     + sum_upto n (fun i => (1 # 2) * off_diagonal_sum n qubo_mat i
                            * at_ (spins x) i).
Proof.
  intros Hsq Hsym Hlen Hbin Hget.
  destruct (get_ising_matrix_entries Hsq) as (M & HM & _ & Hent).
  rewrite HM in Hget. injection Hget as <-.
  unfold ising_energy, qubo_energy.
  assert (Hls : length (spins x) = n) by (unfold spins; rewrite length_map; exact Hlen).
  rewrite Hls, Hlen.
  pose (q := fun i j => mget qubo_mat i j).
  pose (d := fun i j => if (i =? j)%nat then 0 else q i j).
  pose (s := fun i => at_ (spins x) i).
  (* the three parts as double sums *)
  assert (Hrow : forall i, (i < n)%nat ->
            Np.sum (mrow qubo_mat i) == q i i + sum_upto n (d i)).
  { intros i Hi. rewrite np_sum_upto, (square_row Hsq Hi).
    rewrite <- (sum_upto_delta (q i i) Hi), <- sum_upto_plus.
    apply sum_upto_ext. intros j Hj. unfold d, at_, mrow, q, mget.
    destruct (Nat.eqb_spec i j) as [->|Nij]; ring. }
  assert (Hfield :
            sum_upto n (fun i => mget M i i * at_ (spins x) i)
            == sum_upto n (fun i => sum_upto n (fun j =>
                 (if (i =? j)%nat then q i i / 2 * s i else 0) + d i j * s i))).
  { apply sum_upto_ext. intros i Hi.
    rewrite sum_upto_plus, (sum_upto_delta _ Hi).
    rewrite (@sum_upto_ext n (fun j => d i j * s i) (fun j => s i * d i j))
      by (intros; ring).
    rewrite sum_upto_scal.
    rewrite (Hent i i Hi Hi). unfold ising_entry. rewrite Nat.eqb_refl.
    rewrite (Hrow i Hi). fold (q i i). fold (s i).
    change (sum_upto n (fun j => d i j)) with (sum_upto n (d i)). field. }
  assert (Hcoup :
            sum_upto n (fun i => sum_upto n (fun j =>
              if (i =? j)%nat then 0
              else mget M i j * at_ (spins x) i * at_ (spins x) j))
            == sum_upto n (fun i => sum_upto n (fun j =>
                 d i j / 4 * s i * s j))).
  { apply sum_upto_double_ext. intros i j Hi Hj. unfold d, s.
    destruct (Nat.eqb_spec i j) as [->|Nij]; [field|].
    rewrite (Hent i j Hi Hj). unfold ising_entry.
    apply Nat.eqb_neq in Nij. rewrite Nij. fold (q i j). field. }
  assert (Hqubo :
            sum_upto n (fun i => sum_upto n (fun j =>
              at_ x i * mget qubo_mat i j * at_ x j))
            == sum_upto n (fun i => sum_upto n (fun j =>
                 (if (i =? j)%nat then q i i / 2 * (1 + s i) else 0)
                 + d i j / 4 * (1 + s i + s j + s i * s j)))).
  { apply sum_upto_double_ext. intros i j Hi Hj. unfold d, s.
    rewrite !at_spins by lia. fold (q i j).
    destruct (Nat.eqb_spec i j) as [->|Nij].
    - destruct (CutFacts.binary_at j Hbin) as [-> | ->]; field.
    - destruct (CutFacts.binary_at i Hbin) as [-> | ->];
        destruct (CutFacts.binary_at j Hbin) as [-> | ->]; field. }
  assert (Hconst :
            sum_upto n (fun i => mget qubo_mat i i / 2)
            + sum_upto n (fun i => off_diagonal_sum n qubo_mat i / 4)
            == sum_upto n (fun i => sum_upto n (fun j =>
                 (if (i =? j)%nat then q i i / 2 else 0) + d i j / 4))).
  { rewrite <- sum_upto_plus. apply sum_upto_ext. intros i Hi.
    rewrite sum_upto_plus, (sum_upto_delta _ Hi).
    rewrite (@sum_upto_ext n (fun j => d i j / 4) (fun j => (1 # 4) * d i j))
      by (intros; field).
    rewrite sum_upto_scal. unfold off_diagonal_sum. fold (q i i).
    change (sum_upto n (fun j => if (i =? j)%nat then 0 else mget qubo_mat i j))
      with (sum_upto n (d i)). field. }
  assert (Hlin :
            sum_upto n (fun i => (1 # 2) * off_diagonal_sum n qubo_mat i
                                 * at_ (spins x) i)
            == sum_upto n (fun i => sum_upto n (fun j =>
                 (1 # 2) * d i j * s i))).
  { apply sum_upto_ext. intros i Hi.
    rewrite (@sum_upto_ext n (fun j => (1 # 2) * d i j * s i)
               (fun j => ((1 # 2) * s i) * d i j)) by (intros; ring).
    rewrite sum_upto_scal. unfold off_diagonal_sum. fold (s i).
    change (sum_upto n (fun j => if (i =? j)%nat then 0 else mget qubo_mat i j))
      with (sum_upto n (d i)). ring. }
  (* the one place where symmetry is used *)
  assert (Hswap :
            sum_upto n (fun i => sum_upto n (fun j => d i j / 4 * s j))
            == sum_upto n (fun i => sum_upto n (fun j => d i j / 4 * s i))).
  { rewrite sum_upto_swap. apply sum_upto_double_ext. intros i j _ _.
    unfold d, q.
    destruct (Nat.eqb_spec i j) as [Eij|Nij];
      destruct (Nat.eqb_spec j i) as [Eji|Nji];
      try reflexivity; try congruence.
    rewrite (Hsym j i). reflexivity. }
  rewrite Hfield, Hcoup, Hqubo, Hconst, Hlin.
  (* term by term *)
  assert (Hterm :
            sum_upto n (fun i => sum_upto n (fun j =>
              ((if (i =? j)%nat then q i i / 2 * s i else 0) + d i j * s i)
              + d i j / 4 * s i * s j
              + ((if (i =? j)%nat then q i i / 2 else 0) + d i j / 4)
              + d i j / 4 * s j))
            == sum_upto n (fun i => sum_upto n (fun j =>
              ((if (i =? j)%nat then q i i / 2 * (1 + s i) else 0)
               + d i j / 4 * (1 + s i + s j + s i * s j))
              + (1 # 2) * d i j * s i
              + d i j / 4 * s i))).
  { apply sum_upto_double_ext. intros i j _ _.
    destruct (i =? j)%nat; field. }
  rewrite !sum_upto_double_plus in Hterm. rewrite Hswap in Hterm.
  rewrite !sum_upto_double_plus. lra.
Qed.

End IsingOffsetFacts.

(* ================================================================== *)
(** * networkx graphs: what add_node and add_edge change *)
(* ================================================================== *)

Module NxFacts.
Import PyDictFacts Nx LoopBodies.

(** Node labels are compared as natural numbers. *)
Ltac nat_keys := change (@key_eq_dec nat nat_hashable) with Nat.eq_dec.

Lemma wf_empty : wf empty_graph.
Proof. intros n _. reflexivity. Qed.

Lemma has_node_in g n : has_node g n = true <-> In n (nodes g).
Proof. apply mem_true. Qed.

Lemma touch_node g u k :
  PyDict.get (_node (touch g u)) k
  = match PyDict.get (_node g) k with
    | Some a => Some a
    | None => if Nat.eq_dec k u then Some None else None
    end.
Proof.
  unfold touch, PyDict.mem.
  destruct (PyDict.get (_node g) u) as [a|] eqn:Eu.
  - destruct (PyDict.get (_node g) k) as [b|] eqn:Ek; [reflexivity|].
    destruct (Nat.eq_dec k u) as [->|]; [congruence | reflexivity].
  - simpl. rewrite get_set. nat_keys.
    destruct (Nat.eq_dec k u) as [E|N].
    + subst k. rewrite Eu. reflexivity.
    + destruct (PyDict.get (_node g) k); reflexivity.
Qed.

Lemma touch_nbrs g u x : wf g -> nbrs (touch g u) x = nbrs g x.
Proof.
  intros Hwf. unfold touch, PyDict.mem.
  destruct (PyDict.get (_node g) u) as [a|] eqn:Eu; [reflexivity|].
  unfold nbrs. simpl. rewrite get_set. nat_keys.
  destruct (Nat.eq_dec x u) as [->|N]; [|reflexivity].
  rewrite (Hwf u Eu). reflexivity.
Qed.

Lemma wf_touch g u : wf g -> wf (touch g u).
Proof.
  intros Hwf n. rewrite touch_node.
  destruct (PyDict.get (_node g) n) as [a|] eqn:En; [discriminate|].
  destruct (Nat.eq_dec n u) as [->|N]; [discriminate|]. intros _.
  unfold touch, PyDict.mem.
  destruct (PyDict.get (_node g) u); simpl.
  - apply Hwf. exact En.
  - rewrite get_set_other by exact N. apply Hwf. exact En.
Qed.

(** *** add_node *)

Lemma add_node_node g n a k :
  PyDict.get (_node (add_node g n a)) k
  = if Nat.eq_dec k n
    then Some (update (node_weight g n) a)
    else PyDict.get (_node g) k.
Proof.
  unfold add_node, node_weight.
  destruct (PyDict.get (_node g) n) as [old|] eqn:En; simpl;
    rewrite get_set; nat_keys;
    destruct (Nat.eq_dec k n); reflexivity.
Qed.

Lemma add_node_nbrs g n a x : wf g -> nbrs (add_node g n a) x = nbrs g x.
Proof.
  intros Hwf. unfold add_node.
  destruct (PyDict.get (_node g) n) as [old|] eqn:En; [reflexivity|].
  unfold nbrs. simpl. rewrite get_set. nat_keys.
  destruct (Nat.eq_dec x n) as [->|N]; [|reflexivity].
  rewrite (Hwf n En). reflexivity.
Qed.

Lemma wf_add_node g n a : wf g -> wf (add_node g n a).
Proof.
  intros Hwf k. rewrite add_node_node.
  destruct (Nat.eq_dec k n) as [->|N]; [discriminate|]. intros Hk.
  unfold add_node. destruct (PyDict.get (_node g) n); simpl.
  - apply Hwf. exact Hk.
  - rewrite get_set_other by exact N. apply Hwf. exact Hk.
Qed.

Lemma add_node_edge_data g n a x y :
  wf g -> get_edge_data (add_node g n a) x y = get_edge_data g x y.
Proof.
  intros Hwf. unfold get_edge_data. rewrite add_node_nbrs by exact Hwf.
  reflexivity.
Qed.

Lemma add_node_has_node g n a k :
  has_node (add_node g n a) k = has_node g k || (k =? n)%nat.
Proof.
  unfold has_node, PyDict.mem. rewrite add_node_node.
  destruct (Nat.eq_dec k n) as [->|N].
  - rewrite Nat.eqb_refl, orb_true_r. reflexivity.
  - apply Nat.eqb_neq in N. rewrite N, orb_false_r. reflexivity.
Qed.

Lemma add_node_weight_same g n w : node_weight (add_node g n (Some w)) n = Some w.
Proof.
  unfold node_weight at 1. rewrite add_node_node.
  destruct (Nat.eq_dec n n); [reflexivity | congruence].
Qed.

Lemma add_node_weight_other g n a k :
  k <> n -> node_weight (add_node g n a) k = node_weight g k.
Proof.
  intros N. unfold node_weight. rewrite add_node_node.
  destruct (Nat.eq_dec k n); [congruence | reflexivity].
Qed.

(** *** add_edge *)

Lemma add_edge_node g u v a k :
  PyDict.get (_node (add_edge g u v a)) k
  = PyDict.get (_node (touch (touch g u) v)) k.
Proof. reflexivity. Qed.

Lemma add_edge_has_node g u v a k :
  has_node (add_edge g u v a) k
  = has_node g k || (k =? u)%nat || (k =? v)%nat.
Proof.
  unfold has_node, PyDict.mem. rewrite add_edge_node, !touch_node.
  destruct (PyDict.get (_node g) k); [reflexivity|]. simpl.
  destruct (Nat.eq_dec k u) as [->|Nu].
  - rewrite Nat.eqb_refl. reflexivity.
  - apply Nat.eqb_neq in Nu. rewrite Nu. simpl.
    destruct (Nat.eq_dec k v) as [->|Nv].
    + rewrite Nat.eqb_refl. reflexivity.
    + apply Nat.eqb_neq in Nv. rewrite Nv. reflexivity.
Qed.

Lemma add_edge_weight g u v a k :
  node_weight (add_edge g u v a) k = node_weight g k.
Proof.
  unfold node_weight. rewrite add_edge_node, !touch_node.
  destruct (PyDict.get (_node g) k); [reflexivity|].
  destruct (Nat.eq_dec k u); [reflexivity|].
  destruct (Nat.eq_dec k v); reflexivity.
Qed.

Lemma add_edge_nbrs g u v a x :
  wf g ->
  nbrs (add_edge g u v a) x
  = let dd := update (match get_edge_data g u v with
                      | Some old => old | None => None end) a in
    if Nat.eq_dec x v
    then PyDict.set (if Nat.eq_dec v u
                     then PyDict.set (nbrs g u) v dd
                     else nbrs g v) u dd
    else if Nat.eq_dec x u then PyDict.set (nbrs g u) v dd
    else nbrs g x.
Proof.
  intros Hwf. unfold add_edge, get_edge_data.
  set (g' := touch (touch g u) v).
  assert (Hn : forall y, nbrs g' y = nbrs g y).
  { intros y. unfold g'. rewrite touch_nbrs by (apply wf_touch; exact Hwf).
    apply touch_nbrs. exact Hwf. }
  rewrite Hn.
  set (dd := update _ a). cbv zeta.
  unfold nbrs at 1. simpl. rewrite get_set. nat_keys.
  destruct (Nat.eq_dec x v) as [->|Nxv].
  - f_equal. unfold nbrs at 1. simpl. rewrite get_set.
    nat_keys.
    destruct (Nat.eq_dec v u) as [->|Nvu]; [reflexivity|].
    fold (nbrs g' v). apply Hn.
  - rewrite get_set. nat_keys.
    destruct (Nat.eq_dec x u) as [->|Nxu]; [reflexivity|].
    fold (nbrs g' x). apply Hn.
Qed.

Lemma add_edge_data_hit g u v w :
  wf g ->
  get_edge_data (add_edge g u v (Some w)) u v = Some (Some w)
  /\ get_edge_data (add_edge g u v (Some w)) v u = Some (Some w).
Proof.
  intros Hwf. unfold get_edge_data. rewrite !add_edge_nbrs by exact Hwf.
  cbv zeta. simpl update.
  destruct (Nat.eq_dec v v) as [_|]; [|congruence].
  destruct (Nat.eq_dec u u) as [_|]; [|congruence].
  destruct (Nat.eq_dec u v) as [->|Nuv].
  - destruct (Nat.eq_dec v v) as [_|]; [|congruence].
    split; apply get_set_same.
  - destruct (Nat.eq_dec v u) as [E|_]; [congruence|].
    split; apply get_set_same.
Qed.

Lemma add_edge_data_miss g u v a x y :
  wf g ->
  ~ (x = u /\ y = v) -> ~ (x = v /\ y = u) ->
  get_edge_data (add_edge g u v a) x y = get_edge_data g x y.
Proof.
  intros Hwf N1 N2. unfold get_edge_data at 1. rewrite add_edge_nbrs by exact Hwf.
  cbv zeta.
  destruct (Nat.eq_dec x v) as [->|Nxv].
  - assert (Nyu : y <> u) by (intros ->; apply N2; split; reflexivity).
    rewrite get_set_other by exact Nyu.
    destruct (Nat.eq_dec v u) as [->|Nvu].
    + rewrite get_set_other by exact Nyu. reflexivity.
    + reflexivity.
  - destruct (Nat.eq_dec x u) as [->|Nxu]; [|reflexivity].
    assert (Nyv : y <> v) by (intros ->; apply N1; split; reflexivity).
    rewrite get_set_other by exact Nyv. reflexivity.
Qed.

Lemma wf_add_edge g u v a : wf g -> wf (add_edge g u v a).
Proof.
  intros Hwf k. rewrite add_edge_node. intros Hk.
  pose proof (wf_touch v (wf_touch u Hwf)) as Hwf'.
  specialize (Hwf' k Hk).
  assert (Nku : k <> u).
  { intros ->. rewrite !touch_node in Hk.
    destruct (PyDict.get (_node g) u); [discriminate|].
    destruct (Nat.eq_dec u u); [discriminate | congruence]. }
  assert (Nkv : k <> v).
  { intros ->. rewrite touch_node in Hk.
    destruct (PyDict.get (_node (touch g u)) v); [discriminate|].
    destruct (Nat.eq_dec v v); [discriminate | congruence]. }
  unfold add_edge. simpl.
  rewrite get_set_other by exact Nkv. rewrite get_set_other by exact Nku.
  exact Hwf'.
Qed.

End NxFacts.

(* ================================================================== *)
(** * common.py: get_weights_graph *)
(* ================================================================== *)

Module WeightsGraphFacts.
Import PyDictFacts Np NpFacts Nx NxFacts Common Energy LoopBodies.

(** The identity node map built when no graph is passed. *)
Lemma identity_node_map cnt i :
  (i < cnt)%nat ->
  node_map_get (fold_left (fun nm k => PyDict.set nm k k) (range cnt) PyDict.empty) i
  = i.
Proof.
  intros Hi. unfold node_map_get.
  assert (E : PyDict.get (fold_left (fun nm k => PyDict.set nm k k) (range cnt)
                                    PyDict.empty) i = Some i).
  { apply (fold_establish (fun _ => True)
             (fun nm => PyDict.get nm i = Some i)
             (fun nm k => PyDict.set nm k k) i); auto.
    - intros nm _. apply get_set_same.
    - intros nm k _ _ HP. rewrite get_set. destruct (key_eq_dec i k); congruence.
    - apply in_seq. lia. }
  rewrite E. reflexivity.
Qed.

Lemma threshold_test m : Qle_bool (Qabs (m - 0)) eps = false <-> makes_edge m.
Proof.
  unfold makes_edge.
  assert (E : Qabs (m - 0) == Qabs m) by (apply Qabs_wd; ring).
  split.
  - intros Hf. apply Qnot_le_lt. intros Hle. rewrite <- E in Hle.
    apply Qle_bool_iff in Hle. congruence.
  - intros Hlt. destruct (Qle_bool (Qabs (m - 0)) eps) eqn:Hb; [|reflexivity].
    apply Qle_bool_iff in Hb. rewrite E in Hb.
    exfalso. apply (Qlt_not_le _ _ Hlt Hb).
Qed.

Lemma makes_edge_wd a b : a == b -> makes_edge a -> makes_edge b.
Proof. unfold makes_edge. intros E H. rewrite <- E. exact H. Qed.

Lemma get_weights_graph_fold n (ising_mat : matrix) :
  square n ising_mat ->
  get_weights_graph ising_mat None
  = Ok (fold_left (visit ising_mat) (cells n) empty_graph).
Proof.
  intros Hsq. unfold get_weights_graph, size0.
  assert (Hn : length ising_mat = n) by (destruct Hsq; assumption).
  rewrite Hn. rewrite <- fold_nested.
  apply for_fold. intros i g Hi. apply in_seq in Hi.
  apply for_fold. intros j g' Hj. apply in_seq in Hj.
  unfold visit. rewrite !identity_node_map by lia.
  destruct (i =? j)%nat.
  - rewrite (getitem2_mget Hsq) by lia. reflexivity.
  - rewrite (getitem2_mget Hsq) by lia. cbn [bind].
    destruct (Qle_bool (Qabs (mget ising_mat i j - 0)) eps).
    + reflexivity.
    + reflexivity.
Qed.

Lemma wf_visit M g c : wf g -> wf (visit M g c).
Proof.
  intros Hwf. destruct c as [i j]. unfold visit.
  destruct (i =? j)%nat; [apply wf_add_node; exact Hwf|].
  destruct (Qle_bool _ eps); [exact Hwf | apply wf_add_edge; exact Hwf].
Qed.

Section Loop.
Variable n : nat.
Variable M : matrix.
Hypothesis Hsym : symmetric M.

Let G := fold_left (visit M) (cells n) empty_graph.

Lemma loop_wf : wf G.
Proof.
  apply (fold_invariant wf); [|apply wf_empty].
  intros g c _ Hg. apply wf_visit. exact Hg.
Qed.

Lemma loop_nodes_bounded v : has_node G v = true -> (v < n)%nat.
Proof.
  revert v.
  apply (fold_invariant (fun g => forall v, has_node g v = true -> (v < n)%nat)).
  - intros g [i j] Hin Hg v. apply in_cells in Hin. unfold visit.
    destruct (i =? j)%nat.
    + rewrite add_node_has_node, orb_true_iff, Nat.eqb_eq.
      intros [H | ->]; [apply Hg; exact H | lia].
    + destruct (Qle_bool _ eps); [apply Hg|].
      rewrite add_edge_has_node, !orb_true_iff, !Nat.eqb_eq.
      intros [[H | ->] | ->]; [apply Hg; exact H | lia | lia].
  - intros v. discriminate.
Qed.

Lemma loop_nodes_present v : (v < n)%nat -> has_node G v = true.
Proof.
  intros Hv.
  apply (fold_establish (fun _ => True) (fun g => has_node g v = true)
           (visit M) (v, v)); auto.
  - intros g _. unfold visit. rewrite Nat.eqb_refl.
    rewrite add_node_has_node, Nat.eqb_refl. apply orb_true_r.
  - intros g [i j] _ _ HP. unfold visit.
    destruct (i =? j)%nat.
    + rewrite add_node_has_node, HP. reflexivity.
    + destruct (Qle_bool _ eps); [exact HP|].
      rewrite add_edge_has_node, HP. reflexivity.
  - apply in_cells. split; exact Hv.
Qed.

Lemma loop_node_weight v : (v < n)%nat -> node_weight G v = Some (mget M v v).
Proof.
  intros Hv.
  apply (fold_establish (fun _ => True)
           (fun g => node_weight g v = Some (mget M v v))
           (visit M) (v, v)); auto.
  - intros g _. unfold visit. rewrite Nat.eqb_refl. apply add_node_weight_same.
  - intros g [i j] _ _ HP. unfold visit.
    destruct (Nat.eqb_spec i j) as [<-|Nij].
    + destruct (Nat.eq_dec v i) as [E|N].
      * subst i. apply add_node_weight_same.
      * rewrite add_node_weight_other by exact N. exact HP.
    + destruct (Qle_bool _ eps); [exact HP|].
      rewrite add_edge_weight. exact HP.
  - apply in_cells. split; exact Hv.
Qed.

(** Every edge of the result comes from a large off-diagonal entry and
    carries that entry. *)
Lemma loop_edges_sound x y a :
  get_edge_data G x y = Some a ->
  (x < n)%nat /\ (y < n)%nat /\ x <> y /\ makes_edge (mget M x y)
  /\ exists w, a = Some w /\ w == mget M x y.
Proof.
  revert x y a.
  apply (fold_invariant (fun g => wf g /\ forall x y a,
           get_edge_data g x y = Some a ->
           (x < n)%nat /\ (y < n)%nat /\ x <> y /\ makes_edge (mget M x y)
           /\ exists w, a = Some w /\ w == mget M x y)).
  - intros g [i j] Hin [Hwf Hg]. split; [apply wf_visit; exact Hwf|].
    apply in_cells in Hin. intros x y a. unfold visit.
    destruct (Nat.eqb_spec i j) as [<-|Nij].
    + rewrite add_node_edge_data by exact Hwf. apply Hg.
    + destruct (Qle_bool _ eps) eqn:Hth; [apply Hg|].
      apply threshold_test in Hth.
      destruct (Nat.eq_dec x i) as [Exi|Nxi];
        [destruct (Nat.eq_dec y j) as [Eyj|Nyj]|].
      * subst x y.
        rewrite (proj1 (add_edge_data_hit i j (mget M i j) Hwf)).
        intros E. injection E as <-.
        repeat split; try lia; try exact Hth.
        exists (mget M i j). split; reflexivity.
      * destruct (Nat.eq_dec x j) as [Exj|Nxj]; [lia|].
        rewrite add_edge_data_miss by (try exact Hwf; lia). apply Hg.
      * destruct (Nat.eq_dec x j) as [Exj|Nxj];
          [destruct (Nat.eq_dec y i) as [Eyi|Nyi]|].
        -- subst x y.
           rewrite (proj2 (add_edge_data_hit i j (mget M i j) Hwf)).
           intros E. injection E as <-.
           repeat split; try lia.
           ++ apply (makes_edge_wd (Hsym i j)). exact Hth.
           ++ exists (mget M i j). split; [reflexivity | apply Hsym].
        -- rewrite add_edge_data_miss by (try exact Hwf; lia). apply Hg.
        -- rewrite add_edge_data_miss by (try exact Hwf; lia). apply Hg.
  - split; [apply wf_empty|]. intros x y a. discriminate.
Qed.

(** Every large off-diagonal entry makes an edge. *)
Lemma loop_edges_complete x y :
  (x < n)%nat -> (y < n)%nat -> x <> y -> makes_edge (mget M x y) ->
  has_edge G x y = true.
Proof.
  intros Hx Hy Nxy Hbig.
  apply (fold_establish wf (fun g => has_edge g x y = true) (visit M) (x, y)).
  - intros g c _ Hg. apply wf_visit. exact Hg.
  - intros g Hwf. unfold visit.
    apply Nat.eqb_neq in Nxy. rewrite Nxy.
    apply threshold_test in Hbig. rewrite Hbig.
    unfold has_edge.
    rewrite (proj1 (add_edge_data_hit x y (mget M x y) Hwf)). reflexivity.
  - intros g [i j] _ Hwf HP. unfold visit.
    destruct (Nat.eqb_spec i j) as [Eij|Nij].
    + unfold has_edge. rewrite add_node_edge_data by exact Hwf. exact HP.
    + destruct (Qle_bool _ eps); [exact HP|].
      unfold has_edge.
      destruct (Nat.eq_dec x i) as [Exi|Nxi];
        [destruct (Nat.eq_dec y j) as [Eyj|Nyj]|].
      * subst x y.
        rewrite (proj1 (add_edge_data_hit i j (mget M i j) Hwf)). reflexivity.
      * destruct (Nat.eq_dec x j) as [Exj|Nxj]; [lia|].
        rewrite add_edge_data_miss by (try exact Hwf; lia). exact HP.
      * destruct (Nat.eq_dec x j) as [Exj|Nxj];
          [destruct (Nat.eq_dec y i) as [Eyi|Nyi]|].
        -- subst x y.
           rewrite (proj2 (add_edge_data_hit i j (mget M i j) Hwf)).
           reflexivity.
        -- rewrite add_edge_data_miss by (try exact Hwf; lia). exact HP.
        -- rewrite add_edge_data_miss by (try exact Hwf; lia). exact HP.
  - apply in_cells. split; assumption.
  - apply wf_empty.
Qed.

End Loop.

End WeightsGraphFacts.

Module WeightsGraphSpec.
Import PyDictFacts Np NpFacts Nx NxFacts Common Energy WeightsGraphFacts LoopBodies.

(** C5.  For a symmetric square matrix [M] of size [n],
    [get_weights_graph(M, None)] returns a graph whose nodes are exactly
    0, ..., n-1, node [i] with weight [M[i][i]], and in which [i] and [j] are
    joined exactly when [i <> j] and [|M[i][j]| > 1e-8], the edge carrying
    [M[i][j]]; an off-diagonal entry within 1e-8 of zero makes no edge. *)
Theorem get_weights_graph_spec (n : nat) (M : matrix) :
  square n M ->
  symmetric M ->
  exists G,
    get_weights_graph M None = Ok G
    /\ (forall v, In v (nodes G) <-> (v < n)%nat)
    /\ (forall i, (i < n)%nat -> node_weight G i = Some (mget M i i))
    /\ (forall i j,
          has_edge G i j = true
          <-> ((i < n)%nat /\ (j < n)%nat /\ i <> j /\ eps < Qabs (mget M i j)))
    /\ (forall i j, has_edge G i j = has_edge G j i)
    /\ (forall i j a,
          get_edge_data G i j = Some a ->
          exists w, a = Some w /\ w == mget M i j).
Proof.
  intros Hsq Hsym. eexists. split; [apply (get_weights_graph_fold Hsq)|].
  assert (Hiff : forall i j,
            has_edge (fold_left (visit M) (cells n) empty_graph) i j = true
            <-> ((i < n)%nat /\ (j < n)%nat /\ i <> j /\ eps < Qabs (mget M i j))).
  { intros i j. split.
    - unfold has_edge.
      destruct (get_edge_data _ i j) as [a|] eqn:E; [|discriminate].
      intros _. destruct (loop_edges_sound n Hsym _ _ E) as (Hi & Hj & Nij & Hb & _).
      repeat split; assumption.
    - intros (Hi & Hj & Nij & Hb). apply loop_edges_complete; assumption. }
  split; [|split; [|split; [|split]]].
  - intros v. rewrite <- has_node_in. split.
    + apply loop_nodes_bounded.
    + apply loop_nodes_present.
  - intros i Hi. apply loop_node_weight. exact Hi.
  - exact Hiff.
  - intros i j.
    assert (Hsw : forall a b,
              has_edge (fold_left (visit M) (cells n) empty_graph) a b = true ->
              has_edge (fold_left (visit M) (cells n) empty_graph) b a = true).
    { intros a b H. apply Hiff in H. destruct H as (Ha & Hb & Nab & Hbig).
      apply Hiff. repeat split; try assumption; try congruence.
      apply (makes_edge_wd (Hsym a b)). exact Hbig. }
    destruct (has_edge _ i j) eqn:E1; destruct (has_edge _ j i) eqn:E2;
      try reflexivity.
    + apply Hsw in E1. congruence.
    + apply Hsw in E2. congruence.
  - intros i j a E.
    destruct (loop_edges_sound n Hsym _ _ E) as (_ & _ & _ & _ & Hw).
    exact Hw.
Qed.

End WeightsGraphSpec.

(* ================================================================== *)
(** * common.py: get_most_small_ising *)
(* ================================================================== *)

Module SmallIsingFacts.
Import PyDictFacts Nx Common StateEnergy.

Lemma get_of_in {K V} `{Hashable K} (d : PyDict.dict K V) k v :
  NoDup (PyDict.keys d) -> In (k, v) d -> PyDict.get d k = Some v.
Proof.
  induction d as [|[k' v'] t IH]; simpl; intros Hnd Hin; [destruct Hin|].
  inversion Hnd as [|? ? Hk' Ht]; subst.
  destruct Hin as [E | Hin].
  - injection E as -> ->. destruct (key_eq_dec k k); congruence.
  - destruct (key_eq_dec k k') as [E|N].
    + subst k'. exfalso. apply Hk'.
      change (In (fst (k, v)) (map fst t)). apply in_map. exact Hin.
    + apply IH; assumption.
Qed.

Lemma for_map_fst {K V S} (l : list (K * V)) (body : K -> S -> result S)
      (step : S -> K * V -> S) :
  (forall kv s, In kv l -> body (fst kv) s = Ok (step s kv)) ->
  forall s, for_ (map fst l) body s = Ok (fold_left step l s).
Proof.
  induction l as [|kv l IH]; intros Hb s; simpl.
  - reflexivity.
  - rewrite Hb by (left; reflexivity). simpl.
    apply IH. intros kv' s' Hin. apply Hb. right. exact Hin.
Qed.

Lemma node_attributes_nodes g nd w :
  In (nd, w) (get_node_attributes g) -> In nd (nodes g).
Proof.
  unfold get_node_attributes, nodes, PyDict.keys, PyDict.items.
  rewrite in_flat_map. intros [[n a] [Hin Hx]].
  destruct a as [w'|]; [|destruct Hx].
  destruct Hx as [E | []]. injection E as -> ->.
  change (In (fst (nd, Some w)) (map fst (_node g))). apply in_map. exact Hin.
Qed.

Lemma edge_attributes_edges g u v w :
  In (u, v, w) (get_edge_attributes g) -> In (u, v) (edges g).
Proof.
  unfold get_edge_attributes, edges. rewrite in_flat_map.
  intros [[[u' v'] a] [Hin Hx]].
  destruct a as [w'|]; [|destruct Hx].
  destruct Hx as [E | []]. injection E as -> -> ->.
  change (In ((fun '(u, v, _) => (u, v)) (u, v, Some w))
             (map (fun '(u, v, _) => (u, v)) (edges_data g))).
  apply in_map. exact Hin.
Qed.

Lemma length_chars key :
  length (list_ascii_of_string key) = String.length key.
Proof.
  induction key as [|c key IH]; simpl; [reflexivity | rewrite IH; reflexivity].
Qed.

End SmallIsingFacts.

Module SmallIsingSpec.
Import PyDictFacts Nx Common StateEnergy SmallIsingFacts LoopBodies.

Lemma comprehension_bits key :
  bitstring key ->
  comprehension int_of_char (list_ascii_of_string key) = Ok (key_bits key).
Proof.
  unfold bitstring, key_bits.
  induction (list_ascii_of_string key) as [|c l IH]; intros Hb; simpl.
  - reflexivity.
  - inversion Hb as [|? ? Hc Hl]; subst.
    rewrite (IH Hl). destruct Hc as [-> | ->]; reflexivity.
Qed.

Lemma Qgt_bool_true a b : Qgt_bool a b = true <-> b < a.
Proof.
  unfold Qgt_bool. rewrite negb_true_iff. split.
  - intros Hf. apply Qnot_le_lt. intros Hle. apply Qle_bool_iff in Hle.
    congruence.
  - intros Hlt. destruct (Qle_bool a b) eqn:E; [|reflexivity].
    apply Qle_bool_iff in E. exfalso. apply (Qlt_not_le _ _ Hlt E).
Qed.

Lemma Qgt_bool_false a b : Qgt_bool a b = false <-> a <= b.
Proof.
  unfold Qgt_bool. rewrite negb_false_iff. apply Qle_bool_iff.
Qed.

Section Scan.
Variable V : Type.

(** The energy the loop body sees for a key. *)
Variable e : string -> Q.

Abbreviation keep := (@keep_smaller V e).

(** Either no state is below the starting value and nothing changes, or the
    loop ends on the first state of least energy. *)
Lemma scan_spec (l : list (string * V)) :
  forall m r,
    ((forall kv, In kv l -> m <= e (fst kv))
     /\ fold_left keep l (m, r) = (m, r))
    \/ (exists pre kv post,
          l = pre ++ kv :: post
          /\ e (fst kv) < m
          /\ (forall kv', In kv' pre -> e (fst kv) < e (fst kv'))
          /\ (forall kv', In kv' post -> e (fst kv) <= e (fst kv'))
          /\ fold_left keep l (m, r)
             = (e (fst kv), Some (key_bits (fst kv)))).
Proof.
  induction l as [|kv l IH]; intros m r.
  - left. split; [intros kv [] | reflexivity].
  - cbn [fold_left]. unfold keep_smaller at 2 4. cbn [fst].
    destruct (Qgt_bool m (e (fst kv))) eqn:Hcmp.
    + apply Qgt_bool_true in Hcmp. right.
      destruct (IH (e (fst kv)) (Some (key_bits (fst kv))))
        as [[Hall Hfold] | (pre & kv2 & post & -> & Hlt & Hpre & Hpost & Hfold)].
      * exists [], kv, l. repeat split; try assumption.
        intros kv' [].
      * exists (kv :: pre), kv2, post. repeat split; try assumption.
        -- apply (Qlt_trans _ _ _ Hlt Hcmp).
        -- intros kv' [<- | Hin]; [exact Hlt | apply Hpre; exact Hin].
    + apply Qgt_bool_false in Hcmp.
      destruct (IH m r)
        as [[Hall Hfold] | (pre & kv2 & post & -> & Hlt & Hpre & Hpost & Hfold)].
      * left. split; [|exact Hfold].
        intros kv' [<- | Hin]; [exact Hcmp | apply Hall; exact Hin].
      * right. exists (kv :: pre), kv2, post. repeat split; try assumption.
        intros kv' [<- | Hin]; [|apply Hpre; exact Hin].
        apply (Qlt_le_trans _ _ _ Hlt Hcmp).
Qed.

End Scan.

End SmallIsingSpec.

(* ================================================================== *)
(** * get_most_small_ising in the arithmetic of the weights *)
(* ================================================================== *)

Module MachineSmallIsing.
Import PyDictFacts Nx Common StateEnergy SmallIsingFacts SmallIsingSpec
       LoopBodies.

(** With exact operations the machine reading is
    [Common.get_most_small_ising]. *)
Lemma get_most_small_ising_exact {V} (state_count : PyDict.dict string V) g :
  Machine.get_most_small_ising Machine.exact state_count g
  = get_most_small_ising state_count g.
Proof. reflexivity. Qed.

(** With exact operations the energy of a state is the sum of its node
    terms plus the sum of its edge terms. *)
Lemma state_energy_exact g key :
  Machine.state_energy Machine.exact g key == state_energy g key.
Proof.
  unfold Machine.state_energy, state_energy, Machine.node_terms,
    Machine.edge_terms.
  rewrite fold_left_app.
  assert (Hsum : forall (l : list Q) a, fold_left Qplus l a == a + total l).
  { intros l. induction l as [|x l IH]; intros a; simpl.
    - ring.
    - rewrite IH. ring. }
  rewrite !Hsum.
  assert (Hedges :
            total (map (fun '(u, v, w) =>
                          Machine.mul Machine.exact
                            (Machine.mul Machine.exact w (spin key u))
                            (spin key v))
                       (filter (fun '(u, v, _) => negb (u =? v)%nat)
                               (get_edge_attributes g)))
            == total (map (fun '(u, v, w) =>
                             if (u =? v)%nat then 0
                             else w * spin key u * spin key v)
                          (get_edge_attributes g))).
  { induction (get_edge_attributes g) as [|[[u v] w] l IH]; simpl.
    - reflexivity.
    - destruct (u =? v)%nat; simpl; rewrite IH; ring. }
  rewrite Hedges. simpl. ring.
Qed.

Lemma fold_left_terms {A} (f : Q -> Q -> Q) (h : A -> Q) (l : list A) (a : Q) :
  fold_left (fun acc x => f acc (h x)) l a = fold_left f (map h l) a.
Proof.
  revert a. induction l as [|x l IH]; intros a; simpl; [reflexivity|].
  apply IH.
Qed.

Lemma fold_left_skipping {A} (f : Q -> Q -> Q) (skip : A -> bool) (h : A -> Q)
      (l : list A) (a : Q) :
  fold_left (fun acc x => if skip x then acc else f acc (h x)) l a
  = fold_left f (map h (filter (fun x => negb (skip x)) l)) a.
Proof.
  revert a. induction l as [|x l IH]; intros a; simpl; [reflexivity|].
  destruct (skip x); simpl; apply IH.
Qed.

Section Arith.
Variable ar : Machine.arith.

(** The energy loop succeeds on a key that indexes the graph, and returns
    the energy of the state: the code adds the terms in the order the
    definition does. *)
Lemma machine_key_energy_ok g key :
  NoDup (PyDict.keys (get_node_attributes g)) ->
  NoDup (PyDict.keys (get_edge_attributes g)) ->
  indexes key g ->
  Machine.key_energy ar (get_node_attributes g) (get_edge_attributes g) key
  = Ok (Machine.state_energy ar g key).
Proof.
  intros Hn He [Hin Hie]. unfold Machine.key_energy.
  set (tw := map spin_of_char (list_ascii_of_string key)).
  assert (Htw : length tw = String.length key)
    by (unfold tw; rewrite length_map; apply length_chars).
  rewrite (for_map_fst (get_node_attributes g) _
             (fun acc kv =>
                Machine.add ar acc
                  ((fun '(nd, w) => Machine.mul ar w (spin key nd)) kv))).
  2:{ intros [nd w] s Hkv. simpl fst; simpl snd.
      unfold PyDict.lookup. rewrite (get_of_in _ _ _ Hn Hkv). cbn [bind].
      rewrite (getitem_nth tw 0%Z)
        by (rewrite Htw; apply Hin; apply (node_attributes_nodes _ _ _ Hkv)).
      reflexivity. }
  cbn [bind].
  rewrite (for_map_fst (get_edge_attributes g) _
             (fun acc kv =>
                if (fun '(u, v, _) => (u =? v)%nat) kv then acc
                else Machine.add ar acc
                       ((fun '(u, v, w) =>
                           Machine.mul ar (Machine.mul ar w (spin key u))
                                       (spin key v)) kv))).
  2:{ intros [[u v] w] s Hkv. simpl fst; simpl snd.
      destruct (u =? v)%nat; [reflexivity|].
      unfold PyDict.lookup. rewrite (get_of_in _ _ _ He Hkv). cbn [bind].
      destruct (Hie u v (edge_attributes_edges _ _ _ _ Hkv)) as [Hu Hv].
      rewrite (getitem_nth tw 0%Z) by (rewrite Htw; exact Hu). cbn [bind].
      rewrite (getitem_nth tw 0%Z) by (rewrite Htw; exact Hv).
      reflexivity. }
  f_equal. unfold Machine.state_energy, Machine.node_terms, Machine.edge_terms.
  rewrite fold_left_app, fold_left_terms, fold_left_skipping.
  f_equal. f_equal. apply filter_ext. intros [[u v] w]. reflexivity.
Qed.

Lemma machine_get_most_small_ising_fold {V}
      (state_count : PyDict.dict string V) g :
  NoDup (PyDict.keys (get_node_attributes g)) ->
  NoDup (PyDict.keys (get_edge_attributes g)) ->
  (forall key, In key (PyDict.keys state_count) ->
     bitstring key /\ indexes key g) ->
  Machine.get_most_small_ising ar state_count g
  = match snd (fold_left (keep_smaller (Machine.state_energy ar g))
                         state_count (min_h0, None)) with
    | Some res_state => Ok res_state
    | None => Raise UnboundLocalError
    end.
Proof.
  intros Hn He Hkeys. unfold Machine.get_most_small_ising, PyDict.items.
  rewrite (for_fold state_count _
             (keep_smaller (Machine.state_energy ar g))).
  - reflexivity.
  - intros [key val] [m r] Hin. cbn [fst].
    assert (Hk : In key (PyDict.keys state_count)).
    { change (In (fst (key, val)) (map fst state_count)). apply in_map.
      exact Hin. }
    destruct (Hkeys key Hk) as [Hbits Hidx].
    rewrite (machine_key_energy_ok Hn He Hidx).
    unfold keep_smaller. cbn [fst bind].
    destruct (Qgt_bool m (Machine.state_energy ar g key)); [|reflexivity].
    rewrite (comprehension_bits Hbits). reflexivity.
Qed.

End Arith.

(** C9.  When every key is a bitstring that indexes the graph:
    if some key has energy below 999999, the function returns the bits of
    the first key, in iteration order, whose energy is least; if no key has,
    it raises [UnboundLocalError].  The energy of a key is the sum of its
    terms in the arithmetic of the weights, whichever it is, added in the
    order of the nodes and then of the edges. *)
Theorem get_most_small_ising_spec {V} (ar : Machine.arith)
        (state_count : PyDict.dict string V) (ising_g : Graph) :
  NoDup (PyDict.keys (get_node_attributes ising_g)) ->
  NoDup (PyDict.keys (get_edge_attributes ising_g)) ->
  (forall key, In key (PyDict.keys state_count) ->
     bitstring key /\ indexes key ising_g) ->
  ((exists key, In key (PyDict.keys state_count)
                /\ Machine.state_energy ar ising_g key < 999999) ->
   exists pre key val post,
     state_count = pre ++ (key, val) :: post
     /\ (forall k, In k (PyDict.keys pre) ->
           Machine.state_energy ar ising_g key
           < Machine.state_energy ar ising_g k)
     /\ (forall k, In k (PyDict.keys post) ->
           Machine.state_energy ar ising_g key
           <= Machine.state_energy ar ising_g k)
     /\ Machine.get_most_small_ising ar state_count ising_g
        = Ok (key_bits key))
  /\ ((forall key, In key (PyDict.keys state_count) ->
         999999 <= Machine.state_energy ar ising_g key) ->
      Machine.get_most_small_ising ar state_count ising_g
      = Raise UnboundLocalError).
Proof.
  intros Hn He Hkeys.
  rewrite (machine_get_most_small_ising_fold ar state_count Hn He Hkeys).
  destruct (scan_spec (Machine.state_energy ar ising_g) state_count min_h0 None)
    as [[Hall Hf] | (pre & [key val] & post & El & Hlt & Hpre & Hpost & Hf)];
    rewrite Hf; cbn [snd fst] in *.
  - split.
    + intros [key [Hin Hkey]]. exfalso.
      apply in_map_iff in Hin. destruct Hin as [kv [<- Hin]].
      specialize (Hall kv Hin).
      apply (Qlt_not_le _ _ Hkey Hall).
    + intros _. reflexivity.
  - split.
    + intros _. exists pre, key, val, post. split; [exact El|].
      split; [|split; [|reflexivity]].
      * intros k Hin. apply in_map_iff in Hin. destruct Hin as [kv [<- Hin]].
        apply Hpre. exact Hin.
      * intros k Hin. apply in_map_iff in Hin. destruct Hin as [kv [<- Hin]].
        apply Hpost. exact Hin.
    + intros Hbig. exfalso.
      assert (Hkin : In key (PyDict.keys state_count)).
      { rewrite El. unfold PyDict.keys. rewrite map_app, in_app_iff.
        right. left. reflexivity. }
      specialize (Hbig key Hkin).
      apply (Qlt_not_le _ _ Hlt Hbig).
Qed.

End MachineSmallIsing.

(* ================================================================== *)
(** * max_cut.py: run and the cached Q matrix *)
(* ================================================================== *)

Module RunFacts.
Import Np Nx Common MaxCutApp.

Lemma run_cached self q :
  _qmatrix self = Some q -> run self = (graph_of_qmatrix q, self).
Proof.
  intros Hq. unfold run. rewrite Hq. cbn. rewrite Hq. reflexivity.
Qed.

Lemma run_fresh self :
  _qmatrix self = None ->
  run self
  = match get_Qmatrix self with
    | Ok q => (graph_of_qmatrix q,
               mkMaxCut (_node_num self) (_graph self) (Some q))
    | Raise e => (Raise e, self)
    end.
Proof.
  intros Hq. unfold run. rewrite Hq.
  destruct (get_Qmatrix self) as [q|e]; reflexivity.
Qed.

(** After a [run] that returned, the Q matrix is stored and the graph
    returned is the one computed from it. *)
Lemma run_returns self g1 self1 :
  run self = (Ok g1, self1) ->
  exists q,
    _qmatrix self1 = Some q
    /\ graph_of_qmatrix q = Ok g1
    /\ (_qmatrix self = None -> get_Qmatrix self = Ok q)
    /\ (forall q0, _qmatrix self = Some q0 -> q0 = q).
Proof.
  destruct (_qmatrix self) as [q0|] eqn:Hq.
  - rewrite (run_cached _ Hq). intros E. injection E as E1 E2. subst self1.
    exists q0. repeat split; try assumption; congruence.
  - rewrite (run_fresh _ Hq). destruct (get_Qmatrix self) as [q|e] eqn:HQ.
    + intros E. injection E as E1 E2. subst self1.
      exists q. repeat split; try assumption; try reflexivity.
      intros q0. discriminate.
    + intros E. discriminate E.
Qed.

(** C8.  Once [run] has returned a graph, [update_random_graph] replaces
    [_node_num] and [_graph] but leaves [_qmatrix] as it is, and the next
    [run] returns the same graph again: the one computed from the Q matrix
    of the graph the object had at the first run (when nothing was stored
    before it), whatever graph the update drew. *)
Theorem update_random_graph_keeps_stale_qmatrix
        (self : MaxCut) (g1 : Graph) (self1 : MaxCut)
        (node_num : nat) (generated : result Graph) :
  run self = (Ok g1, self1) ->
  let self2 := snd (update_random_graph self1 node_num generated) in
  _node_num self2 = node_num
  /\ (forall g, generated = Ok g -> _graph self2 = g)
  /\ _qmatrix self2 = _qmatrix self1
  /\ (exists q,
        _qmatrix self1 = Some q
        /\ (_qmatrix self = None -> get_Qmatrix self = Ok q)
        /\ graph_of_qmatrix q = Ok g1)
  /\ run self2 = (Ok g1, self2).
Proof.
  intros Hrun self2.
  destruct (run_returns _ Hrun) as (q & Hq1 & Hg & Hfresh & _).
  assert (Hq2 : _qmatrix self2 = _qmatrix self1).
  { unfold self2, update_random_graph. destruct generated; reflexivity. }
  split; [|split; [|split; [|split]]].
  - unfold self2, update_random_graph. destruct generated; reflexivity.
  - intros g ->. reflexivity.
  - exact Hq2.
  - exists q. repeat split; assumption.
  - rewrite (run_cached self2 (q := q)) by congruence.
    rewrite Hg. reflexivity.
Qed.

End RunFacts.

(* ================================================================== *)
(** * circuitbytensor.py: summing the expectations *)
(* ================================================================== *)

Module SumExpectationFacts.
Import Nx Quimb Common Backend.

(** The accumulating loop of the serial method is the left-to-right sum of
    the values the calls return. *)
Lemma loop_sum_comprehension {A} (f : A -> result Q) (l : list A) (a : Q) :
  for_ l (fun item res => e <- f item ;; Ok (res + e)) a
  = (vals <- comprehension f l ;; Ok (fold_left Qplus vals a)).
Proof.
  revert a. induction l as [|x l IH]; intros a; simpl.
  - reflexivity.
  - destruct (f x) as [v|ex]; simpl; [|reflexivity].
    rewrite IH. destruct (comprehension f l); reflexivity.
Qed.

Section Methods.
Variable local_expectation :
  Circuit -> operator -> list nat -> string -> complex.
Variable cpu_count : nat.

Abbreviation get_expectation := (Backend.get_expectation local_expectation).
Abbreviation serial :=
  (expectation_calculation_serial local_expectation cpu_count).
Abbreviation parallel := (expectation_calculation_parallel local_expectation).
Abbreviation calculation :=
  (expectation_calculation local_expectation cpu_count).

(** C2.  With [_element_to_graph] set and every call of [get_expectation]
    returning, the serial method returns 0 + v1 + v2 + ... for the values
    v1, v2, ... of [get_expectation] on the items in iteration order, and
    appends that total to [_expectation_path]; with [_is_parallel] false,
    as the constructor leaves it by default, [expectation_calculation] is
    the serial method. *)
Theorem expectation_calculation_serial_spec
        (proc : Process) (self : CircuitByTensor)
        (e2g : PyDict.dict element Graph) (vals : list Q) :
  _element_to_graph self = Some e2g ->
  comprehension (get_expectation self) (PyDict.items e2g) = Ok vals ->
  let total := fold_left Qplus vals 0 in
  serial proc self
  = (Ok total,
     (print_total (set_threads proc cpu_count) total,
      mkCircuitByTensor (_p self) (_nodes_weight self) (_edges_weight self)
        (_is_parallel self) (_opt self) (_element_to_graph self) (_pargs self)
        (_expectation_path self ++ [total])))
  /\ (_is_parallel self = false -> calculation proc self = serial proc self)
  /\ (forall nw ew opt, _is_parallel (init nw ew opt None) = false).
Proof.
  intros He2g Hvals total. split; [|split].
  - unfold expectation_calculation_serial. rewrite He2g. cbn [method_of bind].
    rewrite loop_sum_comprehension, Hvals. cbn [bind].
    unfold append_path. rewrite ?He2g. reflexivity.
  - intros Hpar. unfold expectation_calculation. rewrite Hpar. reflexivity.
  - reflexivity.
Qed.

(** [get_expectation] reads only these fields of the object. *)
Lemma get_expectation_fields (self1 self2 : CircuitByTensor) item :
  _pargs self1 = _pargs self2 ->
  _p self1 = _p self2 ->
  _nodes_weight self1 = _nodes_weight self2 ->
  _edges_weight self1 = _edges_weight self2 ->
  _opt self1 = _opt self2 ->
  get_expectation self1 item = get_expectation self2 item.
Proof.
  destruct self1, self2. cbn. intros -> -> -> -> ->. reflexivity.
Qed.

(** The two methods compute the same outcome from the same fields. *)
Lemma parallel_serial_outcome proc1 proc2 (self1 self2 : CircuitByTensor) :
  _element_to_graph self1 = _element_to_graph self2 ->
  _pargs self1 = _pargs self2 ->
  _p self1 = _p self2 ->
  _nodes_weight self1 = _nodes_weight self2 ->
  _edges_weight self1 = _edges_weight self2 ->
  _opt self1 = _opt self2 ->
  fst (parallel proc1 self1) = fst (serial proc2 self2).
Proof.
  intros He Hpargs Hp Hnw Hew Hopt.
  unfold expectation_calculation_parallel, expectation_calculation_serial.
  rewrite He. destruct (_element_to_graph self2) as [e2g|]; [|reflexivity].
  cbn [method_of bind]. rewrite loop_sum_comprehension. unfold pool_map, py_sum.
  assert (E : comprehension (get_expectation self1) (PyDict.items e2g)
              = comprehension (get_expectation self2) (PyDict.items e2g)).
  { induction (PyDict.items e2g) as [|x l IH]; simpl; [reflexivity|].
    rewrite (get_expectation_fields self1 self2 x) by assumption.
    rewrite IH. reflexivity. }
  rewrite E.
  generalize (comprehension (get_expectation self2) (PyDict.items e2g)).
  intros [vals|e]; reflexivity.
Qed.

(** C3.  Two objects with the same [_element_to_graph], [_pargs], [_p],
    [_nodes_weight] and [_edges_weight] (and the same contraction option
    [_opt], which [get_expectation] hands to the library), one with
    [_is_parallel] true and one with it false: [expectation_calculation]
    returns a total on the first exactly when it returns that total on the
    second. *)
Theorem expectation_calculation_parallel_equiv
        (proc1 proc2 : Process) (self1 self2 : CircuitByTensor) (total : Q) :
  _element_to_graph self1 = _element_to_graph self2 ->
  _pargs self1 = _pargs self2 ->
  _p self1 = _p self2 ->
  _nodes_weight self1 = _nodes_weight self2 ->
  _edges_weight self1 = _edges_weight self2 ->
  _opt self1 = _opt self2 ->
  _is_parallel self1 = true ->
  _is_parallel self2 = false ->
  fst (calculation proc1 self1) = Ok total
  <-> fst (calculation proc2 self2) = Ok total.
Proof.
  intros He Hpargs Hp Hnw Hew Hopt Hpar1 Hpar2.
  unfold expectation_calculation. rewrite Hpar1, Hpar2.
  rewrite (parallel_serial_outcome proc1 proc2 self1 self2) by assumption.
  reflexivity.
Qed.

End Methods.

End SumExpectationFacts.

(* ================================================================== *)
(** * Gate sequences up to reordering on different qubits *)
(* ================================================================== *)

Module CircuitFacts.
Import Quimb.

Lemma same_circuit_refl l : same_circuit l l.
Proof.
  induction l as [|g l IH]; [apply sc_nil | apply sc_skip; exact IH].
Qed.

Lemma same_circuit_app_l p l l' :
  same_circuit l l' -> same_circuit (p ++ l) (p ++ l').
Proof.
  intros H. induction p as [|g p IH]; simpl; [exact H | apply sc_skip; exact IH].
Qed.

Lemma same_circuit_app_r s l l' :
  same_circuit l l' -> same_circuit (l ++ s) (l' ++ s).
Proof.
  intros H. induction H.
  - apply same_circuit_refl.
  - simpl. apply sc_skip. assumption.
  - simpl. apply sc_swap. assumption.
  - eapply sc_trans; eassumption.
Qed.

Lemma same_circuit_app l1 l1' l2 l2' :
  same_circuit l1 l1' -> same_circuit l2 l2' ->
  same_circuit (l1 ++ l2) (l1' ++ l2').
Proof.
  intros H1 H2. eapply sc_trans.
  - apply same_circuit_app_r. exact H1.
  - apply same_circuit_app_l. exact H2.
Qed.

(** A gate moves to the right past gates on other qubits. *)
Lemma same_circuit_move g l r :
  Forall (disjoint g) l -> same_circuit (g :: l ++ r) (l ++ g :: r).
Proof.
  induction l as [|h l IH]; intros Hd; simpl.
  - apply same_circuit_refl.
  - inversion Hd as [|? ? Hgh Hl]; subst.
    eapply sc_trans.
    + apply sc_swap. exact Hgh.
    + apply sc_skip. apply IH. exact Hl.
Qed.

Lemma same_circuit_flat_map {A} (f f' : A -> list Gate) (l : list A) :
  (forall a, In a l -> same_circuit (f a) (f' a)) ->
  same_circuit (flat_map f l) (flat_map f' l).
Proof.
  induction l as [|a l IH]; intros Hf; simpl.
  - apply sc_nil.
  - apply same_circuit_app.
    + apply Hf. left. reflexivity.
    + apply IH. intros a' Hin. apply Hf. right. exact Hin.
Qed.

End CircuitFacts.

(* ================================================================== *)
(** * circuitbytensor.py: get_expectation *)
(* ================================================================== *)

Module ExpectationFacts.
Import PyDictFacts Nx Quimb CircuitFacts Backend Layers.

Lemma same_circuit_sym l l' : same_circuit l l' -> same_circuit l' l.
Proof.
  intros H. induction H.
  - apply sc_nil.
  - apply sc_skip. assumption.
  - apply sc_swap. intros q Hq Hq'. apply (H q Hq' Hq).
  - eapply sc_trans; eassumption.
Qed.

(** ** One qubit per node *)

Lemma qubit_of_position (node_list : list nat) i nd :
  NoDup node_list ->
  nth_error node_list i = Some nd ->
  qubit_of (build_node_to_qubit node_list) nd = i.
Proof.
  intros Hnd Hi. unfold qubit_of, build_node_to_qubit.
  assert (Hlt : (i < length node_list)%nat)
    by (apply nth_error_Some; congruence).
  assert (Hnth : nth i node_list 0%nat = nd)
    by (apply nth_error_nth; exact Hi).
  assert (E : PyDict.get
                (fold_left (fun m j => PyDict.set m (nth j node_list 0%nat) j)
                           (range (length node_list)) PyDict.empty) nd
              = Some i).
  { apply (fold_establish (fun _ => True)
             (fun m => PyDict.get m nd = Some i)
             (fun m j => PyDict.set m (nth j node_list 0%nat) j) i); auto.
    - intros m _. rewrite Hnth. apply get_set_same.
    - intros m j Hj _ HP. apply in_seq in Hj.
      destruct (Nat.eq_dec j i) as [->|Nji].
      + rewrite Hnth. apply get_set_same.
      + rewrite get_set_other; [exact HP|].
        intros E. apply Nji. rewrite <- Hnth in E.
        apply (proj1 (NoDup_nth node_list 0%nat) Hnd); [lia | lia | ].
        symmetry. exact E.
    - apply in_seq. lia. }
  rewrite E. reflexivity.
Qed.

Lemma qubits_of_nodes (node_list : list nat) :
  NoDup node_list ->
  map (qubit_of (build_node_to_qubit node_list)) node_list
  = seq 0 (length node_list).
Proof.
  intros Hnd.
  apply (nth_ext _ _ 0%nat 0%nat).
  - rewrite length_map, length_seq. reflexivity.
  - intros i Hi. rewrite length_map in Hi.
    rewrite seq_nth by exact Hi. simpl.
    rewrite (nth_indep _ 0%nat (qubit_of (build_node_to_qubit node_list) 0%nat))
      by (rewrite length_map; exact Hi).
    rewrite map_nth. apply qubit_of_position; [exact Hnd|].
    apply nth_error_nth'. exact Hi.
Qed.

(** ** The loops append gates *)

Lemma fold_append {A} (f : A -> list Gate) (l : list A) (circ : Circuit) :
  fold_left (fun c a => mkCircuit (N c) (gates c ++ f a)) l circ
  = mkCircuit (N circ) (gates circ ++ flat_map f l).
Proof.
  revert circ. induction l as [|a l IH]; intros circ; simpl.
  - rewrite app_nil_r. destruct circ; reflexivity.
  - rewrite IH. simpl. rewrite <- app_assoc. reflexivity.
Qed.

Lemma flat_map_singleton {A B} (f : A -> B) (l : list A) :
  flat_map (fun a => [f a]) l = map f l.
Proof.
  induction l as [|a l IH]; simpl; [reflexivity | rewrite IH; reflexivity].
Qed.

Lemma flat_map_filter {A B} (t : A -> bool) (f : A -> B) (l : list A) :
  flat_map (fun a => if t a then [] else [f a]) l
  = map f (filter (fun a => negb (t a)) l).
Proof.
  induction l as [|a l IH]; simpl; [reflexivity|].
  destruct (t a); simpl; rewrite IH; reflexivity.
Qed.

Section OneElement.
Variable self : CircuitByTensor.
Variable graph : Graph.
Variables (pargs : list Q) (p : nat).
Variable nw : PyDict.dict nat Q.
Variable ew : PyDict.dict (nat * nat) Q.

Hypothesis Hpargs : _pargs self = Some pargs.
Hypothesis Hp : _p self = Some p.
Hypothesis Hlen : length pargs = (2 * p)%nat.
Hypothesis Hnw : _nodes_weight self = Some nw.
Hypothesis Hew : _edges_weight self = Some ew.

Abbreviation gamma := (Readings.gamma pargs p).
Abbreviation beta := (Readings.beta pargs p).
Abbreviation weight_of_node := (Readings.weight_of_node nw).
Abbreviation weight_of_edge := (Readings.weight_of_edge ew).
Abbreviation qubit := (Readings.qubit graph).

Hypothesis Hnodes : NoDup (nodes graph).
Hypothesis Hnode_weights :
  forall nd, In nd (nodes graph) -> PyDict.get nw nd <> None.
Hypothesis Hedge_weights :
  forall edge, In edge (edges graph) ->
    qubit (fst edge) <> qubit (snd edge) -> PyDict.get ew edge <> None.

Abbreviation the_layer :=
  (applied_layer gamma beta weight_of_node weight_of_edge qubit
                 (nodes graph) (edges graph)).

Lemma lookup_node nd :
  In nd (nodes graph) -> PyDict.lookup nw nd = Ok (weight_of_node nd).
Proof.
  intros Hin. unfold PyDict.lookup, Readings.weight_of_node.
  specialize (Hnode_weights nd Hin).
  destruct (PyDict.get nw nd); [reflexivity | congruence].
Qed.

Lemma lookup_edge edge :
  In edge (edges graph) -> qubit (fst edge) <> qubit (snd edge) ->
  PyDict.lookup ew edge = Ok (weight_of_edge edge).
Proof.
  intros Hin Hq. unfold PyDict.lookup, Readings.weight_of_edge.
  specialize (Hedge_weights edge Hin Hq).
  destruct (PyDict.get ew edge); [reflexivity | congruence].
Qed.

Lemma gamma_item k :
  (k < p)%nat -> getitem (firstn p pargs) k = Ok (gamma k).
Proof.
  intros Hk. apply getitem_nth. rewrite length_firstn. lia.
Qed.

Lemma beta_item k : (k < p)%nat -> getitem (skipn p pargs) k = Ok (beta k).
Proof.
  intros Hk. apply getitem_nth. rewrite length_skipn. lia.
Qed.

(** The loop over the layers appends, layer after layer, the gates of
    [applied_layer]. *)
Lemma build_circuit_gates (circ : Circuit) :
  build_circuit self graph (build_node_to_qubit (nodes graph))
                (firstn p pargs) (skipn p pargs) p circ
  = Ok (mkCircuit (N circ) (gates circ ++ flat_map the_layer (range p))).
Proof.
  unfold build_circuit.
  rewrite (for_fold (range p) _
             (fun c k => mkCircuit (N c) (gates c ++ the_layer k))).
  - rewrite fold_append. reflexivity.
  - intros k c Hk. apply in_seq in Hk.
    rewrite (for_fold (nodes graph) _
               (fun c nd => mkCircuit (N c)
                  (gates c ++ ((if (k =? 0)%nat
                                then [H_on qubit nd] else [])
                               ++ [rz_on gamma weight_of_node qubit k nd])))).
    2:{ intros nd c' Hin. rewrite gamma_item by lia. cbn [bind].
        rewrite Hnw. cbn [unwrap bind]. rewrite (lookup_node nd Hin). cbn [bind].
        unfold apply_gate. destruct (k =? 0)%nat; cbn [N gates].
        - rewrite <- app_assoc. reflexivity.
        - reflexivity. }
    cbn [bind]. rewrite fold_append.
    rewrite (for_fold (edges graph) _
               (fun c edge => mkCircuit (N c)
                  (gates c ++ (if (qubit (fst edge) =? qubit (snd edge))%nat
                               then []
                               else [RZZ_on gamma weight_of_edge qubit k edge])))).
    2:{ intros edge c' Hin. fold (Readings.qubit graph).
        destruct (Nat.eqb_spec (qubit (fst edge)) (qubit (snd edge))) as [E|NE].
        - rewrite app_nil_r. destruct c'; reflexivity.
        - rewrite gamma_item by lia. cbn [bind].
          rewrite Hew. cbn [unwrap bind].
          rewrite <- surjective_pairing. rewrite (lookup_edge edge Hin NE).
          cbn [bind]. unfold apply_gate, RZZ_on.
          rewrite <- surjective_pairing. reflexivity. }
    cbn [bind]. rewrite fold_append.
    rewrite (for_fold (nodes graph) _
               (fun c nd => mkCircuit (N c)
                  (gates c ++ [rx_on beta qubit k nd]))).
    2:{ intros nd c' Hin. rewrite beta_item by lia. reflexivity. }
    rewrite fold_append. cbn [N gates].
    unfold applied_layer, proper_edges.
    rewrite (flat_map_filter
               (fun edge => (qubit (fst edge) =? qubit (snd edge))%nat)).
    rewrite flat_map_singleton. rewrite <- !app_assoc. reflexivity.
Qed.

(** Layer by layer, the gates applied are the layer of the specification
    up to the order of gates on different qubits. *)
Lemma applied_layer_same k :
  same_circuit (the_layer k)
    (layer gamma beta weight_of_node weight_of_edge qubit
           (nodes graph) (edges graph) k).
Proof.
  unfold applied_layer, layer. rewrite (app_assoc _ (map _ (nodes graph))).
  apply same_circuit_app_r.
  destruct (k =? 0)%nat.
  - pose proof (qubits_of_nodes Hnodes) as Hq. fold (Readings.qubit graph) in Hq.
    assert (Hnd : NoDup (map qubit (nodes graph)))
      by (rewrite Hq; apply seq_NoDup).
    clear Hq Hnode_weights Hedge_weights Hnodes.
    induction (nodes graph) as [|a l IH]; simpl.
    + apply sc_nil.
    + inversion Hnd as [|? ? Ha Hl]; subst.
      apply sc_skip. eapply sc_trans.
      * apply sc_skip. apply IH. exact Hl.
      * apply same_circuit_move. rewrite Forall_forall.
        intros h Hh. apply in_map_iff in Hh. destruct Hh as [b [<- Hb]].
        intros q Hq Hq'. simpl in Hq, Hq'.
        destruct Hq as [<- | []]. destruct Hq' as [E | []].
        apply Ha. rewrite <- E. apply in_map. exact Hb.
  - simpl. rewrite flat_map_singleton. apply same_circuit_refl.
Qed.

End OneElement.

End ExpectationFacts.

Module ExpectationSpec.
Import PyDictFacts Nx Quimb CircuitFacts Backend Layers Readings
       ExpectationFacts.

Section Spec.
Variable local_expectation :
  Circuit -> operator -> list nat -> string -> complex.

(** C4.  With [_pargs] of length [2 * _p], split into gamma (the first
    [_p]) and beta (the rest), and with a weight for every node and for
    every edge between different qubits, [get_expectation] builds a circuit
    with one qubit per node of the element graph (the node at position [i]
    of [graph.nodes] sits on qubit [i]).  Its gates are, layer by layer,
    those of [applied_layer]; up to the order of gates on different qubits
    that is the layered circuit of the specification: H on every qubit when
    [k = 0], then [rz(2 * gamma_k * nodes_weight[nd])] on every node, then
    [RZZ(-gamma_k * edges_weight[u, v])] on every edge between different
    qubits, then [rx(2 * beta_k)] on every node.  The value returned is the
    real part of the local expectation of Z at the node's qubit (for a node
    element) or of Z (x) Z at the two endpoint qubits (for an edge element),
    times the weight of that element. *)
Theorem get_expectation_spec
        (self : CircuitByTensor) (original_e : element) (graph : Graph)
        (pargs : list Q) (p : nat)
        (nw : PyDict.dict nat Q) (ew : PyDict.dict (nat * nat) Q) :
  _pargs self = Some pargs ->
  _p self = Some p ->
  length pargs = (2 * p)%nat ->
  _nodes_weight self = Some nw ->
  _edges_weight self = Some ew ->
  NoDup (nodes graph) ->
  (forall nd, In nd (nodes graph) -> PyDict.get nw nd <> None) ->
  (forall edge, In edge (edges graph) ->
     qubit graph (fst edge) <> qubit graph (snd edge) ->
     PyDict.get ew edge <> None) ->
  match original_e with
  | ENode n => PyDict.get nw n <> None
  | EEdge u v => PyDict.get ew (u, v) <> None
  end ->
  exists circ : Circuit,
    N circ = length (nodes graph)
    /\ (forall i nd, nth_error (nodes graph) i = Some nd -> qubit graph nd = i)
    /\ gates circ
       = applied_circuit (gamma pargs p) (beta pargs p) (weight_of_node nw)
           (weight_of_edge ew) (qubit graph) (nodes graph) (edges graph) p
    /\ same_circuit (gates circ)
         (layered_circuit (gamma pargs p) (beta pargs p) (weight_of_node nw)
            (weight_of_edge ew) (qubit graph) (nodes graph) (edges graph) p)
    /\ get_expectation local_expectation self (original_e, graph)
       = Ok match original_e with
            | ENode n =>
                real (local_expectation circ (pauli "Z") [qubit graph n]
                                        (_opt self))
                * weight_of_node nw n
            | EEdge u v =>
                real (local_expectation circ (kron (pauli "Z") (pauli "Z"))
                                        [qubit graph u; qubit graph v]
                                        (_opt self))
                * weight_of_edge ew (u, v)
            end.
Proof.
  intros Hpargs Hp Hlen Hnw Hew Hnodes Hnode_w Hedge_w Hweight.
  exists (mkCircuit (length (nodes graph))
            (applied_circuit (gamma pargs p) (beta pargs p) (weight_of_node nw)
               (weight_of_edge ew) (qubit graph) (nodes graph) (edges graph) p)).
  split; [reflexivity|]. split; [|split; [reflexivity|split]].
  - intros i nd Hi. apply qubit_of_position; assumption.
  - cbn [gates]. unfold applied_circuit, layered_circuit.
    apply same_circuit_flat_map. intros k _.
    apply applied_layer_same; assumption.
  - unfold get_expectation. rewrite Hpargs, Hp. cbn [unwrap bind].
    rewrite (build_circuit_gates self graph pargs p Hlen Hnw Hew
               Hnode_w Hedge_w).
    cbn [bind new_circuit N gates app].
    destruct original_e as [n | u v].
    + rewrite Hnw. cbn [unwrap bind]. unfold PyDict.lookup, weight_of_node.
      destruct (PyDict.get nw n); [reflexivity | congruence].
    + rewrite Hew. cbn [unwrap bind]. unfold PyDict.lookup, weight_of_edge.
      destruct (PyDict.get ew (u, v)); [reflexivity | congruence].
Qed.

End Spec.

End ExpectationSpec.

(* ================================================================== *)
(** * What the public operations leave in their objects *)
(* ================================================================== *)

Module FrameFacts.
Import Np Nx Quimb Common MaxCutApp Backend RunFacts.

(** C7 (as amended).  The objects do keep state between calls, but only in
    two places.  [MaxCut.run] leaves [_node_num] and [_graph] alone; a stored
    Q matrix stays; when none is stored and [get_Qmatrix] returns one, that
    one is stored, whatever the rest of [run] does; when none is stored and
    [get_Qmatrix] raises, [run] raises the same and the object is unchanged.
    [expectation_calculation] leaves every field alone except
    [_expectation_path], to which it appends the total it returns; when it
    raises, the object is unchanged. *)
Theorem public_operations_frame
        (local_expectation : Circuit -> operator -> list nat -> string -> complex)
        (cpu_count : nat) :
  (forall self : MaxCut,
     let self' := snd (run self) in
     _node_num self' = _node_num self
     /\ _graph self' = _graph self
     /\ (forall q0, _qmatrix self = Some q0 -> self' = self)
     /\ (_qmatrix self = None ->
         forall q, get_Qmatrix self = Ok q -> _qmatrix self' = Some q)
     /\ (_qmatrix self = None ->
         forall e, get_Qmatrix self = Raise e ->
                   self' = self /\ fst (run self) = Raise e))
  /\ (forall (proc : Process) (self : CircuitByTensor),
        let out := expectation_calculation local_expectation cpu_count proc self in
        let self' := snd (snd out) in
        _p self' = _p self
        /\ _nodes_weight self' = _nodes_weight self
        /\ _edges_weight self' = _edges_weight self
        /\ _is_parallel self' = _is_parallel self
        /\ _opt self' = _opt self
        /\ _element_to_graph self' = _element_to_graph self
        /\ _pargs self' = _pargs self
        /\ match fst out with
           | Ok total =>
               _expectation_path self' = _expectation_path self ++ [total]
           | Raise _ => self' = self
           end).
Proof.
  split.
  - intros self.
    destruct (_qmatrix self) as [q0|] eqn:Hq.
    + rewrite (run_cached _ Hq). cbn [snd fst].
      split; [reflexivity|]. split; [reflexivity|]. split; [|split].
      * intros q1 _. reflexivity.
      * intros E. discriminate E.
      * intros E. discriminate E.
    + rewrite (run_fresh _ Hq).
      destruct (get_Qmatrix self) as [q|err] eqn:HQ; cbn [snd fst].
      * split; [reflexivity|]. split; [reflexivity|]. split; [|split].
        -- intros q1 E. discriminate E.
        -- intros _ q1 E. injection E as <-. reflexivity.
        -- intros _ e1 E. discriminate E.
      * split; [reflexivity|]. split; [reflexivity|]. split; [|split].
        -- intros q1 E. discriminate E.
        -- intros _ q1 E. discriminate E.
        -- intros _ e1 E. injection E as <-. split; reflexivity.
  - intros proc self.
    unfold expectation_calculation, expectation_calculation_parallel,
      expectation_calculation_serial.
    destruct (_is_parallel self) eqn:Hpar.
    + destruct (e2g <- method_of (_element_to_graph self) ;;
                pool_map (get_expectation local_expectation self)
                         (PyDict.items e2g));
        cbn; rewrite ?Hpar; repeat split; reflexivity.
    + destruct (e2g <- method_of (_element_to_graph self) ;;
                for_ (PyDict.items e2g)
                     (fun item res =>
                        e <- get_expectation local_expectation self item ;;
                        Ok (res + e)) 0);
        cbn; rewrite ?Hpar; repeat split; reflexivity.
Qed.

End FrameFacts.

(* ================================================================== *)
(** * The theorems at concrete inputs *)
(* ================================================================== *)

Module Instances.
Import Np NpFacts Nx Quimb Common MaxCutApp Backend Energy Cut StateEnergy
       Layers Readings Examples MoreExamples.

Lemma symmetricb_spec n M : square n M -> symmetricb n M = true -> symmetric M.
Proof.
  intros Hsq Hb i j. unfold symmetricb in Hb. rewrite forallb_forall in Hb.
  destruct (Nat.lt_ge_cases i n) as [Hi|Hi];
    destruct (Nat.lt_ge_cases j n) as [Hj|Hj].
  - apply Qeq_bool_iff. apply (Hb (i, j)). apply in_cells. split; assumption.
  - unfold mget. rewrite (nth_overflow (nth i M []))
      by (fold (mrow M i); rewrite (square_row Hsq Hi); exact Hj).
    rewrite (nth_overflow M) by (destruct Hsq; lia).
    destruct i; reflexivity.
  - unfold mget. rewrite (nth_overflow (nth j M []))
      by (fold (mrow M j); rewrite (square_row Hsq Hj); exact Hi).
    rewrite (nth_overflow M) by (destruct Hsq; lia).
    destruct j; reflexivity.
  - unfold mget. rewrite !(nth_overflow M) by (destruct Hsq; lia).
    destruct i, j; reflexivity.
Qed.

(** C6 on the star with weights 2^62, in int64: the row sum of the centre
    wraps to -2^62, and the entry written is +2^62. *)
Lemma get_Qmatrix_star :
  (exists q,
     Machine.get_Qmatrix Machine.int64 Machine.int64_sum (init_graph star)
     = Ok q
     /\ mget q 0 0 = 4611686018427387904)
  /\ exists qubo_mat,
       Machine.get_Qmatrix Machine.int64 Machine.int64_sum (init_graph star)
       = Ok qubo_mat
       /\ square 4 qubo_mat
       /\ (forall i j, i <> j -> mget qubo_mat i j = mget star_adjacency i j)
       /\ (forall i, (i < 4)%nat ->
             mget qubo_mat i i
             = Machine.neg Machine.int64
                 (Machine.sub Machine.int64
                    (Machine.int64_sum (mrow star_adjacency i))
                    (mget star_adjacency i i))).
Proof.
  split.
  - eexists. split; vm_compute; reflexivity.
  - apply (@MachineQmatrix.get_Qmatrix_spec Machine.int64 Machine.int64_sum
             (init_graph star) star_adjacency);
      reflexivity.
Defined.


(** C5 on a 3 by 3 matrix: the coupling 1/2 makes the edge {0, 1}, the
    coupling 1e-9 makes none. *)
Lemma get_weights_graph_small_ising :
  square 3 small_ising
  /\ symmetric small_ising
  /\ exists G,
       get_weights_graph small_ising None = Ok G
       /\ (forall v, In v (nodes G) <-> (v < 3)%nat)
       /\ (forall i, (i < 3)%nat -> node_weight G i = Some (mget small_ising i i))
       /\ (forall i j,
             has_edge G i j = true
             <-> ((i < 3)%nat /\ (j < 3)%nat /\ i <> j
                  /\ eps < Qabs (mget small_ising i j)))
       /\ (forall i j, has_edge G i j = has_edge G j i)
       /\ (forall i j a,
             get_edge_data G i j = Some a ->
             exists w, a = Some w /\ w == mget small_ising i j).
Proof.
  assert (Hsq : square 3 small_ising) by (apply squareb_spec; reflexivity).
  assert (Hsym : symmetric small_ising)
    by (apply (symmetricb_spec Hsq); reflexivity).
  split; [exact Hsq|]. split; [exact Hsym|].
  apply (@WeightsGraphSpec.get_weights_graph_spec 3 small_ising Hsq Hsym).
Defined.

(** C9 on two states whose energies are equal as real numbers, with
    float64 weights 0.1, 0.2 and 0.1: the sums are -0.2 for "10" and
    -0.20000000000000004 for "00", so "00" is returned. *)
Lemma get_most_small_ising_tied :
  Machine.get_most_small_ising Machine.float64 tied_counts tied_pair
  = Ok [0; 0]%Z
  /\ ((exists key, In key (PyDict.keys tied_counts)
                   /\ Machine.state_energy Machine.float64 tied_pair key
                      < 999999) ->
      exists pre key val post,
        tied_counts = pre ++ (key, val) :: post
        /\ (forall k, In k (PyDict.keys pre) ->
              Machine.state_energy Machine.float64 tied_pair key
              < Machine.state_energy Machine.float64 tied_pair k)
        /\ (forall k, In k (PyDict.keys post) ->
              Machine.state_energy Machine.float64 tied_pair key
              <= Machine.state_energy Machine.float64 tied_pair k)
        /\ Machine.get_most_small_ising Machine.float64 tied_counts tied_pair
           = Ok (key_bits key))
  /\ ((forall key, In key (PyDict.keys tied_counts) ->
         999999 <= Machine.state_energy Machine.float64 tied_pair key) ->
      Machine.get_most_small_ising Machine.float64 tied_counts tied_pair
      = Raise UnboundLocalError).
Proof.
  split; [vm_compute; reflexivity|].
  apply (@MachineSmallIsing.get_most_small_ising_spec nat Machine.float64
           tied_counts tied_pair).
  - assert (E : PyDict.keys (get_node_attributes tied_pair) = [0; 1]%nat)
      by reflexivity.
    rewrite E. apply NoDup_cons; [simpl; intuition congruence|].
    apply NoDup_cons; [simpl; intuition congruence|]. apply NoDup_nil.
  - assert (E : PyDict.keys (get_edge_attributes tied_pair)
                = [(0, 1)]%nat) by reflexivity.
    rewrite E. apply NoDup_cons; [simpl; intuition congruence|]. apply NoDup_nil.
  - assert (En : nodes tied_pair = [0; 1]%nat) by reflexivity.
    assert (Ee : edges tied_pair = [(0, 1)]%nat) by reflexivity.
    intros key Hin. simpl in Hin.
    destruct Hin as [<- | [<- | []]]; split;
      try (unfold bitstring; simpl;
           repeat (apply Forall_cons; [auto|]); apply Forall_nil);
      (split;
       [ intros nd Hnd; rewrite En in Hnd; simpl in Hnd;
         destruct Hnd as [<- | [<- | []]]; simpl; lia
       | intros u v Huv; rewrite Ee in Huv; simpl in Huv;
         destruct Huv as [E | []]; injection E as <- <-; simpl; lia ]).
Defined.

(** C8 on an object built on [one_edge] and then updated to [path3]: the
    second [run] still returns the graph of [one_edge], which is not the one
    a fresh object on [path3] returns. *)
Lemma stale_qmatrix_one_edge :
  let out := run (init_graph one_edge) in
  let g1 := match fst out with Ok g => g | Raise _ => empty_graph end in
  let self1 := snd out in
  let self2 := snd (update_random_graph self1 3 (Ok path3)) in
  run (init_graph one_edge) = (Ok g1, self1)
  /\ fst (run (init_graph path3)) <> Ok g1
  /\ _node_num self2 = 3%nat
  /\ (forall g, Ok path3 = Ok g -> _graph self2 = g)
  /\ _qmatrix self2 = _qmatrix self1
  /\ (exists q,
        _qmatrix self1 = Some q
        /\ (_qmatrix (init_graph one_edge) = None ->
            get_Qmatrix (init_graph one_edge) = Ok q)
        /\ graph_of_qmatrix q = Ok g1)
  /\ run self2 = (Ok g1, self2).
Proof.
  cbv zeta. split; [reflexivity|]. split.
  - vm_compute. discriminate.
  - apply (@RunFacts.update_random_graph_keeps_stale_qmatrix
             (init_graph one_edge) _ _ 3%nat (Ok path3)).
    reflexivity.
Defined.

(** C2 on the evaluator of [one_edge]: the three expectations 7, 21 and 14
    add up to 42. *)
Lemma serial_total_one_edge :
  _element_to_graph (evaluator false)
  = Some [(ENode 0, one_edge); (ENode 1, one_edge); (EEdge 0 1, one_edge)]
  /\ comprehension (get_expectation count_gates (evaluator false))
                   [(ENode 0, one_edge); (ENode 1, one_edge);
                    (EEdge 0 1, one_edge)]
     = Ok [7; 21; 14]
  /\ fold_left Qplus [7; 21; 14] 0 = 42
  /\ expectation_calculation_serial count_gates 4 idle (evaluator false)
     = (Ok (fold_left Qplus [7; 21; 14] 0),
        (print_total (set_threads idle 4) (fold_left Qplus [7; 21; 14] 0),
         mkCircuitByTensor (_p (evaluator false))
           (_nodes_weight (evaluator false)) (_edges_weight (evaluator false))
           (_is_parallel (evaluator false)) (_opt (evaluator false))
           (_element_to_graph (evaluator false)) (_pargs (evaluator false))
           (_expectation_path (evaluator false)
            ++ [fold_left Qplus [7; 21; 14] 0])))
  /\ (_is_parallel (evaluator false) = false ->
      expectation_calculation count_gates 4 idle (evaluator false)
      = expectation_calculation_serial count_gates 4 idle (evaluator false))
  /\ (forall nw ew opt, _is_parallel (init nw ew opt None) = false).
Proof.
  split; [reflexivity|]. split; [reflexivity|]. split; [reflexivity|].
  apply (@SumExpectationFacts.expectation_calculation_serial_spec
           count_gates 4 idle (evaluator false)
           [(ENode 0, one_edge); (ENode 1, one_edge); (EEdge 0 1, one_edge)]
           [7; 21; 14]);
    reflexivity.
Defined.

(** C3 on the evaluator of [one_edge], once parallel and once serial. *)
Lemma parallel_total_one_edge :
  fst (expectation_calculation count_gates 4 idle (evaluator false)) = Ok 42
  /\ fst (expectation_calculation count_gates 4 idle (evaluator true)) = Ok 42.
Proof.
  assert (Hserial : fst (expectation_calculation count_gates 4 idle
                           (evaluator false)) = Ok 42) by reflexivity.
  split; [exact Hserial|].
  apply (proj2 (@SumExpectationFacts.expectation_calculation_parallel_equiv
                  count_gates 4 idle idle (evaluator true) (evaluator false) 42
                  eq_refl eq_refl eq_refl eq_refl eq_refl eq_refl
                  eq_refl eq_refl)).
  exact Hserial.
Defined.

(** C4 on the edge element of [one_edge] with one layer: seven gates on two
    qubits, and the value is the stand-in expectation 7 times the edge
    weight 2. *)
Lemma get_expectation_one_edge :
  get_expectation count_gates (evaluator false) (EEdge 0 1, one_edge) = Ok 14
  /\ exists circ : Circuit,
       N circ = length (nodes one_edge)
       /\ (forall i nd, nth_error (nodes one_edge) i = Some nd ->
             qubit one_edge nd = i)
       /\ gates circ
          = applied_circuit (gamma [1 # 2; 1 # 3] 1) (beta [1 # 2; 1 # 3] 1)
              (weight_of_node [(0%nat, 1); (1%nat, 3)])
              (weight_of_edge [((0%nat, 1%nat), 2)])
              (qubit one_edge) (nodes one_edge) (edges one_edge) 1
       /\ same_circuit (gates circ)
            (layered_circuit (gamma [1 # 2; 1 # 3] 1) (beta [1 # 2; 1 # 3] 1)
               (weight_of_node [(0%nat, 1); (1%nat, 3)])
               (weight_of_edge [((0%nat, 1%nat), 2)])
               (qubit one_edge) (nodes one_edge) (edges one_edge) 1)
       /\ get_expectation count_gates (evaluator false) (EEdge 0 1, one_edge)
          = Ok (real (count_gates circ (kron (pauli "Z") (pauli "Z"))
                                  [qubit one_edge 0; qubit one_edge 1]
                                  (_opt (evaluator false)))
                * weight_of_edge [((0%nat, 1%nat), 2)] (0%nat, 1%nat)).
Proof.
  split; [reflexivity|].
  assert (En : nodes one_edge = [0; 1]%nat) by reflexivity.
  assert (Ee : edges one_edge = [(0, 1)]%nat) by reflexivity.
  apply (@ExpectationSpec.get_expectation_spec count_gates (evaluator false)
           (EEdge 0 1) one_edge [1 # 2; 1 # 3] 1%nat
           [(0%nat, 1); (1%nat, 3)] [((0%nat, 1%nat), 2)]);
    try reflexivity.
  - rewrite En. apply NoDup_cons; [simpl; intuition congruence|].
    apply NoDup_cons; [simpl; intuition congruence|]. apply NoDup_nil.
  - intros nd Hnd. rewrite En in Hnd. simpl in Hnd.
    destruct Hnd as [<- | [<- | []]]; discriminate.
  - intros edge Hin _. rewrite Ee in Hin. simpl in Hin.
    destruct Hin as [<- | []]. discriminate.
  - discriminate.
Defined.

(** C7 as stated fails: on a fresh object [run] fills [_qmatrix], and
    [expectation_calculation] lengthens [_expectation_path]. *)
Lemma operations_change_fields :
  _qmatrix (init_graph one_edge) = None
  /\ _qmatrix (snd (run (init_graph one_edge))) = Some [[-1; 1]; [1; -1]]
  /\ snd (run (init_graph one_edge)) <> init_graph one_edge
  /\ _expectation_path (evaluator false) = []
  /\ _expectation_path
       (snd (snd (expectation_calculation count_gates 4 idle (evaluator false))))
     = [42]
  /\ snd (snd (expectation_calculation count_gates 4 idle (evaluator false)))
     <> evaluator false.
Proof.
  split; [reflexivity|]. split; [reflexivity|]. split.
  - intros E. apply (f_equal _qmatrix) in E. vm_compute in E. discriminate E.
  - split; [reflexivity|]. split; [reflexivity|].
    intros E. apply (f_equal _expectation_path) in E. vm_compute in E.
    discriminate E.
Qed.

End Instances.

(* ================================================================== *)
(** * Loops that raise *)
(* ================================================================== *)

Module RaiseFacts.

Lemma for_app {A S} (l1 l2 : list A) (body : A -> S -> result S) (s : S) :
  for_ (l1 ++ l2) body s = (s' <- for_ l1 body s ;; for_ l2 body s').
Proof.
  revert s. induction l1 as [|a l1 IH]; intros s; simpl.
  - reflexivity.
  - destruct (body a s) as [s'|e]; simpl; [apply IH | reflexivity].
Qed.

(** A loop whose iterations can only raise [e], and one of whose iterations
    raises whatever the state, raises [e]. *)
Lemma for_raises {A S} (e : exn) (l : list A) (body : A -> S -> result S)
      (a : A) :
  (forall b s, In b l -> body b s = Raise e \/ exists s', body b s = Ok s') ->
  In a l ->
  (forall s, body a s = Raise e) ->
  forall s, for_ l body s = Raise e.
Proof.
  induction l as [|b l IH]; intros Honly Hin Hbad s; [destruct Hin|].
  simpl. destruct (Honly b s (or_introl eq_refl)) as [E | [s' E]]; rewrite E.
  - reflexivity.
  - simpl. destruct Hin as [-> | Hin].
    + rewrite Hbad in E. discriminate E.
    + apply IH; try assumption. intros b' s0 Hb'. apply Honly. right. exact Hb'.
Qed.

Lemma getitem_cases {A} (l : list A) i :
  getitem l i = Raise IndexError \/ exists a, getitem l i = Ok a.
Proof.
  unfold getitem. destruct (nth_error l i); [right; eauto | left; reflexivity].
Qed.

Lemma getitem_overflow {A} (l : list A) i :
  (length l <= i)%nat -> getitem l i = Raise IndexError.
Proof.
  intros Hi. unfold getitem.
  destruct (nth_error l i) eqn:E; [|reflexivity].
  assert (i < length l)%nat by (apply nth_error_Some; congruence). lia.
Qed.

Lemma setitem_cases {A} (l : list A) i v :
  setitem l i v = Raise IndexError \/ exists l', setitem l i v = Ok l'.
Proof.
  revert i. induction l as [|h t IH]; intros i; simpl.
  - left. reflexivity.
  - destruct i as [|i]; [right; eauto|].
    destruct (IH i) as [E | [t' E]]; rewrite E; simpl; [left | right]; eauto.
Qed.

Lemma bind_cases {A B} (e : exn) (m : result A) (k : A -> result B) :
  (m = Raise e \/ exists a, m = Ok a) ->
  (forall a, k a = Raise e \/ exists b, k a = Ok b) ->
  bind m k = Raise e \/ exists b, bind m k = Ok b.
Proof.
  intros [-> | [a ->]] Hk; simpl; [left; reflexivity | apply Hk].
Qed.

Lemma for_cases {A S} (e : exn) (l : list A) (body : A -> S -> result S) :
  (forall b s, In b l -> body b s = Raise e \/ exists s', body b s = Ok s') ->
  forall s, for_ l body s = Raise e \/ exists s', for_ l body s = Ok s'.
Proof.
  induction l as [|b l IH]; intros Honly s; simpl.
  - right. eauto.
  - destruct (Honly b s (or_introl eq_refl)) as [E | [s' E]]; rewrite E; simpl.
    + left. reflexivity.
    + apply IH. intros b' s0 Hb'. apply Honly. right. exact Hb'.
Qed.

End RaiseFacts.

(* ================================================================== *)
(** * common.py: more about get_ising_matrix *)
(* ================================================================== *)

Module IsingMatrixMore.
Import Np NpFacts Common Energy LoopBodies IsingMatrixFacts RaiseFacts.

Lemma getitem2_cases (m : matrix) i j :
  getitem2 m i j = Raise IndexError \/ exists a, getitem2 m i j = Ok a.
Proof.
  unfold getitem2. apply bind_cases; [apply getitem_cases|].
  intros row. apply getitem_cases.
Qed.

Lemma setitem2_cases (m : matrix) i j v :
  setitem2 m i j v = Raise IndexError \/ exists m', setitem2 m i j v = Ok m'.
Proof.
  unfold setitem2. apply bind_cases; [apply getitem_cases|].
  intros row. apply bind_cases; [apply setitem_cases|].
  intros row'. apply setitem_cases.
Qed.

(** A square matrix holds 0 outside its range, so symmetry need only be
    checked inside. *)
Lemma symmetric_in_range n (M : matrix) :
  square n M ->
  (forall i j, (i < n)%nat -> (j < n)%nat -> mget M i j == mget M j i) ->
  symmetric M.
Proof.
  intros Hsq Hin i j.
  assert (Hout : forall a b, (n <= a)%nat \/ (n <= b)%nat -> mget M a b = 0).
  { intros a b Hab. unfold mget.
    destruct (Nat.lt_ge_cases a n) as [Ha|Ha].
    - apply nth_overflow. fold (mrow M a). rewrite (square_row Hsq Ha). lia.
    - rewrite (nth_overflow M) by (destruct Hsq; lia). destruct b; reflexivity. }
  destruct (Nat.lt_ge_cases i n) as [Hi|Hi];
    destruct (Nat.lt_ge_cases j n) as [Hj|Hj];
    try (apply Hin; assumption);
    rewrite (Hout i j), (Hout j i) by lia; reflexivity.
Qed.

(** X2.  [get_ising_matrix] keeps the shape and the symmetry of its
    argument: on a symmetric square matrix it returns a symmetric square
    matrix of the same size, which is what [get_weights_graph] needs to
    give each undirected edge one well-defined weight. *)
Theorem get_ising_matrix_symmetric n (qubo_mat : matrix) :
  square n qubo_mat ->
  symmetric qubo_mat ->
  exists ising_mat,
    get_ising_matrix qubo_mat = Ok ising_mat
    /\ square n ising_mat
    /\ symmetric ising_mat.
Proof.
  intros Hsq Hsym.
  destruct (get_ising_matrix_entries Hsq) as (M & HM & HsqM & Hent).
  exists M. split; [exact HM|]. split; [exact HsqM|].
  apply (symmetric_in_range HsqM). intros i j Hi Hj.
  rewrite (Hent i j Hi Hj), (Hent j i Hj Hi). unfold ising_entry.
  destruct (Nat.eqb_spec i j) as [->|Nij].
  - rewrite Nat.eqb_refl. reflexivity.
  - assert (Nji : (j =? i)%nat = false) by (apply Nat.eqb_neq; congruence).
    rewrite Nji, (Hsym i j). reflexivity.
Qed.

(** In the model a row can be shorter than the others; reading past its end
    raises [IndexError]. *)
Lemma short_row_raises (qubo_mat : matrix) (row : list Q) :
  In row qubo_mat ->
  (length row < length qubo_mat)%nat ->
  get_ising_matrix qubo_mat = Raise IndexError.
Proof.
  intros Hin Hshort. unfold get_ising_matrix, size0.
  destruct (In_nth _ _ [] Hin) as (i0 & Hi0 & Hrow).
  set (n := length qubo_mat) in *.
  assert (Hbody : forall i j (m : matrix),
            (if (i =? j)%nat
             then qii <- getitem2 qubo_mat i i ;;
                  r <- getitem qubo_mat i ;;
                  qii' <- getitem2 qubo_mat i i ;;
                  setitem2 m i i (1 * (qii / 2) + Np.sum r - qii')
             else qij <- getitem2 qubo_mat i j ;;
                  setitem2 m i j (1 * (qij / 4))) = Raise IndexError
            \/ exists m',
                (if (i =? j)%nat
                 then qii <- getitem2 qubo_mat i i ;;
                      r <- getitem qubo_mat i ;;
                      qii' <- getitem2 qubo_mat i i ;;
                      setitem2 m i i (1 * (qii / 2) + Np.sum r - qii')
                 else qij <- getitem2 qubo_mat i j ;;
                      setitem2 m i j (1 * (qij / 4))) = Ok m').
  { intros i j m. destruct (i =? j)%nat.
    - apply bind_cases; [apply getitem2_cases|]. intros qii.
      apply bind_cases; [apply getitem_cases|]. intros r.
      apply bind_cases; [apply getitem2_cases|]. intros qii'.
      apply setitem2_cases.
    - apply bind_cases; [apply getitem2_cases|]. intros qij.
      apply setitem2_cases. }
  apply (@for_raises _ _ IndexError (range n) _ i0).
  - intros i m _. apply for_cases. intros j m' _. apply Hbody.
  - apply in_seq. lia.
  - intros m. apply (@for_raises _ _ IndexError (range n) _ (length row)).
    + intros j m' _. apply Hbody.
    + apply in_seq. lia.
    + intros m'.
      assert (Hread : getitem2 qubo_mat i0 (length row) = Raise IndexError).
      { unfold getitem2. rewrite (getitem_nth qubo_mat [] Hi0), Hrow. simpl.
        apply getitem_overflow. lia. }
      destruct (Nat.eqb_spec i0 (length row)) as [E|N].
      * rewrite <- E in Hread. rewrite Hread. reflexivity.
      * rewrite Hread. reflexivity.
Qed.

(** X3.  An array with fewer columns than rows makes [get_ising_matrix]
    raise [IndexError]: the loops run over the number of rows in both
    directions. *)
Theorem get_ising_matrix_few_columns (m : nat) (qubo_mat : matrix) :
  (forall row, In row qubo_mat -> length row = m) ->
  (m < length qubo_mat)%nat ->
  get_ising_matrix qubo_mat = Raise IndexError.
Proof.
  intros Hrect Hm.
  destruct qubo_mat as [|row rest]; [simpl in Hm; lia|].
  apply (@short_row_raises (row :: rest) row).
  - left. reflexivity.
  - rewrite (Hrect row) by (left; reflexivity). exact Hm.
Qed.

End IsingMatrixMore.

(* ================================================================== *)
(** * max_cut.py: get_Qmatrix past the adjacency matrix *)
(* ================================================================== *)

Module QuboCutFacts.
Import Np NpFacts Nx Common MaxCutApp Energy SumFacts Cut LoopBodies
       QmatrixFacts CutFacts IsingOffsetFacts RaiseFacts.


(** X6.  With [_node_num] larger than the number of nodes of the graph the
    loop of [get_Qmatrix] runs off the adjacency matrix: [IndexError]. *)
Theorem get_Qmatrix_node_num_too_large (self : MaxCut) (A : matrix) :
  adjacency_matrix (_graph self) = Ok A ->
  (length (nodes (_graph self)) < _node_num self)%nat ->
  get_Qmatrix self = Raise IndexError.
Proof.
  intros HA Hlt. unfold get_Qmatrix. rewrite HA. simpl.
  pose proof (adjacency_matrix_square _ HA) as Hsq.
  set (n := length (nodes (_graph self))) in *.
  assert (Hsplit : range (_node_num self)
                   = range n ++ seq n (_node_num self - n)).
  { unfold range. rewrite <- seq_app. f_equal. lia. }
  rewrite Hsplit, for_app.
  destruct (for_fold_inv (square n) (range n)
              (fun i qubo_mat =>
                 row <- getitem A i ;;
                 aii <- getitem2 A i i ;;
                 setitem2 qubo_mat i i (- (Np.sum row - aii)))
              (fun m i => mset m i i (qubo_diag A i))) with (s := A)
    as [E _].
  - intros i m Hi Hm. apply in_seq in Hi.
    rewrite (getitem_mrow Hsq) by lia. simpl.
    rewrite (getitem2_mget Hsq) by lia. simpl.
    rewrite (setitem2_mset _ Hm) by lia.
    split; [reflexivity | apply square_mset; exact Hm].
  - exact Hsq.
  - rewrite E. simpl.
    destruct (_node_num self - n)%nat as [|k] eqn:Ek; [lia|].
    simpl. rewrite (getitem_overflow A) by (destruct Hsq; lia). reflexivity.
Qed.

End QuboCutFacts.

(* ================================================================== *)
(** * max_cut.py: run, end to end *)
(* ================================================================== *)

Module RunMore.
Import Np NpFacts Nx NxFacts Common MaxCutApp Energy SumFacts LoopBodies
       IsingMatrixFacts QmatrixFacts WeightsGraphFacts RunFacts
       IsingOffsetFacts IsingMatrixMore QuboCutFacts.

(** X7.  [run] is idempotent: calling it again on the object it leaves
    behind gives the same outcome and the same object, whether the first
    call returned or raised. *)
Theorem run_idempotent (self : MaxCut) : run (snd (run self)) = run self.
Proof.
  destruct (_qmatrix self) as [q0|] eqn:Hq.
  - rewrite (run_cached _ Hq). simpl. apply (run_cached _ Hq).
  - rewrite (run_fresh _ Hq).
    destruct (get_Qmatrix self) as [q|e] eqn:HQ; simpl.
    + apply run_cached. reflexivity.
    + rewrite (run_fresh _ Hq), HQ. reflexivity.
Qed.


End RunMore.

(* ================================================================== *)
(** * common.py: more about get_most_small_ising *)
(* ================================================================== *)

Module SmallIsingMore.
Import PyDictFacts Nx Common StateEnergy LoopBodies SmallIsingFacts
       SmallIsingSpec RaiseFacts.

(** X10.  [get_most_small_ising] never reads the counts: two dictionaries
    with the same keys in the same order give the same outcome, whatever
    values they hold.  (The state returned is the observed state of least
    energy, not the most frequent one.) *)
Theorem get_most_small_ising_ignores_counts {V W}
        (counts1 : PyDict.dict string V) (counts2 : PyDict.dict string W)
        (ising_g : Graph) :
  PyDict.keys counts1 = PyDict.keys counts2 ->
  get_most_small_ising counts1 ising_g = get_most_small_ising counts2 ising_g.
Proof.
  intros Hkeys. unfold get_most_small_ising, PyDict.items.
  generalize (999999 : Q, @None (list Z)). intros st.
  f_equal. revert counts2 Hkeys st.
  induction counts1 as [|[k v] l IH]; intros [|[k' v'] l'] Hkeys st;
    try discriminate Hkeys.
  - reflexivity.
  - unfold PyDict.keys in Hkeys. simpl in Hkeys.
    injection Hkeys as <- Hrest. destruct st as [m r]. cbn [for_ fst].
    destruct (key_energy (get_node_attributes ising_g)
                         (get_edge_attributes ising_g) k) as [tmp_h|e];
      cbn [bind]; [|reflexivity].
    destruct (Qgt_bool m tmp_h).
    + destruct (comprehension int_of_char (list_ascii_of_string k)) as [res|e];
        cbn [bind]; [|reflexivity].
      apply IH. exact Hrest.
    + apply IH. exact Hrest.
Qed.

Lemma lookup_of_key {K V} `{Hashable K} (d : PyDict.dict K V) k :
  In k (PyDict.keys d) -> exists v, PyDict.lookup d k = Ok v.
Proof.
  intros Hin. apply in_keys_get in Hin. unfold PyDict.lookup.
  destruct (PyDict.get d k) as [v|]; [eauto | congruence].
Qed.

(** The energy loop can only fail with [IndexError]. *)
Lemma key_energy_cases nodew edw key :
  key_energy nodew edw key = Raise IndexError
  \/ exists e, key_energy nodew edw key = Ok e.
Proof.
  unfold key_energy. apply bind_cases.
  - apply for_cases. intros nd acc Hnd.
    destruct (lookup_of_key nodew nd Hnd) as [w ->]. cbn [bind].
    apply bind_cases; [apply getitem_cases|]. intros t. right. eauto.
  - intros acc. apply for_cases. intros ed acc' Hed.
    destruct (fst ed =? snd ed)%nat; [right; eauto|].
    destruct (lookup_of_key edw ed Hed) as [w ->]. cbn [bind].
    apply bind_cases; [apply getitem_cases|]. intros t0.
    apply bind_cases; [apply getitem_cases|]. intros t1. right. eauto.
Qed.

(** X11.  When the keys are bitstrings and one of them is too short to
    index a node that carries a weight, [get_most_small_ising] raises
    [IndexError], even if other keys would have given a state. *)
Theorem get_most_small_ising_short_key {V}
        (state_count : PyDict.dict string V) (ising_g : Graph)
        (key : string) (nd : nat) :
  (forall k, In k (PyDict.keys state_count) -> bitstring k) ->
  In key (PyDict.keys state_count) ->
  In nd (PyDict.keys (get_node_attributes ising_g)) ->
  (String.length key <= nd)%nat ->
  get_most_small_ising state_count ising_g = Raise IndexError.
Proof.
  intros Hbits Hkey Hnd Hshort. unfold get_most_small_ising, PyDict.items.
  apply in_map_iff in Hkey. destruct Hkey as [[key0 val] [Ekey Hin]].
  simpl in Ekey. subst key0.
  rewrite (@for_raises _ _ IndexError state_count _ (key, val)).
  - reflexivity.
  - intros [k v] [m r] Hk. cbn [fst].
    destruct (key_energy_cases (get_node_attributes ising_g)
                               (get_edge_attributes ising_g) k)
      as [-> | [tmp_h ->]]; cbn [bind]; [left; reflexivity|].
    right. destruct (Qgt_bool m tmp_h); [|eauto].
    rewrite (comprehension_bits (Hbits k (in_map fst _ _ Hk))).
    cbn [bind]. eauto.
  - exact Hin.
  - intros [m r]. cbn [fst].
    assert (E : key_energy (get_node_attributes ising_g)
                           (get_edge_attributes ising_g) key
                = Raise IndexError).
    { unfold key_energy.
      rewrite (@for_raises _ _ IndexError
                 (PyDict.keys (get_node_attributes ising_g)) _ nd).
      - reflexivity.
      - intros nd' acc Hnd'.
        destruct (lookup_of_key _ nd' Hnd') as [w ->]. cbn [bind].
        apply bind_cases; [apply getitem_cases|]. intros t. right. eauto.
      - exact Hnd.
      - intros acc.
        destruct (lookup_of_key _ nd Hnd) as [w ->]. cbn [bind].
        rewrite getitem_overflow; [reflexivity|].
        rewrite length_map, length_chars. exact Hshort. }
    rewrite E. reflexivity.
Qed.

End SmallIsingMore.

(* ================================================================== *)
(** * circuitbytensor.py: failures, the register, repeated calls *)
(* ================================================================== *)

Module BackendMore.
Import PyDictFacts Nx Quimb Common Backend Layers Readings Further
       SumExpectationFacts ExpectationFacts RaiseFacts.

Section Evaluator.
Variable local_expectation :
  Circuit -> operator -> list nat -> string -> complex.
Variable cpu_count : nat.

Abbreviation get_expectation := (Backend.get_expectation local_expectation).
Abbreviation calculation :=
  (expectation_calculation local_expectation cpu_count).

(** X14.  A node of the element graph without an entry in [_nodes_weight]
    makes [get_expectation] raise [KeyError] as soon as there is a layer to
    build, whichever element is asked for. *)
Theorem get_expectation_missing_node_weight
        (self : CircuitByTensor) (original_e : element) (graph : Graph)
        (pargs : list Q) (p : nat) (nw : PyDict.dict nat Q) (nd : nat) :
  _pargs self = Some pargs ->
  _p self = Some p ->
  (0 < p)%nat ->
  pargs <> [] ->
  _nodes_weight self = Some nw ->
  In nd (nodes graph) ->
  PyDict.get nw nd = None ->
  get_expectation self (original_e, graph) = Raise KeyError.
Proof.
  intros Hpargs Hp Hpos Hne Hnw Hin Hmiss.
  unfold Backend.get_expectation. rewrite Hpargs, Hp. cbn [unwrap bind].
  destruct p as [|p']; [lia|]. destruct pargs as [|g0 rest]; [congruence|].
  unfold build_circuit, range. cbn [seq for_ firstn].
  rewrite (@for_raises _ _ KeyError (nodes graph) _ nd).
  - reflexivity.
  - intros nd' circ _. cbn [getitem nth_error bind Nat.eqb].
    rewrite Hnw. cbn [unwrap bind]. unfold PyDict.lookup.
    destruct (PyDict.get nw nd'); cbn [bind]; [right; eauto | left; reflexivity].
  - exact Hin.
  - intros circ. cbn [getitem nth_error bind Nat.eqb].
    rewrite Hnw. cbn [unwrap bind]. unfold PyDict.lookup. rewrite Hmiss.
    reflexivity.
Qed.

(** X15.  Before the optimiser has filled the object in, nothing is
    computed: without [_pargs], or with [_pargs] but without [_p],
    [get_expectation] raises [TypeError] for every element; and
    [expectation_calculation] on a newly constructed object raises
    [AttributeError], having set the thread variables and recorded
    nothing. *)
Theorem unset_evaluator_raises :
  (forall self item,
     _pargs self = None -> get_expectation self item = Raise TypeError)
  /\ (forall self item,
        _p self = None -> get_expectation self item = Raise TypeError)
  /\ (forall nw ew opt par proc,
        let self := init nw ew opt par in
        calculation proc self
        = (Raise AttributeError,
           (set_threads proc (if _is_parallel self then 1%nat else cpu_count),
            self))).
Proof.
  split; [|split].
  - intros self [e g] Hpargs. unfold Backend.get_expectation.
    rewrite Hpargs. reflexivity.
  - intros self [e g] Hp. unfold Backend.get_expectation. rewrite Hp.
    destruct (_pargs self); reflexivity.
  - intros nw ew opt par proc self.
    unfold expectation_calculation, expectation_calculation_parallel,
      expectation_calculation_serial.
    destruct par as [[|]|]; reflexivity.
Qed.



(** X18.  Whatever the outcome, [expectation_calculation] leaves the five
    thread variables of the process environment set to the number of
    processors (serial) or to 1 (parallel), and every other variable as it
    was. *)
Theorem expectation_calculation_environment
        (proc : Process) (self : CircuitByTensor) :
  let proc' := fst (snd (calculation proc self)) in
  (forall k, In k thread_variables ->
     PyDict.get (environ proc') k
     = Some (str (if _is_parallel self then 1%nat else cpu_count)))
  /\ (forall k, ~ In k thread_variables ->
        PyDict.get (environ proc') k = PyDict.get (environ proc) k).
Proof.
  intros proc'.
  assert (Henv : environ proc'
                 = environ (set_threads proc
                              (if _is_parallel self then 1%nat else cpu_count))).
  { unfold proc', expectation_calculation, expectation_calculation_parallel,
      expectation_calculation_serial.
    destruct (_is_parallel self).
    - destruct (e2g <- method_of (_element_to_graph self) ;;
                pool_map (get_expectation self) (PyDict.items e2g));
        reflexivity.
    - destruct (e2g <- method_of (_element_to_graph self) ;;
                for_ (PyDict.items e2g)
                     (fun item res => e <- get_expectation self item ;;
                                      Ok (res + e)) 0);
        reflexivity. }
  rewrite Henv. unfold set_threads. cbn [environ].
  generalize (str (if _is_parallel self then 1%nat else cpu_count)).
  intros v. split.
  - intros k Hk. rewrite !get_set. unfold thread_variables in Hk.
    simpl in Hk.
    destruct Hk as [<- | [<- | [<- | [<- | [<- | []]]]]];
      repeat (match goal with
              | |- context [key_eq_dec ?a ?b] =>
                  let E := fresh "E" in
                  let N := fresh "N" in
                  destruct (key_eq_dec a b) as [E | N];
                  [try discriminate E | try (exfalso; apply N; reflexivity)]
              end);
      reflexivity.
  - intros k Hk. rewrite !get_set. unfold thread_variables in Hk.
    simpl in Hk.
    repeat (match goal with
            | |- context [key_eq_dec ?a ?b] =>
                let E := fresh "E" in
                let N := fresh "N" in
                destruct (key_eq_dec a b) as [E | N];
                [exfalso; apply Hk; rewrite E; auto 10 |]
            end).
    reflexivity.
Qed.

End Evaluator.

End BackendMore.

Module RegisterFacts.
Import PyDictFacts Nx Quimb Common Backend Layers Readings ExpectationFacts.

Lemma qubit_in_register graph nd :
  NoDup (nodes graph) -> In nd (nodes graph) ->
  (qubit graph nd < length (nodes graph))%nat.
Proof.
  intros Hnd Hin. destruct (In_nth_error _ _ Hin) as [i Hi].
  unfold qubit. rewrite (qubit_of_position i Hnd Hi).
  apply nth_error_Some. congruence.
Qed.

Section Count.
Variables gamma beta : nat -> Q.
Variable nodes_weight : nat -> Q.
Variable edges_weight : nat * nat -> Q.
Variable qubit : nat -> nat.
Variable nodes : list nat.
Variable edges : list (nat * nat).

Abbreviation a_layer :=
  (applied_layer gamma beta nodes_weight edges_weight qubit nodes edges).

Lemma applied_layer_length k :
  length (a_layer k)
  = ((if (k =? 0)%nat then length nodes else 0)
     + (2 * length nodes + length (proper_edges qubit edges)))%nat.
Proof.
  unfold applied_layer. rewrite !length_app, !length_map.
  assert (E : length (flat_map
                        (fun nd => (if (k =? 0)%nat
                                    then [H_on qubit nd] else [])
                                   ++ [rz_on gamma nodes_weight qubit k nd])
                        nodes)
              = ((if (k =? 0)%nat then length nodes else 0) + length nodes)%nat).
  { induction nodes as [|a l IH]; simpl.
    - destruct (k =? 0)%nat; reflexivity.
    - rewrite length_app, IH. destruct (k =? 0)%nat; simpl; lia. }
  rewrite E. lia.
Qed.

Lemma applied_layers_length a p :
  length (flat_map a_layer (seq a p))
  = ((if ((a =? 0) && negb (p =? 0))%nat then length nodes else 0)
     + p * (2 * length nodes + length (proper_edges qubit edges)))%nat.
Proof.
  revert a. induction p as [|p IH]; intros a.
  - simpl. rewrite andb_false_r. reflexivity.
  - cbn [seq flat_map]. rewrite length_app, applied_layer_length, IH.
    cbn [Nat.eqb negb]. rewrite andb_true_r. simpl. lia.
Qed.

End Count.

(** X16.  The circuit [get_expectation] builds stays inside its register and
    has a fixed size: on a graph with [n] distinct nodes whose edges join
    nodes of the graph, every gate acts on qubits below [n], and there are
    [n] Hadamard gates (when there is a layer at all) plus, per layer, [n]
    rz, one RZZ per edge between different qubits and [n] rx gates. *)
Theorem build_circuit_register
        (self : CircuitByTensor) (graph : Graph) (pargs : list Q) (p : nat)
        (nw : PyDict.dict nat Q) (ew : PyDict.dict (nat * nat) Q) :
  length pargs = (2 * p)%nat ->
  _nodes_weight self = Some nw ->
  _edges_weight self = Some ew ->
  NoDup (nodes graph) ->
  (forall nd, In nd (nodes graph) -> PyDict.get nw nd <> None) ->
  (forall edge, In edge (edges graph) ->
     qubit graph (fst edge) <> qubit graph (snd edge) ->
     PyDict.get ew edge <> None) ->
  (forall edge, In edge (edges graph) ->
     In (fst edge) (nodes graph) /\ In (snd edge) (nodes graph)) ->
  exists circ : Circuit,
    build_circuit self graph (build_node_to_qubit (nodes graph))
                  (firstn p pargs) (skipn p pargs) p
                  (new_circuit (length (nodes graph)))
    = Ok circ
    /\ N circ = length (nodes graph)
    /\ (forall g q, In g (gates circ) -> In q (qubits g) ->
          (q < N circ)%nat)
    /\ length (gates circ)
       = ((if (p =? 0)%nat then 0 else length (nodes graph))
          + p * (2 * length (nodes graph)
                 + length (proper_edges (qubit graph) (edges graph))))%nat.
Proof.
  intros Hlen Hnw Hew Hnodes Hnode_w Hedge_w Hends.
  eexists. split.
  { apply (build_circuit_gates self graph pargs p Hlen Hnw Hew
             Hnode_w Hedge_w). }
  cbn [N gates new_circuit app]. split; [reflexivity|]. split.
  - intros g q Hg Hq. apply in_flat_map in Hg. destruct Hg as [k [_ Hg]].
    unfold applied_layer in Hg.
    apply in_app_or in Hg. destruct Hg as [Hg | Hg];
      [|apply in_app_or in Hg; destruct Hg as [Hg | Hg]].
    + apply in_flat_map in Hg. destruct Hg as [nd [Hnd Hg]].
      assert (Hlt := qubit_in_register graph nd Hnodes Hnd).
      apply in_app_or in Hg. destruct Hg as [Hg | [<- | []]].
      * destruct (k =? 0)%nat; [|destruct Hg].
        destruct Hg as [<- | []]. simpl in Hq. destruct Hq as [<- | []].
        exact Hlt.
      * simpl in Hq. destruct Hq as [<- | []]. exact Hlt.
    + apply in_map_iff in Hg. destruct Hg as [edge [<- Hedge]].
      unfold proper_edges in Hedge. apply filter_In in Hedge.
      destruct Hedge as [Hedge _]. destruct (Hends edge Hedge) as [H1 H2].
      simpl in Hq. destruct Hq as [<- | [<- | []]];
        apply qubit_in_register; assumption.
    + apply in_map_iff in Hg. destruct Hg as [nd [<- Hnd]].
      simpl in Hq. destruct Hq as [<- | []].
      apply qubit_in_register; assumption.
  - unfold range. rewrite applied_layers_length. cbn [Nat.eqb andb].
    destruct (p =? 0)%nat; reflexivity.
Qed.

End RegisterFacts.

(* ================================================================== *)
(** * common.py: get_weights_graph on the nodes of a given graph *)
(* ================================================================== *)

Module RelabelFacts.
Import PyDictFacts Np NpFacts Nx NxFacts Common Energy LoopBodies Further
       WeightsGraphFacts.

(** The node map built from the node list of the graph passed in: position
    [i] reads the [i]-th node, and a position beyond the list reads 0. *)
Lemma node_map_of_list (node_list : list nat) i :
  node_map_get
    (fold_left (fun nm k => PyDict.set nm k (nth k node_list 0%nat))
               (range (length node_list)) PyDict.empty) i
  = nth i node_list 0%nat.
Proof.
  unfold node_map_get.
  destruct (Nat.lt_ge_cases i (length node_list)) as [Hi|Hi].
  - assert (E : PyDict.get
                  (fold_left (fun nm k => PyDict.set nm k (nth k node_list 0%nat))
                             (range (length node_list)) PyDict.empty) i
                = Some (nth i node_list 0%nat)).
    { apply (fold_establish (fun _ => True)
               (fun nm => PyDict.get nm i = Some (nth i node_list 0%nat))
               (fun nm k => PyDict.set nm k (nth k node_list 0%nat)) i); auto.
      - intros nm _. apply get_set_same.
      - intros nm k _ _ HP. rewrite get_set.
        destruct (key_eq_dec i k) as [->|N]; [reflexivity | exact HP].
      - apply in_seq. lia. }
    rewrite E. reflexivity.
  - assert (E : PyDict.get
                  (fold_left (fun nm k => PyDict.set nm k (nth k node_list 0%nat))
                             (range (length node_list)) PyDict.empty) i
                = None).
    { apply (fold_invariant (fun nm => PyDict.get nm i = None)).
      - intros nm k Hk HP. apply in_seq in Hk.
        rewrite get_set_other by lia. exact HP.
      - reflexivity. }
    rewrite E. rewrite nth_overflow by exact Hi. reflexivity.
Qed.

Lemma get_weights_graph_fold_as n (ising_mat : matrix) (graph : Graph) :
  square n ising_mat ->
  get_weights_graph ising_mat (Some graph)
  = Ok (fold_left (visit_as (fun i => nth i (nodes graph) 0%nat) ising_mat)
                  (cells n) empty_graph).
Proof.
  intros Hsq. unfold get_weights_graph, size0.
  assert (Hn : length ising_mat = n) by (destruct Hsq; assumption).
  rewrite Hn. rewrite <- fold_nested.
  apply for_fold. intros i g Hi. apply in_seq in Hi.
  apply for_fold. intros j g' Hj. apply in_seq in Hj.
  unfold visit_as. rewrite !node_map_of_list.
  destruct (i =? j)%nat.
  - rewrite (getitem2_mget Hsq) by lia. reflexivity.
  - rewrite (getitem2_mget Hsq) by lia. cbn [bind].
    destruct (Qle_bool (Qabs (mget ising_mat i j - 0)) eps); reflexivity.
Qed.

Lemma wf_visit_as label M g c : wf g -> wf (visit_as label M g c).
Proof.
  intros Hwf. destruct c as [i j]. unfold visit_as.
  destruct (i =? j)%nat; [apply wf_add_node; exact Hwf|].
  destruct (Qle_bool _ eps); [exact Hwf | apply wf_add_edge; exact Hwf].
Qed.

(** [add_edge] never removes an edge. *)
Lemma add_edge_keeps_edge g u v w x y :
  wf g -> has_edge g x y = true -> has_edge (add_edge g u v (Some w)) x y = true.
Proof.
  intros Hwf H. unfold has_edge in *.
  destruct (Nat.eq_dec x u) as [Exu|Nxu]; destruct (Nat.eq_dec y v) as [Eyv|Nyv];
    destruct (Nat.eq_dec x v) as [Exv|Nxv]; destruct (Nat.eq_dec y u) as [Eyu|Nyu];
    try (rewrite Exu, Eyv;
         rewrite (proj1 (add_edge_data_hit u v w Hwf)); reflexivity);
    try (rewrite Exv, Eyu;
         rewrite (proj2 (add_edge_data_hit u v w Hwf)); reflexivity);
    (rewrite add_edge_data_miss by (try exact Hwf; tauto); exact H).
Qed.

Section Loop.
Variable n : nat.
Variable M : matrix.
Variable label : nat -> nat.
Hypothesis Hsym : symmetric M.
Hypothesis Hinj :
  forall i j, (i < n)%nat -> (j < n)%nat -> label i = label j -> i = j.

Let G := fold_left (visit_as label M) (cells n) empty_graph.

Lemma relabel_nodes_bounded v :
  has_node G v = true -> exists i, (i < n)%nat /\ v = label i.
Proof.
  revert v.
  apply (fold_invariant
           (fun g => forall v, has_node g v = true ->
                               exists i, (i < n)%nat /\ v = label i)).
  - intros g [i j] Hin Hg v. apply in_cells in Hin. unfold visit_as.
    destruct (i =? j)%nat.
    + rewrite add_node_has_node, orb_true_iff, Nat.eqb_eq.
      intros [H | ->]; [apply Hg; exact H | exists i; split; [lia | reflexivity]].
    + destruct (Qle_bool _ eps); [apply Hg|].
      rewrite add_edge_has_node, !orb_true_iff, !Nat.eqb_eq.
      intros [[H | ->] | ->];
        [apply Hg; exact H | exists i | exists j]; split; try reflexivity; lia.
  - intros v. discriminate.
Qed.

Lemma relabel_nodes_present i : (i < n)%nat -> has_node G (label i) = true.
Proof.
  intros Hi.
  apply (fold_establish (fun _ => True) (fun g => has_node g (label i) = true)
           (visit_as label M) (i, i)); auto.
  - intros g _. unfold visit_as. rewrite Nat.eqb_refl.
    rewrite add_node_has_node, Nat.eqb_refl. apply orb_true_r.
  - intros g [a b] _ _ HP. unfold visit_as.
    destruct (a =? b)%nat.
    + rewrite add_node_has_node, HP. reflexivity.
    + destruct (Qle_bool _ eps); [exact HP|].
      rewrite add_edge_has_node, HP. reflexivity.
  - apply in_cells. split; exact Hi.
Qed.

Lemma relabel_node_weight i :
  (i < n)%nat -> node_weight G (label i) = Some (mget M i i).
Proof.
  intros Hi.
  apply (fold_establish (fun _ => True)
           (fun g => node_weight g (label i) = Some (mget M i i))
           (visit_as label M) (i, i)); auto.
  - intros g _. unfold visit_as. rewrite Nat.eqb_refl.
    apply add_node_weight_same.
  - intros g [a b] Hin _ HP. apply in_cells in Hin. unfold visit_as.
    destruct (Nat.eqb_spec a b) as [<-|Nab].
    + destruct (Nat.eq_dec (label i) (label a)) as [E|N].
      * assert (i = a) by (apply Hinj; [lia | lia | exact E]). subst a.
        apply add_node_weight_same.
      * rewrite add_node_weight_other by exact N. exact HP.
    + destruct (Qle_bool _ eps); [exact HP|].
      rewrite add_edge_weight. exact HP.
  - apply in_cells. split; exact Hi.
Qed.

Lemma relabel_edges_sound x y a :
  get_edge_data G x y = Some a ->
  exists i j,
    (i < n)%nat /\ (j < n)%nat /\ x = label i /\ y = label j /\ i <> j
    /\ makes_edge (mget M i j)
    /\ exists w, a = Some w /\ w == mget M i j.
Proof.
  revert x y a.
  apply (fold_invariant (fun g => wf g /\ forall x y a,
           get_edge_data g x y = Some a ->
           exists i j,
             (i < n)%nat /\ (j < n)%nat /\ x = label i /\ y = label j /\ i <> j
             /\ makes_edge (mget M i j)
             /\ exists w, a = Some w /\ w == mget M i j)).
  - intros g [i j] Hin [Hwf Hg]. split; [apply wf_visit_as; exact Hwf|].
    apply in_cells in Hin. intros x y a. unfold visit_as.
    destruct (Nat.eqb_spec i j) as [<-|Nij].
    + rewrite add_node_edge_data by exact Hwf. apply Hg.
    + destruct (Qle_bool _ eps) eqn:Hth; [apply Hg|].
      apply threshold_test in Hth.
      destruct (Nat.eq_dec x (label i)) as [Exi|Nxi];
        [destruct (Nat.eq_dec y (label j)) as [Eyj|Nyj]|].
      * subst x y.
        rewrite (proj1 (add_edge_data_hit (label i) (label j) (mget M i j) Hwf)).
        intros E. injection E as <-. exists i, j.
        repeat split; try lia; try exact Hth.
        exists (mget M i j). split; reflexivity.
      * destruct (Nat.eq_dec x (label j)) as [Exj|Nxj];
          [destruct (Nat.eq_dec y (label i)) as [Eyi|Nyi]|].
        -- clear Exi. subst x y.
           rewrite (proj2 (add_edge_data_hit (label i) (label j)
                             (mget M i j) Hwf)).
           intros E. injection E as <-. exists j, i.
           repeat split; try lia.
           ++ apply (makes_edge_wd (Hsym i j)). exact Hth.
           ++ exists (mget M i j). split; [reflexivity | apply Hsym].
        -- rewrite add_edge_data_miss by (try exact Hwf; tauto). apply Hg.
        -- rewrite add_edge_data_miss by (try exact Hwf; tauto). apply Hg.
      * destruct (Nat.eq_dec x (label j)) as [Exj|Nxj];
          [destruct (Nat.eq_dec y (label i)) as [Eyi|Nyi]|].
        -- subst x y.
           rewrite (proj2 (add_edge_data_hit (label i) (label j)
                             (mget M i j) Hwf)).
           intros E. injection E as <-. exists j, i.
           repeat split; try lia.
           ++ apply (makes_edge_wd (Hsym i j)). exact Hth.
           ++ exists (mget M i j). split; [reflexivity | apply Hsym].
        -- rewrite add_edge_data_miss by (try exact Hwf; tauto). apply Hg.
        -- rewrite add_edge_data_miss by (try exact Hwf; tauto). apply Hg.
  - split; [apply wf_empty|]. intros x y a. discriminate.
Qed.

Lemma relabel_edges_complete i j :
  (i < n)%nat -> (j < n)%nat -> i <> j -> makes_edge (mget M i j) ->
  has_edge G (label i) (label j) = true.
Proof.
  intros Hi Hj Nij Hbig.
  apply (fold_establish wf (fun g => has_edge g (label i) (label j) = true)
           (visit_as label M) (i, j)).
  - intros g c _ Hg. apply wf_visit_as. exact Hg.
  - intros g Hwf. unfold visit_as.
    apply Nat.eqb_neq in Nij. rewrite Nij.
    apply threshold_test in Hbig. rewrite Hbig.
    unfold has_edge.
    rewrite (proj1 (add_edge_data_hit (label i) (label j) (mget M i j) Hwf)).
    reflexivity.
  - intros g [a b] _ Hwf HP. unfold visit_as.
    destruct (a =? b)%nat.
    + unfold has_edge. rewrite add_node_edge_data by exact Hwf. exact HP.
    + destruct (Qle_bool _ eps); [exact HP|].
      apply add_edge_keeps_edge; assumption.
  - apply in_cells. split; assumption.
  - apply wf_empty.
Qed.

End Loop.

(** X12.  [get_weights_graph(M, graph)] with a graph of [n] distinct nodes
    and a symmetric [n] by [n] matrix builds a new graph on the same node
    labels: the [i]-th node of [graph] gets weight [M[i][i]], and the
    [i]-th and [j]-th nodes are joined exactly when [i <> j] and
    [|M[i][j]| > 1e-8], by an edge of weight [M[i][j]].  Nothing else of
    [graph] (its edges, its weights) reaches the result. *)
Theorem get_weights_graph_relabels (n : nat) (M : matrix) (graph : Graph) :
  square n M ->
  symmetric M ->
  length (nodes graph) = n ->
  NoDup (nodes graph) ->
  let label := fun i => nth i (nodes graph) 0%nat in
  exists G,
    get_weights_graph M (Some graph) = Ok G
    /\ (forall v, In v (nodes G) <-> In v (nodes graph))
    /\ (forall i, (i < n)%nat -> node_weight G (label i) = Some (mget M i i))
    /\ (forall i j, (i < n)%nat -> (j < n)%nat ->
          (has_edge G (label i) (label j) = true
           <-> (i <> j /\ eps < Qabs (mget M i j))))
    /\ (forall u v a,
          get_edge_data G u v = Some a ->
          exists i j w,
            (i < n)%nat /\ (j < n)%nat /\ u = label i /\ v = label j
            /\ a = Some w /\ w == mget M i j).
Proof.
  intros Hsq Hsym Hlen Hnd label.
  assert (Hinj : forall i j, (i < n)%nat -> (j < n)%nat ->
                   label i = label j -> i = j).
  { intros i j Hi Hj E. apply (proj1 (NoDup_nth (nodes graph) 0%nat) Hnd);
      try lia. exact E. }
  eexists. split; [apply (get_weights_graph_fold_as graph Hsq)|].
  fold label. split; [|split; [|split]].
  - intros v. rewrite <- has_node_in. split.
    + intros H. destruct (relabel_nodes_bounded n M label _ H) as [i [Hi ->]].
      apply nth_In. lia.
    + intros H. destruct (In_nth _ _ 0%nat H) as [i [Hi <-]].
      change (nth i (nodes graph) 0%nat) with (label i).
      apply relabel_nodes_present. lia.
  - intros i Hi. apply relabel_node_weight; assumption.
  - intros i j Hi Hj. split.
    + unfold has_edge.
      destruct (get_edge_data _ (label i) (label j)) as [a|] eqn:E;
        [|discriminate].
      intros _.
      destruct (relabel_edges_sound n label Hsym _ _ E)
        as (i' & j' & Hi' & Hj' & Ei & Ej & Nij & Hb & _).
      apply Hinj in Ei; try assumption. apply Hinj in Ej; try assumption.
      subst i' j'. split; assumption.
    + intros [Nij Hb]. apply relabel_edges_complete; assumption.
  - intros u v a E.
    destruct (relabel_edges_sound n label Hsym _ _ E)
      as (i & j & Hi & Hj & Eu & Ev & _ & _ & w & Ha & Hw).
    exists i, j, w. repeat split; assumption.
Qed.

End RelabelFacts.

(* ================================================================== *)
(** * common.py: random_regular_graph *)
(* ================================================================== *)

Module RandomGraphFacts.
Import PyDictFacts Nx NxFacts LoopBodies MaxCutApp RandomGraph RelabelFacts.

Lemma in_enumerate {A} (l : list A) k a :
  In (k, a) (enumerate l) -> (k < length l)%nat /\ In a l.
Proof.
  unfold enumerate. intros H. split.
  - apply in_combine_l in H. apply in_seq in H. lia.
  - apply in_combine_r in H. exact H.
Qed.

Lemma enumerate_visits {A} (l : list A) a :
  In a l -> exists k, In (k, a) (enumerate l).
Proof.
  unfold enumerate. generalize 0%nat.
  induction l as [|b l IH]; intros s Hin; [destruct Hin|].
  simpl. destruct Hin as [->|Hin].
  - exists s. left. reflexivity.
  - destruct (IH (S s) Hin) as [k Hk]. exists k. right. exact Hk.
Qed.

Lemma touch_present g u : has_node g u = true -> touch g u = g.
Proof. unfold touch, has_node. intros ->. reflexivity. Qed.

Lemma add_edge_nodes_keep g u v a :
  has_node g u = true -> has_node g v = true ->
  nodes (add_edge g u v a) = nodes g.
Proof.
  intros Hu Hv. unfold add_edge. cbv zeta. unfold nodes. cbn [_node].
  rewrite (@touch_present g u Hu), (@touch_present g v Hv). reflexivity.
Qed.

Lemma add_node_nodes_keep g n a :
  has_node g n = true -> nodes (add_node g n a) = nodes g.
Proof.
  unfold has_node, add_node, nodes. intros H.
  assert (Hm := H). unfold PyDict.mem in H.
  destruct (PyDict.get (_node g) n) as [old|]; [|discriminate].
  cbn [_node]. rewrite keys_set, Hm. reflexivity.
Qed.

Lemma add_edge_has_edge g u v w x y :
  wf g ->
  has_edge (add_edge g u v (Some w)) x y
  = has_edge g x y || ((x =? u)%nat && (y =? v)%nat)
    || ((x =? v)%nat && (y =? u)%nat).
Proof.
  intros Hwf. unfold has_edge.
  destruct (Nat.eqb_spec x u) as [Exu|Nxu]; destruct (Nat.eqb_spec y v) as [Eyv|Nyv];
    destruct (Nat.eqb_spec x v) as [Exv|Nxv]; destruct (Nat.eqb_spec y u) as [Eyu|Nyu];
    cbn [andb orb]; rewrite ?orb_true_r, ?orb_false_r;
    try (rewrite Exu, Eyv;
         rewrite (proj1 (add_edge_data_hit u v w Hwf)); reflexivity);
    try (rewrite Exv, Eyu;
         rewrite (proj2 (add_edge_data_hit u v w Hwf)); reflexivity);
    (rewrite add_edge_data_miss by (try exact Hwf; tauto); reflexivity).
Qed.

Section Weights.
Variable rnd : Draws.
Variable negative_weight : bool.
Variable g : Graph.
Hypothesis Hwf : wf g.
Hypothesis Hcons : consistent g.

Let m := length (edges g).

Let weigh_edge := fun (g : Graph) '((k, e) : nat * (nat * nat)) =>
  let w := weight_at rnd negative_weight k in
  add_edge g (fst e) (snd e) (Some w).

Let weigh_node := fun (g : Graph) '((k, e) : nat * nat) =>
  let w := weight_at rnd negative_weight (m + k) in
  add_edge (add_node g e (Some w)) e e (Some w).

Let g1 := fold_left weigh_edge (enumerate (edges g)) g.
Let g2 := fold_left weigh_node (enumerate (nodes g1)) g1.

(** The edge [(u, v)] carries, from both ends, a weight drawn in the first
    loop. *)
Let weighted (u v : nat) (h : Graph) : Prop :=
  exists k, (k < m)%nat
    /\ get_edge_data h u v = Some (Some (weight_at rnd negative_weight k))
    /\ get_edge_data h v u = Some (Some (weight_at rnd negative_weight k)).

(** The node [v] carries a weight drawn in the second loop, and a self-loop
    of the same weight. *)
Let looped (v : nat) (h : Graph) : Prop :=
  exists k, (m <= k < m + length (nodes g))%nat
    /\ node_weight h v = Some (weight_at rnd negative_weight k)
    /\ get_edge_data h v v = Some (Some (weight_at rnd negative_weight k)).

Let frame1 (h : Graph) : Prop :=
  wf h /\ nodes h = nodes g /\ forall x y, has_edge h x y = has_edge g x y.

Let frame2 (h : Graph) : Prop :=
  wf h /\ nodes h = nodes g
  /\ forall x y, x <> y -> has_edge h x y = has_edge g x y.

Lemma has_node_same h v : nodes h = nodes g -> has_node h v = has_node g v.
Proof.
  intros E. destruct (has_node g v) eqn:Hg.
  - apply has_node_in. rewrite E. apply has_node_in. exact Hg.
  - destruct (has_node h v) eqn:Hh; [|reflexivity].
    apply has_node_in in Hh. rewrite E in Hh. apply has_node_in in Hh.
    congruence.
Qed.

Lemma weigh_edge_frame h c :
  In c (enumerate (edges g)) -> frame1 h -> frame1 (weigh_edge h c).
Proof.
  destruct c as [k [u v]]. intros Hin (Hw & Hn & He).
  apply in_enumerate in Hin. destruct Hin as [_ Hin].
  destruct (Hcons _ _ Hin) as (Hu & Hv & Huv & Hvu).
  unfold weigh_edge. cbn [fst snd]. split; [|split].
  - apply wf_add_edge. exact Hw.
  - rewrite add_edge_nodes_keep; [exact Hn | |];
      rewrite (@has_node_same _ _ Hn); assumption.
  - intros x y. rewrite add_edge_has_edge by exact Hw. rewrite He.
    destruct (Nat.eqb_spec x u) as [E1|N1]; destruct (Nat.eqb_spec y v) as [E2|N2];
      destruct (Nat.eqb_spec x v) as [E3|N3]; destruct (Nat.eqb_spec y u) as [E4|N4];
      cbn [andb]; rewrite ?orb_false_r, ?orb_true_r; cbn [orb];
      try reflexivity;
      try (rewrite E1, E2; symmetry; exact Huv);
      try (rewrite E3, E4; symmetry; exact Hvu).
Qed.

Lemma first_loop_frame : frame1 g1.
Proof.
  apply (fold_invariant frame1).
  - intros h c Hin Hh. apply weigh_edge_frame; assumption.
  - split; [exact Hwf | split; [reflexivity | reflexivity]].
Qed.

Lemma first_loop_weighted u v : In (u, v) (edges g) -> weighted u v g1.
Proof.
  intros Hin. destruct (enumerate_visits _ _ Hin) as [k Hk].
  apply (fold_establish frame1 (weighted u v) weigh_edge (k, (u, v))).
  - intros h c Hc Hh. apply weigh_edge_frame; assumption.
  - intros h (Hw & _). unfold weigh_edge. cbn [fst snd].
    exists k. split; [apply in_enumerate in Hk; apply Hk|].
    apply add_edge_data_hit. exact Hw.
  - intros h [k' [a b]] Hc (Hw & _) (k0 & Hk0 & H1 & H2).
    unfold weigh_edge. cbn [fst snd].
    destruct (Nat.eq_dec u a) as [Eua|Nua];
      destruct (Nat.eq_dec v b) as [Evb|Nvb];
      destruct (Nat.eq_dec u b) as [Eub|Nub];
      destruct (Nat.eq_dec v a) as [Eva|Nva];
      try (exists k'; split; [apply in_enumerate in Hc; apply Hc|];
           rewrite Eua, Evb; apply add_edge_data_hit; exact Hw);
      try (exists k'; split; [apply in_enumerate in Hc; apply Hc|];
           rewrite Eub, Eva; apply and_comm; apply add_edge_data_hit; exact Hw);
      (exists k0; split; [exact Hk0|];
       rewrite !add_edge_data_miss by (try exact Hw; tauto);
       split; assumption).
  - exact Hk.
  - split; [exact Hwf | split; [reflexivity | reflexivity]].
Qed.

Lemma frame1_frame2 h : frame1 h -> frame2 h.
Proof. intros (Hw & Hn & He). split; [|split]; auto. Qed.

Lemma weigh_node_frame h c :
  In c (enumerate (nodes g1)) -> frame2 h -> frame2 (weigh_node h c).
Proof.
  destruct c as [k e]. intros Hin (Hw & Hn & He).
  apply in_enumerate in Hin. destruct Hin as [_ Hin].
  destruct first_loop_frame as (_ & Hn1 & _). rewrite Hn1 in Hin.
  assert (He' : has_node h e = true).
  { rewrite (@has_node_same _ _ Hn). apply has_node_in. exact Hin. }
  unfold weigh_node. cbv zeta. split; [|split].
  - apply wf_add_edge, wf_add_node. exact Hw.
  - assert (Hb : has_node (add_node h e
                    (Some (weight_at rnd negative_weight (m + k)))) e = true).
    { rewrite add_node_has_node, He'. reflexivity. }
    rewrite add_edge_nodes_keep by exact Hb.
    rewrite add_node_nodes_keep by exact He'. exact Hn.
  - intros x y Nxy. rewrite add_edge_has_edge by (apply wf_add_node; exact Hw).
    unfold has_edge at 1. rewrite add_node_edge_data by exact Hw.
    fold (has_edge h x y). rewrite He by exact Nxy.
    destruct (Nat.eqb_spec x e) as [->|]; destruct (Nat.eqb_spec y e) as [->|];
      cbn [andb orb]; rewrite ?orb_false_r; try reflexivity.
    congruence.
Qed.

Lemma second_loop_frame : frame2 g2.
Proof.
  apply (fold_invariant frame2).
  - intros h c Hin Hh. apply weigh_node_frame; assumption.
  - apply frame1_frame2, first_loop_frame.
Qed.

Lemma second_loop_weighted u v :
  In (u, v) (edges g) -> u <> v -> weighted u v g2.
Proof.
  intros Hin Nuv.
  apply (fold_invariant (fun h => wf h /\ weighted u v h)).
  - intros h [k e] _ (Hw & k0 & Hk0 & H1 & H2). unfold weigh_node. cbv zeta.
    split; [apply wf_add_edge, wf_add_node; exact Hw|].
    exists k0. split; [exact Hk0|].
    rewrite !add_edge_data_miss
      by (try (apply wf_add_node; exact Hw); intros [? ?]; congruence).
    rewrite !add_node_edge_data by exact Hw. split; assumption.
  - split; [apply first_loop_frame | apply first_loop_weighted; exact Hin].
Qed.

Lemma second_loop_looped v : In v (nodes g) -> looped v g2.
Proof.
  intros Hin. destruct first_loop_frame as (Hw1 & Hn1 & _).
  rewrite <- Hn1 in Hin.
  destruct (enumerate_visits _ _ Hin) as [k Hk].
  apply (fold_establish wf (looped v) weigh_node (k, v)).
  - intros h [k' e] _ Hw. unfold weigh_node. cbv zeta.
    apply wf_add_edge, wf_add_node. exact Hw.
  - intros h Hw. unfold weigh_node. cbv zeta. exists (m + k)%nat.
    split; [apply in_enumerate in Hk; rewrite Hn1 in Hk; lia|].
    split.
    + rewrite add_edge_weight. apply add_node_weight_same.
    + apply add_edge_data_hit. apply wf_add_node. exact Hw.
  - intros h [k' e] Hc Hw (k0 & Hk0 & H1 & H2). unfold weigh_node. cbv zeta.
    destruct (Nat.eq_dec v e) as [<-|Nve].
    + exists (m + k')%nat.
      split; [apply in_enumerate in Hc; rewrite Hn1 in Hc; lia|].
      split.
      * rewrite add_edge_weight. apply add_node_weight_same.
      * apply add_edge_data_hit. apply wf_add_node. exact Hw.
    + exists k0. split; [exact Hk0|]. split.
      * rewrite add_edge_weight, add_node_weight_other by exact Nve. exact H1.
      * rewrite add_edge_data_miss
          by (try (apply wf_add_node; exact Hw); intros [? ?]; congruence).
        rewrite add_node_edge_data by exact Hw. exact H2.
  - exact Hk.
  - exact Hw1.
Qed.

Lemma loops_result node_num degree weight_range :
  ((node_num * degree) mod 2 = 0)%Z ->
  0 <= weight_range ->
  random_regular_graph node_num degree weight_range negative_weight (Ok g) rnd
  = Ok g2.
Proof.
  intros Hpar Hwr. unfold random_regular_graph.
  apply Z.eqb_eq in Hpar. rewrite Hpar.
  apply Qle_bool_iff in Hwr. rewrite Hwr. reflexivity.
Qed.

End Weights.

(** X13.  When both assertions hold and networkx returns a graph,
    [random_regular_graph] returns that graph with weights: the nodes are the
    same, in the same order; two different nodes are joined exactly when they
    were; every edge between different nodes has, from both ends, one of the
    weights drawn for the edges; and every node has one of the weights drawn
    for the nodes together with a self-loop of that same weight, so the
    result is not the regular graph networkx drew. *)
Theorem random_regular_graph_weights
        (node_num degree : Z) (weight_range : Q) (negative_weight : bool)
        (generated : result Graph) (rnd : Draws) (g : Graph) :
  ((node_num * degree) mod 2 = 0)%Z ->
  0 <= weight_range ->
  generated = Ok g ->
  wf g ->
  consistent g ->
  exists G,
    random_regular_graph node_num degree weight_range negative_weight
                         generated rnd = Ok G
    /\ nodes G = nodes g
    /\ (forall x y, x <> y -> has_edge G x y = has_edge g x y)
    /\ (forall u v, In (u, v) (edges g) -> u <> v ->
          exists k, (k < length (edges g))%nat
            /\ get_edge_data G u v
               = Some (Some (weight_at rnd negative_weight k))
            /\ get_edge_data G v u
               = Some (Some (weight_at rnd negative_weight k)))
    /\ (forall v, In v (nodes g) ->
          exists k,
            (length (edges g) <= k < length (edges g) + length (nodes g))%nat
            /\ node_weight G v = Some (weight_at rnd negative_weight k)
            /\ get_edge_data G v v
               = Some (Some (weight_at rnd negative_weight k))).
Proof.
  intros Hpar Hwr -> Hwf Hcons.
  eexists. split; [apply loops_result; assumption|].
  destruct (@second_loop_frame rnd negative_weight g Hwf Hcons)
    as (_ & Hn & He).
  split; [exact Hn|]. split; [exact He|]. split.
  - intros u v Hin Nuv.
    exact (@second_loop_weighted rnd negative_weight g Hwf Hcons u v Hin Nuv).
  - intros v Hin.
    exact (@second_loop_looped rnd negative_weight g Hwf Hcons v Hin).
Qed.

(** X19.  The constructor [MaxCut(node_num=n, node_degree=d, ...)] raises
    [AssertionError] whenever [n * d] is odd (so, with the default degree 3,
    for every odd [n]) or [weight_range] is negative, whatever networkx
    would have drawn; and it raises what networkx raises otherwise. *)
Theorem init_generated_raises
        (node_num : nat) (node_degree : Z) (weight_range : Q)
        (generated : result Graph) (rnd : Draws) :
  (((Z.of_nat node_num * node_degree) mod 2 <> 0)%Z \/ weight_range < 0 ->
   init_generated node_num node_degree weight_range generated rnd
   = Raise AssertionError)
  /\ (forall e,
        ((Z.of_nat node_num * node_degree) mod 2 = 0)%Z ->
        0 <= weight_range ->
        generated = Raise e ->
        init_generated node_num node_degree weight_range generated rnd
        = Raise e).
Proof.
  unfold init_generated, init_random, random_regular_graph. split.
  - intros [Hodd | Hneg].
    + apply Z.eqb_neq in Hodd. rewrite Hodd. reflexivity.
    + destruct ((_ mod 2 =? 0)%Z); [|reflexivity].
      assert (Hb : Qle_bool 0 weight_range = false).
      { destruct (Qle_bool 0 weight_range) eqn:E; [|reflexivity].
        apply Qle_bool_iff in E. lra. }
      rewrite Hb. reflexivity.
  - intros e Hpar Hwr ->.
    apply Z.eqb_eq in Hpar. rewrite Hpar.
    apply Qle_bool_iff in Hwr. rewrite Hwr. reflexivity.
Qed.

End RandomGraphFacts.

(* ================================================================== *)
(** * common.py: get_weights_graph on a matrix that is not symmetric *)
(* ================================================================== *)

Module LastWriteFacts.
Import PyDictFacts Np NpFacts Nx NxFacts Common LoopBodies WeightsGraphFacts.

(** What a loop does to an observation of its state, when each iteration
    changes the observation by a function of the observation alone. *)
Lemma fold_observe {A S O} (I : S -> Prop) (obs : S -> O)
      (step : S -> A -> S) (upd : O -> A -> O) (l : list A) :
  (forall s a, In a l -> I s -> I (step s a)) ->
  (forall s a, In a l -> I s -> obs (step s a) = upd (obs s) a) ->
  forall s, I s -> obs (fold_left step l s) = fold_left upd l (obs s).
Proof.
  induction l as [|a l IH]; intros HI Hobs s Hs; simpl; [reflexivity|].
  rewrite IH.
  - rewrite Hobs; [reflexivity | left; reflexivity | exact Hs].
  - intros s' a' Hin. apply HI. right. exact Hin.
  - intros s' a' Hin. apply Hobs. right. exact Hin.
  - apply HI; [left; reflexivity | exact Hs].
Qed.

Lemma fold_idle {O} (f : O -> nat -> O) (l : list nat) (o : O) :
  (forall o a, In a l -> f o a = o) -> fold_left f l o = o.
Proof.
  induction l as [|a l IH]; intros H; simpl; [reflexivity|].
  rewrite H by (left; reflexivity). apply IH.
  intros o' a' Hin. apply H. right. exact Hin.
Qed.

Lemma fold_one_writer {O} (f : O -> nat -> O) (n j : nat) (o : O) :
  (j < n)%nat ->
  (forall o b, b <> j -> f o b = o) ->
  fold_left f (seq 0 n) o = f o j.
Proof.
  intros Hj Hidle.
  replace n with (j + S (n - S j))%nat by lia.
  rewrite seq_app, fold_left_app. cbn [seq fold_left Nat.add].
  rewrite (fold_idle f (seq 0 j))
    by (intros o' a Ha; apply in_seq in Ha; apply Hidle; lia).
  apply fold_idle. intros o' a Ha. apply in_seq in Ha. apply Hidle. lia.
Qed.

Lemma fold_two_writers {O} (f : O -> nat -> O) (n i j : nat) (o : O) :
  (i < j)%nat -> (j < n)%nat ->
  (forall o a, a <> i -> a <> j -> f o a = o) ->
  fold_left f (seq 0 n) o = f (f o i) j.
Proof.
  intros Hij Hj Hidle.
  replace n with (i + S ((j - S i) + S (n - S j)))%nat by lia.
  rewrite seq_app, fold_left_app. cbn [seq fold_left Nat.add].
  rewrite seq_app, fold_left_app. cbn [seq fold_left Nat.add].
  rewrite (fold_idle f (seq 0 i))
    by (intros o' a Ha; apply in_seq in Ha; apply Hidle; lia).
  rewrite (fold_idle f (seq (S i) (j - S i)))
    by (intros o' a Ha; apply in_seq in Ha; apply Hidle; lia).
  replace (S (i + (j - S i)))%nat with j by lia.
  apply fold_idle. intros o' a Ha. apply in_seq in Ha. apply Hidle; lia.
Qed.

Section Pair.
Variable n : nat.
Variable M : matrix.
Variables i j : nat.
Hypothesis Hij : (i < j)%nat.
Hypothesis Hj : (j < n)%nat.

(** The edge data between [i] and [j], read from both ends. *)
Let obs (g : Graph) : option attrs * option attrs :=
  (get_edge_data g i j, get_edge_data g j i).

(** What one iteration of the double loop does to it. *)
Let upd (o : option attrs * option attrs) (c : nat * nat)
  : option attrs * option attrs :=
  let '(a, b) := c in
  if (a =? b)%nat then o
  else if Qle_bool (Qabs (mget M a b - 0)) eps then o
       else if ((a =? i)%nat && (b =? j)%nat) || ((a =? j)%nat && (b =? i)%nat)
            then (Some (Some (mget M a b)), Some (Some (mget M a b)))
            else o.

Lemma visit_observed g c : wf g -> obs (visit M g c) = upd (obs g) c.
Proof.
  intros Hwf. destruct c as [a b]. unfold visit, upd, obs.
  destruct (a =? b)%nat.
  - rewrite !add_node_edge_data by exact Hwf. reflexivity.
  - destruct (Qle_bool _ eps); [reflexivity|].
    destruct (Nat.eqb_spec a i) as [E1|N1]; destruct (Nat.eqb_spec b j) as [E2|N2];
      destruct (Nat.eqb_spec a j) as [E3|N3]; destruct (Nat.eqb_spec b i) as [E4|N4];
      cbn [andb orb]; try lia;
      try (rewrite E1, E2;
           rewrite (proj1 (add_edge_data_hit i j (mget M i j) Hwf)),
                   (proj2 (add_edge_data_hit i j (mget M i j) Hwf));
           reflexivity);
      try (rewrite E3, E4;
           rewrite (proj1 (add_edge_data_hit j i (mget M j i) Hwf)),
                   (proj2 (add_edge_data_hit j i (mget M j i) Hwf));
           reflexivity);
      (rewrite !add_edge_data_miss by (try exact Hwf; intros [? ?]; lia);
       reflexivity).
Qed.

Lemma loop_observed :
  obs (fold_left (visit M) (cells n) empty_graph)
  = upd (upd (None, None) (i, j)) (j, i).
Proof.
  assert (Hrow_i : forall o,
            fold_left (fun s b => upd s (i, b)) (seq 0 n) o = upd o (i, j)).
  { intros o. apply (@fold_one_writer _ (fun s b => upd s (i, b)) n j o Hj).
    intros o' b Nb. unfold upd.
    destruct (i =? b)%nat; [reflexivity|].
    destruct (Qle_bool _ eps); [reflexivity|].
    destruct (Nat.eqb_spec i j); [lia|].
    destruct (Nat.eqb_spec b j); [lia|].
    rewrite !andb_false_r. reflexivity. }
  assert (Hi : (i < n)%nat) by lia.
  assert (Hrow_j : forall o,
            fold_left (fun s b => upd s (j, b)) (seq 0 n) o = upd o (j, i)).
  { intros o. apply (@fold_one_writer _ (fun s b => upd s (j, b)) n i o Hi).
    intros o' b Nb. unfold upd.
    destruct (j =? b)%nat; [reflexivity|].
    destruct (Qle_bool _ eps); [reflexivity|].
    destruct (Nat.eqb_spec j i); [lia|].
    destruct (Nat.eqb_spec b i); [lia|].
    rewrite !andb_false_r. reflexivity. }
  assert (Hrow : forall o a, a <> i -> a <> j ->
            fold_left (fun s b => upd s (a, b)) (seq 0 n) o = o).
  { intros o a Na1 Na2. apply fold_idle. intros o' b _. unfold upd.
    destruct (a =? b)%nat; [reflexivity|].
    destruct (Qle_bool _ eps); [reflexivity|].
    destruct (Nat.eqb_spec a i); [lia|].
    destruct (Nat.eqb_spec a j); [lia|]. reflexivity. }
  rewrite (@fold_observe _ _ _ wf obs (visit M) upd).
  - rewrite <- fold_nested. unfold range.
    rewrite (@fold_two_writers _
               (fun s a => fold_left (fun s b => upd s (a, b)) (seq 0 n) s)
               n i j (obs empty_graph) Hij Hj Hrow).
    rewrite Hrow_i, Hrow_j. reflexivity.
  - intros g c _ Hg. apply wf_visit. exact Hg.
  - intros g c _ Hg. apply visit_observed. exact Hg.
  - apply wf_empty.
Qed.

Lemma small_test m : Qabs m <= eps -> Qle_bool (Qabs (m - 0)) eps = true.
Proof.
  intros H. destruct (Qle_bool (Qabs (m - 0)) eps) eqn:E; [reflexivity|].
  apply threshold_test in E. unfold makes_edge in E.
  exfalso. apply (Qlt_not_le _ _ E). exact H.
Qed.

Lemma pair_data :
  let G := fold_left (visit M) (cells n) empty_graph in
  get_edge_data G j i = get_edge_data G i j
  /\ (eps < Qabs (mget M j i) ->
      get_edge_data G i j = Some (Some (mget M j i)))
  /\ (Qabs (mget M j i) <= eps -> eps < Qabs (mget M i j) ->
      get_edge_data G i j = Some (Some (mget M i j)))
  /\ (Qabs (mget M j i) <= eps -> Qabs (mget M i j) <= eps ->
      get_edge_data G i j = None).
Proof.
  intros G. pose proof loop_observed as H. fold G in H.
  unfold obs, upd in H.
  assert (Eij : (i =? j)%nat = false) by (apply Nat.eqb_neq; lia).
  assert (Eji : (j =? i)%nat = false) by (apply Nat.eqb_neq; lia).
  rewrite Eij, Eji, !Nat.eqb_refl in H. cbn [andb orb] in H.
  rewrite ?orb_true_r in H.
  split; [|split; [|split]].
  - destruct (Qle_bool (Qabs (mget M j i - 0)) eps);
      destruct (Qle_bool (Qabs (mget M i j - 0)) eps);
      injection H as H1 H2; congruence.
  - intros Hb. apply threshold_test in Hb. rewrite Hb in H.
    destruct (Qle_bool (Qabs (mget M i j - 0)) eps);
      injection H as H1 H2; exact H1.
  - intros Hs Hb. apply small_test in Hs. apply threshold_test in Hb.
    rewrite Hs, Hb in H. injection H as H1 H2. exact H1.
  - intros Hs1 Hs2. apply small_test in Hs1. apply small_test in Hs2.
    rewrite Hs1, Hs2 in H. injection H as H1 H2. exact H1.
Qed.

End Pair.

(** X20.  On a matrix that need not be symmetric, the edge between
    [i < j] takes the entry below the diagonal whenever that one counts:
    its weight is [M[j][i]] when [|M[j][i]| > 1e-8], it is [M[i][j]] only
    when [M[j][i]] is negligible and [M[i][j]] is not, and there is no edge
    when both are negligible.  Both ends of the edge read the same data. *)
Theorem get_weights_graph_lower_entry_wins (n : nat) (M : matrix) :
  square n M ->
  exists G,
    get_weights_graph M None = Ok G
    /\ forall i j, (i < j)%nat -> (j < n)%nat ->
         get_edge_data G j i = get_edge_data G i j
         /\ (eps < Qabs (mget M j i) ->
             get_edge_data G i j = Some (Some (mget M j i)))
         /\ (Qabs (mget M j i) <= eps -> eps < Qabs (mget M i j) ->
             get_edge_data G i j = Some (Some (mget M i j)))
         /\ (Qabs (mget M j i) <= eps -> Qabs (mget M i j) <= eps ->
             get_edge_data G i j = None).
Proof.
  intros Hsq. eexists. split; [apply (get_weights_graph_fold Hsq)|].
  intros i j Hij Hj. exact (@pair_data n M i j Hij Hj).
Qed.

End LastWriteFacts.

(* ================================================================== *)
(** * max_cut.py: a graph without nodes *)
(* ================================================================== *)

Module QuboFrameFacts.
Import Np NpFacts Nx Common MaxCutApp Energy SumFacts LoopBodies
       QmatrixFacts QuboCutFacts.

(** X22.  On a graph without nodes networkx refuses the adjacency matrix:
    [get_Qmatrix] raises [NetworkXError], and so does [run] on a fresh
    object, which it leaves as it was. *)
Theorem run_empty_graph (self : MaxCut) :
  nodes (_graph self) = [] ->
  get_Qmatrix self = Raise NetworkXError
  /\ (_qmatrix self = None -> run self = (Raise NetworkXError, self)).
Proof.
  intros Hempty.
  assert (E : get_Qmatrix self = Raise NetworkXError).
  { unfold get_Qmatrix, adjacency_matrix. rewrite Hempty. reflexivity. }
  split; [exact E|].
  intros Hnone. unfold run. rewrite Hnone, E. reflexivity.
Qed.

End QuboFrameFacts.

(* ================================================================== *)
(** * The further properties on concrete inputs *)
(* ================================================================== *)

Module MoreInstances.
Import Np NpFacts Nx NxFacts Quimb Common MaxCutApp Backend Energy Cut
       StateEnergy Layers Readings LoopBodies RandomGraph Examples
       MoreExamples.

Lemma path3_adjacency_square : square 3 path3_adjacency.
Proof. apply squareb_spec. reflexivity. Qed.

Lemma path3_adjacency_symmetric : symmetric path3_adjacency.
Proof.
  apply (IsingMatrixMore.symmetric_in_range path3_adjacency_square).
  intros i j Hi Hj.
  destruct i as [|[|[|i]]]; [| | |lia];
    destruct j as [|[|[|j]]]; try lia; reflexivity.
Qed.

(** X2 on the adjacency matrix of the path. *)
Lemma get_ising_matrix_symmetric_path3 :
  exists ising_mat,
    get_ising_matrix path3_adjacency = Ok ising_mat
    /\ square 3 ising_mat
    /\ symmetric ising_mat.
Proof.
  apply (@IsingMatrixMore.get_ising_matrix_symmetric 3 path3_adjacency).
  - exact path3_adjacency_square.
  - exact path3_adjacency_symmetric.
Defined.

(** X6 on the path with five nodes announced. *)
Lemma get_Qmatrix_five_on_path3 :
  get_Qmatrix (mkMaxCut 5 path3 None) = Raise IndexError.
Proof.
  apply (@QuboCutFacts.get_Qmatrix_node_num_too_large (mkMaxCut 5 path3 None)
           path3_adjacency).
  - reflexivity.
  - change (3 < 5)%nat. lia.
Defined.

(** X10 on the keys of [counts] with truth values for counts. *)
Lemma get_most_small_ising_flags :
  get_most_small_ising flags weighted_pair = Ok [0; 1]%Z
  /\ get_most_small_ising counts weighted_pair
     = get_most_small_ising flags weighted_pair.
Proof.
  split; [reflexivity|].
  apply (@SmallIsingMore.get_most_small_ising_ignores_counts nat bool
           counts flags weighted_pair).
  reflexivity.
Defined.

(** X11 on a one-bit state for a graph of two weighted nodes. *)
Lemma get_most_small_ising_one_bit :
  get_most_small_ising short_counts weighted_pair = Raise IndexError.
Proof.
  apply (@SmallIsingMore.get_most_small_ising_short_key nat short_counts
           weighted_pair "0"%string 1%nat).
  - intros k Hk. simpl in Hk. unfold bitstring.
    destruct Hk as [<- | [<- | []]]; simpl;
      repeat (apply Forall_cons; [auto|]); apply Forall_nil.
  - right. left. reflexivity.
  - assert (E : PyDict.keys (get_node_attributes weighted_pair) = [0; 1]%nat)
      by reflexivity.
    rewrite E. right. left. reflexivity.
  - simpl. lia.
Defined.

(** X12 on the labels 5, 7 and 9: the couplings of [small_ising] join 5
    and 7 only. *)
Lemma get_weights_graph_labelled :
  exists G,
    get_weights_graph small_ising (Some labelled) = Ok G
    /\ (forall v, In v (nodes G) <-> In v (nodes labelled))
    /\ (forall i, (i < 3)%nat ->
          node_weight G (nth i (nodes labelled) 0%nat)
          = Some (mget small_ising i i))
    /\ (forall i j, (i < 3)%nat -> (j < 3)%nat ->
          (has_edge G (nth i (nodes labelled) 0%nat)
                      (nth j (nodes labelled) 0%nat) = true
           <-> (i <> j /\ eps < Qabs (mget small_ising i j))))
    /\ (forall u v a,
          get_edge_data G u v = Some a ->
          exists i j w,
            (i < 3)%nat /\ (j < 3)%nat
            /\ u = nth i (nodes labelled) 0%nat
            /\ v = nth j (nodes labelled) 0%nat
            /\ a = Some w /\ w == mget small_ising i j).
Proof.
  assert (Hsq : square 3 small_ising) by (apply squareb_spec; reflexivity).
  assert (Hsym : symmetric small_ising).
  { apply (IsingMatrixMore.symmetric_in_range Hsq). intros i j Hi Hj.
    destruct i as [|[|[|i]]]; [| | |lia];
      destruct j as [|[|[|j]]]; try lia; reflexivity. }
  assert (En : nodes labelled = [5; 7; 9]%nat) by reflexivity.
  apply (@RelabelFacts.get_weights_graph_relabels 3 small_ising labelled
           Hsq Hsym).
  - reflexivity.
  - rewrite En. apply NoDup_cons; [simpl; intuition congruence|].
    apply NoDup_cons; [simpl; intuition congruence|].
    apply NoDup_cons; [simpl; intuition congruence|]. apply NoDup_nil.
Defined.

(** X13 on the one edge networkx draws for two nodes of degree 1. *)
Lemma random_regular_graph_drawn_pair :
  exists G,
    random_regular_graph 2 1 10 false (Ok drawn_pair) fixed_draws = Ok G
    /\ nodes G = nodes drawn_pair
    /\ (forall x y, x <> y -> has_edge G x y = has_edge drawn_pair x y)
    /\ (forall u v, In (u, v) (edges drawn_pair) -> u <> v ->
          exists k, (k < length (edges drawn_pair))%nat
            /\ get_edge_data G u v = Some (Some (weight_at fixed_draws false k))
            /\ get_edge_data G v u
               = Some (Some (weight_at fixed_draws false k)))
    /\ (forall v, In v (nodes drawn_pair) ->
          exists k,
            (length (edges drawn_pair) <= k
             < length (edges drawn_pair) + length (nodes drawn_pair))%nat
            /\ node_weight G v = Some (weight_at fixed_draws false k)
            /\ get_edge_data G v v
               = Some (Some (weight_at fixed_draws false k))).
Proof.
  apply (@RandomGraphFacts.random_regular_graph_weights 2 1 10 false
           (Ok drawn_pair) fixed_draws drawn_pair).
  - reflexivity.
  - discriminate.
  - reflexivity.
  - apply wf_add_edge, wf_empty.
  - intros u v Hin.
    assert (E : edges drawn_pair = [(0, 1)]%nat) by reflexivity.
    rewrite E in Hin. destruct Hin as [E' | []].
    injection E' as <- <-. repeat split; reflexivity.
Defined.

(** X14 on the evaluator of [one_edge] asked about the path, whose node 2
    has no weight. *)
Lemma get_expectation_path3_unweighted :
  get_expectation count_gates (evaluator false) (ENode 0, path3)
  = Raise KeyError.
Proof.
  apply (@BackendMore.get_expectation_missing_node_weight count_gates
           (evaluator false) (ENode 0) path3 [1 # 2; 1 # 3] 1%nat
           [(0%nat, 1); (1%nat, 3)] 2%nat).
  - reflexivity.
  - reflexivity.
  - lia.
  - discriminate.
  - reflexivity.
  - assert (E : nodes path3 = [0; 1; 2]%nat) by reflexivity.
    rewrite E. right. right. left. reflexivity.
  - reflexivity.
Defined.

(** X16 on [one_edge] with one layer: 2 + (2 + 1 + 2) gates on 2 qubits. *)
Lemma build_circuit_register_one_edge :
  exists circ : Circuit,
    build_circuit (evaluator false) one_edge
                  (build_node_to_qubit (nodes one_edge))
                  (firstn 1 [1 # 2; 1 # 3]) (skipn 1 [1 # 2; 1 # 3]) 1
                  (new_circuit (length (nodes one_edge)))
    = Ok circ
    /\ N circ = length (nodes one_edge)
    /\ (forall g q, In g (gates circ) -> In q (qubits g) ->
          (q < N circ)%nat)
    /\ length (gates circ) = 7%nat.
Proof.
  assert (En : nodes one_edge = [0; 1]%nat) by reflexivity.
  assert (Ee : edges one_edge = [(0, 1)]%nat) by reflexivity.
  apply (@RegisterFacts.build_circuit_register (evaluator false) one_edge
           [1 # 2; 1 # 3] 1%nat
           [(0%nat, 1); (1%nat, 3)] [((0%nat, 1%nat), 2)]).
  - reflexivity.
  - reflexivity.
  - reflexivity.
  - rewrite En. apply NoDup_cons; [simpl; intuition congruence|].
    apply NoDup_cons; [simpl; intuition congruence|]. apply NoDup_nil.
  - intros nd Hnd. rewrite En in Hnd. simpl in Hnd.
    destruct Hnd as [<- | [<- | []]]; discriminate.
  - intros edge Hin _. rewrite Ee in Hin. simpl in Hin.
    destruct Hin as [<- | []]. discriminate.
  - intros edge Hin. rewrite Ee in Hin. simpl in Hin.
    destruct Hin as [<- | []]. rewrite En. simpl. auto.
Defined.

(** X20 on a matrix with 5 above and 7 below the diagonal. *)
Lemma get_weights_graph_lopsided :
  exists G,
    get_weights_graph lopsided None = Ok G
    /\ forall i j, (i < j)%nat -> (j < 2)%nat ->
         get_edge_data G j i = get_edge_data G i j
         /\ (eps < Qabs (mget lopsided j i) ->
             get_edge_data G i j = Some (Some (mget lopsided j i)))
         /\ (Qabs (mget lopsided j i) <= eps ->
             eps < Qabs (mget lopsided i j) ->
             get_edge_data G i j = Some (Some (mget lopsided i j)))
         /\ (Qabs (mget lopsided j i) <= eps ->
             Qabs (mget lopsided i j) <= eps ->
             get_edge_data G i j = None).
Proof.
  apply (@LastWriteFacts.get_weights_graph_lower_entry_wins 2 lopsided).
  apply squareb_spec. reflexivity.
Defined.

(** X22 on the object built on the graph without nodes. *)
Lemma run_no_nodes :
  get_Qmatrix (init_graph empty_graph) = Raise NetworkXError
  /\ (_qmatrix (init_graph empty_graph) = None ->
      run (init_graph empty_graph)
      = (Raise NetworkXError, init_graph empty_graph)).
Proof.
  apply (@QuboFrameFacts.run_empty_graph (init_graph empty_graph)).
  reflexivity.
Defined.

(** X3 on two rows of one column. *)
Lemma get_ising_matrix_tall :
  get_ising_matrix tall = Raise IndexError.
Proof.
  apply (@IsingMatrixMore.get_ising_matrix_few_columns 1 tall).
  - intros row Hin. simpl in Hin.
    destruct Hin as [<- | [<- | []]]; reflexivity.
  - simpl. lia.
Defined.


End MoreInstances.
